(** * Data Formulator (Next.js migration): chart assembly, type inference,
      thumbnail down-sampling, the store and the event client.

    A shallow embedding of
      - [lib/utils/chartUtils.ts]   ([getDType], [assembleVegaChart],
        [extractFieldsFromEncodingMap], [prepVisTable], [validateChart],
        [getChartDataRequirements]),
      - [lib/constants/ChartTemplates.tsx] (the template catalogue and its
        accessors),
      - [lib/utils/viewUtils.ts] ([inferDataType], [getDomains],
        [truncateText]),
      - [lib/types/componentTypes.ts] ([inferTypeFromValueArray],
        [createDictTable], [createEmptyEncodingMap], [createDefaultChart]),
      - [lib/store/slices/dataFormulatorSlice.ts] ([generateFreshChart],
        [deleteChartsRoutine], the reducers of tables, charts, concepts and
        models, the selectors),
      - [components/data-formulator/ChartRecBox.tsx] ([getRandomSubarray]),
      - [lib/services/SSEClient.tsx] (the class [SSEClient]),
    followed by the properties proved about them. *)

From Stdlib Require Import List String Ascii Bool Arith PeanoNat ZArith QArith Qround Lia.
From Stdlib Require Import DecimalString Lqa Permutation.
Import ListNotations.
Local Open Scope string_scope.
Local Open Scope list_scope.
Set Warnings "-register-all".
Close Scope Q_scope.

(* ================================================================== *)
(** * 1. JavaScript values *)
(* ================================================================== *)

(** A JS number: the three non-finite doubles and the finite ones, the latter
    embedded in the rationals (only comparison and equality are used on
    them, never rounding arithmetic). *)
Inductive number : Type :=
| NaN
| Infinity (negative : bool)
| Finite (q : Q).

(** JS values: primitives, arrays and plain objects.  An object is the list
    of its own enumerable properties in enumeration order (insertion order;
    the code below never inserts a key that is a canonical array index, the
    one case where JS enumerates differently).  [VFunction] stands for a
    built-in method read off a prototype; the only one the code can reach is
    [Array.prototype.values].  Other inherited members ([constructor],
    [toString], ...) are not modelled: column names and path keys are
    assumed not to be such names. *)
Inductive value : Type :=
| VUndefined
| VNull
| VBool (b : bool)
| VNum (n : number)
| VStr (s : string)
| VArr (items : list value)
| VObj (props : list (string * value))
| VFunction (name : string).

Definition object : Type := list (string * value).

(** Built-ins whose definition lies outside the repository (ECMAScript
    number/string conversion, the host's date parser, the JSON reader, the
    sine).  The model is parametric in them. *)
Class JSHost : Type := {
  Number_toString : number -> string;   (* ToString on a number *)
  String_toNumber : string -> number;   (* Number(s) on a string *)
  Date_parse : string -> number;        (* Date.parse(s): NaN when s is no date *)
  JSON_parse : string -> option value;  (* None: SyntaxError *)
  Math_sin : Z -> Q                     (* Math.sin at an integer argument *)
}.

Definition isNaN (n : number) : bool :=
  match n with NaN => true | _ => false end.

Definition isFinite (n : number) : bool :=
  match n with Finite _ => true | _ => false end.

(** IEEE equality of numbers ([NaN] differs from itself). *)
Definition number_eqb (a b : number) : bool :=
  match a, b with
  | Finite x, Finite y => Qeq_bool x y
  | Infinity s, Infinity t => Bool.eqb s t
  | _, _ => false
  end.

(** [a <= b] on numbers ([false] as soon as one is [NaN]). *)
Definition number_leb (a b : number) : bool :=
  match a, b with
  | NaN, _ | _, NaN => false
  | Infinity true, _ => true
  | _, Infinity false => true
  | Infinity false, _ => false
  | _, Infinity true => false
  | Finite x, Finite y => Qle_bool x y
  end.

(** [a === b].  Two objects or arrays are strictly equal only when they are
    the same object; values held in different places of plain data never
    are, so the comparison of two containers is [false]. *)
Definition strict_equal (a b : value) : bool :=
  match a, b with
  | VUndefined, VUndefined => true
  | VNull, VNull => true
  | VBool x, VBool y => Bool.eqb x y
  | VNum x, VNum y => number_eqb x y
  | VStr x, VStr y => String.eqb x y
  | _, _ => false
  end.

(** SameValueZero, the equality of [Set] and [Array.prototype.includes]. *)
Definition SameValueZero (a b : value) : bool :=
  match a, b with
  | VNum NaN, VNum NaN => true
  | _, _ => strict_equal a b
  end.

(** ToBoolean. *)
Definition truthy (v : value) : bool :=
  match v with
  | VUndefined | VNull => false
  | VBool b => b
  | VNum NaN => false
  | VNum (Finite q) => negb (Qeq_bool q 0%Q)
  | VNum (Infinity _) => true
  | VStr s => negb (s =? "")
  | VArr _ | VObj _ | VFunction _ => true
  end.

(** [typeof v === 'string'] *)
Definition is_string (v : value) : bool :=
  match v with VStr _ => true | _ => false end.

Section Conversions.
Context {host : JSHost}.

(** ToString (what [String(v)], template literals and the default sort
    comparator apply). *)
Fixpoint ToString (v : value) : string :=
  match v with
  | VUndefined => "undefined"
  | VNull => "null"
  | VBool true => "true"
  | VBool false => "false"
  | VNum n => Number_toString n
  | VStr s => s
  | VArr items =>
      String.concat ","
        (map (fun x => match x with
                       | VUndefined | VNull => ""
                       | _ => ToString x
                       end) items)
  | VObj _ => "[object Object]"
  | VFunction name => "function " ++ name ++ "() { [native code] }"
  end.

(** ToNumber (what [Number(v)] and [Math.min]/[Math.max] apply). *)
Definition ToNumber (v : value) : number :=
  match v with
  | VUndefined => NaN
  | VNull => Finite 0%Q
  | VBool true => Finite 1%Q
  | VBool false => Finite 0%Q
  | VNum n => n
  | VStr s => String_toNumber s
  | VArr _ | VObj _ | VFunction _ => String_toNumber (ToString v)
  end.
End Conversions.

(** ** Objects and arrays *)

(** [o[k]] on an object ([undefined] when [k] is not an own property). *)
Fixpoint obj_get (o : object) (k : string) : value :=
  match o with
  | [] => VUndefined
  | (k', v) :: rest => if k' =? k then v else obj_get rest k
  end.

(** [k in o] for own properties. *)
Fixpoint obj_has (o : object) (k : string) : bool :=
  match o with
  | [] => false
  | (k', _) :: rest => (k' =? k) || obj_has rest k
  end.

(** [o[k] = v]: an existing property keeps its place, a new one goes last. *)
Fixpoint obj_set (o : object) (k : string) (v : value) : object :=
  match o with
  | [] => [(k, v)]
  | (k', v') :: rest =>
      if k' =? k then (k', v) :: rest else (k', v') :: obj_set rest k v
  end.

(** [delete o[k]] *)
Fixpoint obj_delete (o : object) (k : string) : object :=
  match o with
  | [] => []
  | (k', v') :: rest =>
      if k' =? k then rest else (k', v') :: obj_delete rest k
  end.

(** [Object.fromEntries(entries)] *)
Definition Object_fromEntries (entries : list (string * value)) : object :=
  fold_left (fun o kv => obj_set o (fst kv) (snd kv)) entries [].

(** [a[i] = v] on an array: in range the slot is replaced; past the end the
    array grows, the slots in between reading [undefined]. *)
Fixpoint arr_set (a : list value) (i : nat) (v : value) : list value :=
  match i, a with
  | O, [] => [v]
  | O, _ :: rest => v :: rest
  | S i', [] => VUndefined :: arr_set [] i' v
  | S i', x :: rest => x :: arr_set rest i' v
  end.

(** [arr.includes(v)] *)
Definition includes (arr : list value) (v : value) : bool :=
  existsb (fun x => SameValueZero x v) arr.

(** [[...new Set(arr)]]: first occurrences, in order. *)
Fixpoint uniq_from (seen : list value) (arr : list value) : list value :=
  match arr with
  | [] => []
  | x :: rest =>
      if includes seen x then uniq_from seen rest
      else x :: uniq_from (seen ++ [x]) rest
  end.

Definition Set_values (arr : list value) : list value := uniq_from [] arr.

Section Sorting.
Context {host : JSHost}.

(** The default comparator of [Array.prototype.sort]: [undefined] goes
    last, everything else is ordered by its string form. *)
Definition sort_leb (a b : value) : bool :=
  match a, b with
  | _, VUndefined => true
  | VUndefined, _ => false
  | _, _ => String.leb (ToString a) (ToString b)
  end.

Fixpoint sort_insert (x : value) (sorted : list value) : list value :=
  match sorted with
  | [] => [x]
  | y :: rest =>
      if sort_leb y x then y :: sort_insert x rest else x :: y :: rest
  end.

(** [arr.sort()] (stable). *)
Definition Array_sort (arr : list value) : list value :=
  fold_left (fun acc x => sort_insert x acc) arr [].
End Sorting.

(** [String.prototype.includes] *)
Definition String_includes (s sub : string) : bool :=
  match String.index 0 sub s with Some _ => true | None => false end.

(** The double-quote character, as a string. *)
Definition dquote : string := String (ascii_of_nat 34) EmptyString.

(** Decimal form of a natural number (array indices used as object keys). *)
Definition string_of_nat (n : nat) : string :=
  NilZero.string_of_uint (Nat.to_uint n).

(** A truthy string: present and not empty. *)
Definition nonempty (s : option string) : bool :=
  match s with
  | Some x => negb (x =? "")
  | None => false
  end.

(* ================================================================== *)
(** * 2. Type inference *)
(* ================================================================== *)

(** [DataType] of componentTypes.ts, [Type] of viewUtils.ts. *)
Inductive DataType : Type :=
| DT_string | DT_number | DT_date | DT_boolean | DT_auto.

(** [v != null && v !== ''] *)
Definition nonNull (v : value) : bool :=
  match v with
  | VUndefined | VNull => false
  | VStr s => negb (s =? "")
  | _ => true
  end.

(** [typeof v === 'boolean' || v === 'true' || v === 'false'] *)
Definition isBooleanLike (v : value) : bool :=
  match v with
  | VBool _ => true
  | VStr s => (s =? "true") || (s =? "false")
  | _ => false
  end.

Section TypeInference.
Context {host : JSHost}.

(** [!isNaN(Number(v)) && isFinite(Number(v))] *)
Definition isNumberLike (v : value) : bool :=
  negb (isNaN (ToNumber v)) && isFinite (ToNumber v).

(** [!isNaN(Date.parse(v))] *)
Definition isDateLike (v : value) : bool :=
  negb (isNaN (Date_parse (ToString v))).

(** viewUtils.ts, [inferDataType]. *)
Definition inferDataType (values : list value) : DataType :=
  if (List.length values =? 0)%nat then DT_auto
  else
    let nonNullValues := filter nonNull values in
    if (List.length nonNullValues =? 0)%nat then DT_auto
    else if forallb isBooleanLike nonNullValues then DT_boolean
    else if forallb isNumberLike nonNullValues then DT_number
    else if forallb isDateLike nonNullValues then DT_date
    else DT_string.

(** componentTypes.ts, [inferTypeFromValueArray]. *)
Definition inferTypeFromValueArray (values : list value) : DataType :=
  if (List.length values =? 0)%nat then DT_auto
  else
    let nonNullValues := filter nonNull values in
    if (List.length nonNullValues =? 0)%nat then DT_auto
    else if forallb isBooleanLike nonNullValues then DT_boolean
    else if forallb isNumberLike nonNullValues then DT_number
    else if forallb isDateLike nonNullValues then DT_date
    else DT_string.

(** chartUtils.ts, [getDType]: the display type of a column. *)
Definition getDType (type : DataType) (values : list value) : string :=
  match type with
  | DT_auto =>
      let nonNullValues := filter nonNull values in
      if (List.length nonNullValues =? 0)%nat then "nominal"
      else if forallb isBooleanLike nonNullValues then "nominal"
      else if forallb isNumberLike nonNullValues then "quantitative"
      else if forallb isDateLike nonNullValues then "temporal"
      else "nominal"
  | DT_number => "quantitative"
  | DT_date => "temporal"
  | DT_boolean | DT_string => "nominal"
  end.
End TypeInference.

(* ================================================================== *)
(** * 3. Data model (componentTypes.ts) *)
(* ================================================================== *)

Inductive FieldSource : Type := FS_original | FS_derived | FS_custom.
Inductive ChartSource : Type := CS_user | CS_trigger.

(** [AGGR_OP_LIST] *)
Inductive AggrOp : Type :=
| Aggr_count | Aggr_sum | Aggr_average | Aggr_mean
| Aggr_median | Aggr_min | Aggr_max | Aggr_distinct.

Definition AggrOp_toString (a : AggrOp) : string :=
  match a with
  | Aggr_count => "count" | Aggr_sum => "sum" | Aggr_average => "average"
  | Aggr_mean => "mean" | Aggr_median => "median" | Aggr_min => "min"
  | Aggr_max => "max" | Aggr_distinct => "distinct"
  end.

Inductive StackMode : Type :=
| Stack_layered | Stack_zero | Stack_center | Stack_normalize.

Definition StackMode_toString (s : StackMode) : string :=
  match s with
  | Stack_layered => "layered" | Stack_zero => "zero"
  | Stack_center => "center" | Stack_normalize => "normalize"
  end.

Inductive SortOrder : Type := ascending | descending.

Definition SortOrder_toString (o : SortOrder) : string :=
  match o with ascending => "ascending" | descending => "descending" end.

(** [FieldItem]; the properties the modelled functions never read
    (transform, temporary, levels, description; likewise [virtual] and
    [derive.dialog] of a table below) are left out. *)
Module FieldItem.
Record t : Type := mk {
  id : string;
  name : string;
  type : DataType;
  source : FieldSource;
  domain : list value;
  tableRef : string;
  semanticType : option string
}.
End FieldItem.

(** [EncodingItem]: every property is optional. *)
Record EncodingItem : Type := {
  fieldID : option string;
  aggregate : option AggrOp;
  stack : option StackMode;
  sortOrder : option SortOrder;
  sortBy : option string;
  scheme : option string;
  bin : option bool
}.

(** An [EncodingMap] as [Object.entries] enumerates it. *)
Definition EncodingMap : Type := list (string * EncodingItem).

Module Chart.
Record t : Type := mk {
  id : string;
  chartType : string;
  encodingMap : EncodingMap;
  tableRef : string;
  saved : bool;
  source : ChartSource
}.
End Chart.

Record Trigger : Type := {
  tableId : string;
  sourceTableIds : list string;
  chart : option Chart.t;
  instruction : string;
  resultTableId : string
}.

Record Derive : Type := {
  derive_source : list string;    (* [derive.source] *)
  code : string;
  codeExpl : string;
  trigger : Trigger
}.

Module DictTable.
Record t : Type := mk {
  id : string;
  displayId : string;
  names : list string;
  types : list DataType;
  rows : list object;
  derive : option Derive;
  anchored : bool;
  explorativeQuestions : list string
}.
End DictTable.

(* ================================================================== *)
(** * 4. The store slice (dataFormulatorSlice.ts) *)
(* ================================================================== *)

(** The part of [DataFormulatorState] that the table and chart reducers
    read or write. *)
Record DataFormulatorState : Type := {
  tables : list DictTable.t;
  charts : list Chart.t;
  conceptShelfItems : list FieldItem.t;
  focusedTableId : option string;
  focusedChartId : option string;
  chartSynthesisInProgress : list string
}.

(** [ids.includes(x)] on strings. *)
Definition str_includes (ids : list string) (x : string) : bool :=
  existsb (fun y => y =? x) ids.

Definition defaultTable : DictTable.t :=
  DictTable.mk "default" "default" [] [] [] None false [].

(** [getDataTable]: the table a chart is drawn from; a chart whose
    [tableRef] names no table falls back to the first table. *)
Definition getDataTable (chart : Chart.t) (tables : list DictTable.t)
    (allCharts : list Chart.t) (conceptShelfItems : list FieldItem.t)
    : DictTable.t :=
  match find (fun t => DictTable.id t =? Chart.tableRef chart) tables with
  | Some t => t
  | None => match tables with
            | t0 :: _ => t0
            | [] => defaultTable
            end
  end.

Definition isSome {A : Type} (o : option A) : bool :=
  match o with Some _ => true | None => false end.

Definition getUnrefedDerivedTableIds (state : DataFormulatorState)
    : list string :=
  let allCharts := charts state in
  let chartRefedTables :=
    map DictTable.id
      (map (fun chart =>
              getDataTable chart (tables state) allCharts
                (conceptShelfItems state)) allCharts) in
  map DictTable.id
    (filter (fun table =>
               isSome (DictTable.derive table)
               && negb (str_includes chartRefedTables (DictTable.id table)))
       (tables state)).

Definition deleteChartsRoutine (state : DataFormulatorState)
    (chartIds : list string) : DataFormulatorState :=
  let charts' :=
    filter (fun c => negb (str_includes chartIds (Chart.id c))) (charts state) in
  let refocus :=
    match focusedChartId state with
    | Some f => negb (f =? "") && str_includes chartIds f
    | None => false
    end in
  let focusedChartId' :=
    if refocus then
      match charts' with
      | c0 :: _ => Some (Chart.id c0)
      | [] => None
      end
    else focusedChartId state in
  let focusedTableId' :=
    if refocus then
      match focusedChartId' with
      | Some f =>
          option_map Chart.tableRef
            (find (fun c => Chart.id c =? f) charts')
      | None => None
      end
    else focusedTableId state in
  let state1 := {|
    tables := tables state;
    charts := charts';
    conceptShelfItems := conceptShelfItems state;
    focusedTableId := focusedTableId';
    focusedChartId := focusedChartId';
    chartSynthesisInProgress :=
      filter (fun s => negb (str_includes chartIds s))
        (chartSynthesisInProgress state)
  |} in
  let unrefedDerivedTableIds := getUnrefedDerivedTableIds state1 in
  let tableIdsToDelete :=
    map DictTable.id
      (filter (fun t =>
                 negb (DictTable.anchored t)
                 && str_includes unrefedDerivedTableIds (DictTable.id t))
         (tables state1)) in
  {|
    tables :=
      filter (fun t => negb (str_includes tableIdsToDelete (DictTable.id t)))
        (tables state1);
    charts := charts state1;
    conceptShelfItems := conceptShelfItems state1;
    focusedTableId := focusedTableId state1;
    focusedChartId := focusedChartId state1;
    chartSynthesisInProgress := chartSynthesisInProgress state1
  |}.

(** [initialState], on the fields of the slice kept here. *)
Definition initialState : DataFormulatorState :=
  {| tables := [];
     charts := [];
     conceptShelfItems := [];
     focusedTableId := None;
     focusedChartId := None;
     chartSynthesisInProgress := [] |}.

(** Reducer [addTable]: [state.tables.push(action.payload)]. *)
Definition addTable (state : DataFormulatorState) (payload : DictTable.t)
    : DataFormulatorState :=
  {| tables := tables state ++ [payload];
     charts := charts state;
     conceptShelfItems := conceptShelfItems state;
     focusedTableId := focusedTableId state;
     focusedChartId := focusedChartId state;
     chartSynthesisInProgress := chartSynthesisInProgress state |}.

(** Reducer [deleteTable]. *)
Definition deleteTable (state : DataFormulatorState) (payload : string)
    : DataFormulatorState :=
  let state1 := {|
    tables :=
      filter (fun t => negb (DictTable.id t =? payload)) (tables state);
    charts := charts state;
    conceptShelfItems := conceptShelfItems state;
    focusedTableId := focusedTableId state;
    focusedChartId := focusedChartId state;
    chartSynthesisInProgress := chartSynthesisInProgress state
  |} in
  let chartsToDelete :=
    filter (fun c => Chart.tableRef c =? payload) (charts state1) in
  let state2 := deleteChartsRoutine state1 (map Chart.id chartsToDelete) in
  {|
    tables := tables state2;
    charts := charts state2;
    conceptShelfItems :=
      filter (fun item => negb (FieldItem.tableRef item =? payload))
        (conceptShelfItems state2);
    focusedTableId := focusedTableId state2;
    focusedChartId := focusedChartId state2;
    chartSynthesisInProgress := chartSynthesisInProgress state2
  |}.

(** Reducers [deleteChart] and [deleteChartById]. *)
Definition deleteChart (state : DataFormulatorState) (payload : string)
    : DataFormulatorState :=
  deleteChartsRoutine state [payload].

Definition deleteChartById (state : DataFormulatorState) (payload : string)
    : DataFormulatorState :=
  deleteChartsRoutine state [payload].

(** A sequence of [deleteChart] actions dispatched one after the other. *)
Definition deleteCharts (state : DataFormulatorState) (payloads : list string)
    : DataFormulatorState :=
  fold_left deleteChart payloads state.

(* ================================================================== *)
(** * 5. Thumbnail down-sampling (ChartElementFC) *)
(* ================================================================== *)

Section Thumbnail.
Context {host : JSHost}.

(** [getRandom]: [x = Math.sin(seed++) * 10000; x - Math.floor(x)].  The
    products are taken in the rationals: rounding to a double is not
    modelled. *)
Definition getRandom (seed : Z) : Q :=
  let x := (Math_sin seed * inject_Z 10000)%Q in
  (x - inject_Z (Qfloor x))%Q.

(** [Math.floor((i + 1) * getRandom(233 * i + 888))] *)
Definition shuffleIndex (i : nat) : nat :=
  Z.to_nat
    (Qfloor (inject_Z (Z.of_nat i + 1)
             * getRandom (233 * Z.of_nat i + 888))%Q).

(** One turn of the [while (i--)] loop, [i] being the decremented value. *)
Definition swapStep (shuffled : list value) (i : nat) : list value :=
  let index := shuffleIndex i in
  let temp := nth index shuffled VUndefined in
  let shuffled := arr_set shuffled index (nth i shuffled VUndefined) in
  arr_set shuffled i temp.

Fixpoint shuffleLoop (i : nat) (shuffled : list value) : list value :=
  match i with
  | O => shuffled
  | S i' => shuffleLoop i' (swapStep shuffled i')
  end.

Definition getRandomSubarray (arr : list value) (size : nat) : list value :=
  firstn size (shuffleLoop (List.length arr) arr).

(** The "temporary fix, down sample the dataset" step applied to the
    assembled rows. *)
Definition downSample (values : list value) : list value :=
  if (5000 <? List.length values)%nat then getRandomSubarray values 5000
  else values.
End Thumbnail.

(* ================================================================== *)
(** * 6. Navigating and updating a specification *)
(* ================================================================== *)

(** A path key ([string | number]). *)
Inductive key : Type := KStr (s : string) | KNum (n : nat).
Definition path : Type := list key.

(** Exceptions: [new Error(message)] and the engine's [TypeError] /
    [SyntaxError]. *)
Inductive exn : Type :=
| Error (message : string)
| TypeError
| SyntaxError.

Inductive result (A : Type) : Type :=
| Ok (a : A)
| Throw (e : exn).
Arguments Ok {A} a.
Arguments Throw {A} e.

Definition rbind {A B : Type} (r : result A) (k : A -> result B) : result B :=
  match r with
  | Ok a => k a
  | Throw e => Throw e
  end.

Notation "x <-- r ;; k" := (rbind r (fun x => k))
  (at level 61, r at next level, right associativity).

(** The property name a key denotes. *)
Definition key_toString (k : key) : string :=
  match k with
  | KStr s => s
  | KNum n => string_of_nat n
  end.

(** The array index a key denotes, if it is one (a number, or the decimal
    form of one). *)
Definition key_index (k : key) : option nat :=
  match k with
  | KNum n => Some n
  | KStr s =>
      match NilZero.uint_of_string s with
      | Some u => if string_of_nat (Nat.of_uint u) =? s
                  then Some (Nat.of_uint u) else None
      | None => None
      end
  end.

(** [ref[k]]: a [TypeError] on [undefined] and [null]; a primitive has no
    such property (indexing into a string is not modelled). *)
Definition get_prop (ref : value) (k : key) : result value :=
  match ref with
  | VUndefined | VNull => Throw TypeError
  | VObj o => Ok (obj_get o (key_toString k))
  | VArr a =>
      match key_index k with
      | Some n => Ok (nth n a VUndefined)
      | None =>
          if key_toString k =? "length"
          then Ok (VNum (Finite (inject_Z (Z.of_nat (List.length a)))))
          else if key_toString k =? "values"
          then Ok (VFunction "values")
          else Ok VUndefined
      end
  | _ => Ok VUndefined
  end.

(** [ref?.[k]] *)
Definition get_prop_opt (ref : value) (k : key) : value :=
  match get_prop ref k with
  | Ok v => v
  | Throw _ => VUndefined
  end.

(** [ref[k] = v] in module (strict) code: a [TypeError] on [undefined],
    [null] and primitives.  A named property put on an array or a function
    is not part of the plain data and is dropped. *)
Definition set_prop (ref : value) (k : key) (v : value) : result value :=
  match ref with
  | VObj o => Ok (VObj (obj_set o (key_toString k) v))
  | VArr a =>
      match key_index k with
      | Some n => Ok (VArr (arr_set a n v))
      | None => Ok (VArr a)
      end
  | VFunction f => Ok (VFunction f)
  | _ => Throw TypeError
  end.

(** [delete ref[k]] on an object. *)
Definition delete_prop (ref : value) (k : string) : value :=
  match ref with
  | VObj o => VObj (obj_delete o k)
  | _ => ref
  end.

(** [Object.entries(v)] of a truthy value. *)
Definition Object_entries (v : value) : list (string * value) :=
  match v with
  | VObj o => o
  | VArr a => combine (map string_of_nat (seq 0 (List.length a))) a
  | _ => []
  end.

(** [root.k1.k2...kn] *)
Fixpoint get_path (p : path) (root : value) : result value :=
  match p with
  | [] => Ok root
  | k :: rest => child <-- get_prop root k ;; get_path rest child
  end.

(** Walk from [root] along [parents] ([ref = ref[key]] at each step), run
    [f] on the object reached, which it mutates in place: every object on
    the way is the same object afterwards, with the mutated child inside. *)
Fixpoint at_path (parents : path) (f : value -> result value) (root : value)
    : result value :=
  match parents with
  | [] => f root
  | k :: rest =>
      child <-- get_prop root k ;;
      child' <-- at_path rest f child ;;
      match root with
      | VObj _ | VArr _ => set_prop root k child'
      | _ => Ok root
      end
  end.

(** [ref[k] = g(ref[k])] *)
Definition leaf_update (k : key) (g : value -> value) (ref : value)
    : result value :=
  current <-- get_prop ref k ;;
  set_prop ref k (g current).

(** [root.k1...kn = v] *)
Definition assign_path (p : path) (v : value) (root : value) : result value :=
  at_path (removelast p)
    (fun ref => set_prop ref (last p (KStr "undefined")) v) root.

(** [JSON.parse(JSON.stringify(v))] for a [v] that is an object or an
    array: properties holding [undefined] or a function are dropped, such
    array slots and the non-finite numbers become [null]. *)
Fixpoint json_copy (v : value) : value :=
  match v with
  | VNum NaN | VNum (Infinity _) => VNull
  | VArr items =>
      VArr (map (fun x => match x with
                          | VUndefined | VFunction _ => VNull
                          | _ => json_copy x
                          end) items)
  | VObj props =>
      VObj (flat_map (fun kv => match kv with
                                | (_, VUndefined) | (_, VFunction _) => []
                                | (k, x) => [(k, json_copy x)]
                                end) props)
  | _ => v
  end.

(** [structuredClone(v)] of plain data: a deep copy, that is the same tree,
    sharing no object with [v]. *)
Definition structuredClone (v : value) : value := v.

(* ================================================================== *)
(** * 7. The template catalogue (ChartTemplates.tsx) *)
(* ================================================================== *)

(** The value of [paths[channel]]: one path, or an array of paths. *)
Inductive pathObj : Type :=
| OnePath (p : path)
| ManyPaths (ps : list path).

Module ChartTemplate.
Record t : Type := mk {
  chart : string;
  icon : string;
  template : value;
  channels : list string;
  paths : list (string * pathObj);
  postProcessor : option (value -> list object -> result value)
}.
End ChartTemplate.

Definition num (z : Z) : value := VNum (Finite (inject_Z z)).

(** [Object.fromEntries(channels.map(channel => [channel, ['encoding', channel]]))] *)
Definition encodingPaths (channels : list string) : list (string * pathObj) :=
  map (fun channel => (channel, OnePath [KStr "encoding"; KStr channel]))
    channels.

(** [{ mark, encoding: {} }] *)
Definition markTemplate (mark : value) : value :=
  VObj [("mark", mark); ("encoding", VObj [])].

Section PostProcessors.
Context {host : JSHost}.

(** [r[k]] where [k] is any value used as a property name. *)
Definition row_get (r : object) (k : value) : value := obj_get r (ToString k).

(** Ranged Dot Plot. *)
Definition rangedDotPlotPostProcessor (vgSpec : value) (table : list object)
    : result value :=
  encoding <-- get_prop vgSpec (KStr "encoding") ;;
  y <-- get_prop encoding (KStr "y") ;;
  if strict_equal (get_prop_opt y (KStr "type")) (VStr "nominal") then
    assign_path [KStr "layer"; KNum 0; KStr "encoding"; KStr "detail"]
      (json_copy y) vgSpec
  else
    x <-- get_prop encoding (KStr "x") ;;
    if strict_equal (get_prop_opt x (KStr "type")) (VStr "nominal") then
      assign_path [KStr "layer"; KNum 0; KStr "encoding"; KStr "detail"]
        (json_copy x) vgSpec
    else Ok vgSpec.

(** [if (vgSpec.encoding.c && vgSpec.encoding.c.type !== 'nominal')
       vgSpec.encoding.c.type = 'nominal'] *)
Definition forceNominal (c : string) (vgSpec : value) : result value :=
  encoding <-- get_prop vgSpec (KStr "encoding") ;;
  axis <-- get_prop encoding (KStr c) ;;
  if truthy axis
     && negb (strict_equal (get_prop_opt axis (KStr "type")) (VStr "nominal"))
  then assign_path [KStr "encoding"; KStr c; KStr "type"] (VStr "nominal") vgSpec
  else Ok vgSpec.

(** Boxplot. *)
Definition boxplotPostProcessor (vgSpec : value) (table : list object)
    : result value :=
  forceNominal "x" vgSpec.

(** Heat Map. *)
Definition heatMapPostProcessor (vgSpec : value) (table : list object)
    : result value :=
  vgSpec <-- forceNominal "y" vgSpec ;;
  forceNominal "x" vgSpec.

(** [Math.min(...xs)] ([+Infinity] of nothing, [NaN] as soon as one
    argument is). *)
Definition Math_min (xs : list number) : number :=
  fold_left (fun m x => if isNaN m || isNaN x then NaN
                        else if number_leb x m then x else m)
    xs (Infinity false).

Definition Math_max (xs : list number) : number :=
  fold_left (fun m x => if isNaN m || isNaN x then NaN
                        else if number_leb m x then x else m)
    xs (Infinity true).

(** The statements of the Pyramid Chart post-processor's [try] block, in
    order; each runs on the specification as the previous ones left it. *)
Definition pyramidFilter (colorField v : value) : value :=
  VArr [VObj [("filter",
               VStr ("datum[" ++ dquote ++ ToString colorField ++ dquote
                     ++ "] == " ++ dquote ++ ToString v ++ dquote))]].

Definition pyramidSteps (table : list object) (vgSpec : value)
    : list (value -> result value) :=
  let colorFieldOf (spec : value) :=
    get_path [KStr "hconcat"; KNum 0; KStr "encoding"; KStr "color";
              KStr "field"] spec in
  let colorValuesOf (colorField : value) :=
    Set_values (map (fun r => row_get r colorField) table) in
  let hc (i : nat) (k : string) := [KStr "hconcat"; KNum i; KStr k] in
  [ (fun spec =>
       colorField <-- colorFieldOf vgSpec ;;
       let colorValues := colorValuesOf colorField in
       assign_path (hc 0 "transform")
         (pyramidFilter colorField (nth 0 colorValues VUndefined)) spec);
    (fun spec =>
       colorField <-- colorFieldOf vgSpec ;;
       assign_path (hc 0 "title")
         (nth 0 (colorValuesOf colorField) VUndefined) spec);
    (fun spec =>
       colorField <-- colorFieldOf vgSpec ;;
       let colorValues := colorValuesOf colorField in
       assign_path (hc 1 "transform")
         (pyramidFilter colorField (nth 1 colorValues VUndefined)) spec);
    (fun spec =>
       colorField <-- colorFieldOf vgSpec ;;
       assign_path (hc 1 "title")
         (nth 1 (colorValuesOf colorField) VUndefined) spec);
    (fun spec =>
       colorField <-- colorFieldOf vgSpec ;;
       let colorValues := colorValuesOf colorField in
       xField <-- get_path [KStr "hconcat"; KNum 0; KStr "encoding";
                            KStr "x"; KStr "field"] spec ;;
       let xValues :=
         Set_values
           (map (fun r => row_get r xField)
              (filter (fun r =>
                         strict_equal (row_get r colorField)
                           (nth 0 colorValues VUndefined)
                         || strict_equal (row_get r colorField)
                              (nth 1 colorValues VUndefined)) table)) in
       let domain :=
         VArr [VNum (Math_min (map ToNumber xValues ++ [Finite 0%Q]));
               VNum (Math_max (map ToNumber xValues))] in
       spec <-- at_path [KStr "hconcat"; KNum 0; KStr "encoding"; KStr "x";
                         KStr "scale"]
                  (fun scale => set_prop scale (KStr "domain") domain) spec ;;
       assign_path [KStr "hconcat"; KNum 1; KStr "encoding"; KStr "x";
                    KStr "scale"]
         (VObj [("domain", domain)]) spec) ].

(** [try { steps } catch { console.warn(...) }]: the first step that
    throws ends the block, what the earlier ones did stays. *)
Fixpoint tryAll (steps : list (value -> result value)) (spec : value)
    : value :=
  match steps with
  | [] => spec
  | step :: rest =>
      match step spec with
      | Ok spec' => tryAll rest spec'
      | Throw _ => spec
      end
  end.

(** Pyramid Chart. *)
Definition pyramidPostProcessor (vgSpec : value) (table : list object)
    : result value :=
  Ok (tryAll (pyramidSteps table vgSpec) vgSpec).
End PostProcessors.

Section Catalogue.
Context {host : JSHost}.

Definition E (k : string) : key := KStr k.

Definition tablePlots : list ChartTemplate.t :=
  [ ChartTemplate.mk "Auto" "InsightsIcon" (VObj []) [] [] None;
    ChartTemplate.mk "Table" "/assets/chart-icon-table.png" (VObj []) [] []
      None ].

Definition scatterPlots : list ChartTemplate.t :=
  [ ChartTemplate.mk "Scatter Plot" "/assets/chart-icon-scatter.png"
      (markTemplate (VStr "circle"))
      ["x"; "y"; "color"; "size"; "column"; "row"]
      [ ("x", OnePath [E "encoding"; E "x"]);
        ("y", OnePath [E "encoding"; E "y"]);
        ("color", OnePath [E "encoding"; E "color"]);
        ("size", OnePath [E "encoding"; E "size"]);
        ("column", OnePath [E "encoding"; E "column"]);
        ("row", OnePath [E "encoding"; E "row"]) ]
      None;
    ChartTemplate.mk "Linear Regression"
      "/assets/chart-icon-linear-regression.png"
      (VObj [("layer", VArr [
         VObj [("mark", VStr "circle");
               ("encoding", VObj [("x", VObj []); ("y", VObj []);
                                  ("color", VObj []); ("size", VObj [])])];
         VObj [("mark", VObj [("type", VStr "line"); ("color", VStr "red")]);
               ("transform", VArr [
                  VObj [("regression", VStr "field1");
                        ("on", VStr "field2");
                        ("group", VStr "field3")]]);
               ("encoding", VObj [("x", VObj []); ("y", VObj [])])]])])
      ["x"; "y"; "size"; "color"; "column"]
      [ ("x", ManyPaths [
           [E "layer"; KNum 0; E "encoding"; E "x"];
           [E "layer"; KNum 1; E "encoding"; E "x"];
           [E "layer"; KNum 1; E "transform"; KNum 0; E "on"]]);
        ("y", ManyPaths [
           [E "layer"; KNum 0; E "encoding"; E "y"];
           [E "layer"; KNum 1; E "encoding"; E "y"];
           [E "layer"; KNum 1; E "transform"; KNum 0; E "regression"]]);
        ("color", OnePath [E "layer"; KNum 0; E "encoding"; E "color"]);
        ("size", OnePath [E "layer"; KNum 0; E "encoding"; E "size"]) ]
      None;
    ChartTemplate.mk "Ranged Dot Plot"
      "/assets/chart-icon-dot-plot-horizontal.png"
      (VObj [("encoding", VObj []);
             ("layer", VArr [
                VObj [("mark", VStr "line");
                      ("encoding", VObj [("detail", VObj [])])];
                VObj [("mark", VObj [("type", VStr "point");
                                     ("filled", VBool true)]);
                      ("encoding", VObj [("color", VObj [])])]])])
      ["x"; "y"; "color"]
      [ ("x", OnePath [E "encoding"; E "x"]);
        ("y", OnePath [E "encoding"; E "y"]);
        ("color", OnePath [E "layer"; KNum 1; E "encoding"; E "color"]) ]
      (Some rangedDotPlotPostProcessor);
    ChartTemplate.mk "Boxplot" "/assets/chart-icon-box-plot.png"
      (markTemplate (VStr "boxplot"))
      ["x"; "y"; "color"; "opacity"; "column"; "row"]
      (encodingPaths ["x"; "y"; "color"; "opacity"; "column"; "row"])
      (Some boxplotPostProcessor) ].

Definition pyramidTemplate : value :=
  VObj [("spacing", num 0);
        ("resolve", VObj [("scale", VObj [("y", VStr "shared")])]);
        ("hconcat", VArr [
           VObj [("mark", VStr "bar");
                 ("encoding", VObj [
                    ("y", VObj []);
                    ("x", VObj [("scale", VObj [("reverse", VBool true)]);
                                ("stack", VNull)]);
                    ("color", VObj [("legend", VNull)]);
                    ("opacity", VObj [("value", VNum (Finite (9 # 10)))])])];
           VObj [("mark", VStr "bar");
                 ("encoding", VObj [
                    ("y", VObj [("axis", VNull)]);
                    ("x", VObj [("stack", VNull)]);
                    ("color", VObj [("legend", VNull)]);
                    ("opacity", VObj [("value", VNum (Finite (9 # 10)))])])]]);
        ("config", VObj [("view", VObj [("stroke", VNull)]);
                         ("axis", VObj [("grid", VBool false)])])].

Definition barCharts : list ChartTemplate.t :=
  [ ChartTemplate.mk "Bar Chart" "/assets/chart-icon-column.png"
      (markTemplate (VStr "bar"))
      ["x"; "y"; "color"; "column"; "row"]
      [ ("x", OnePath [E "encoding"; E "x"]);
        ("y", OnePath [E "encoding"; E "y"]);
        ("color", OnePath [E "encoding"; E "color"]);
        ("column", OnePath [E "encoding"; E "column"]);
        ("row", OnePath [E "encoding"; E "row"]) ]
      None;
    ChartTemplate.mk "Pyramid Chart" "/assets/chart-icon-column.png"
      pyramidTemplate
      ["x"; "y"; "color"]
      [ ("x", ManyPaths [[E "hconcat"; KNum 0; E "encoding"; E "x"];
                         [E "hconcat"; KNum 1; E "encoding"; E "x"]]);
        ("y", ManyPaths [[E "hconcat"; KNum 0; E "encoding"; E "y"];
                         [E "hconcat"; KNum 1; E "encoding"; E "y"]]);
        ("color", ManyPaths [[E "hconcat"; KNum 0; E "encoding"; E "color"];
                             [E "hconcat"; KNum 1; E "encoding"; E "color"]]) ]
      (Some pyramidPostProcessor);
    ChartTemplate.mk "Grouped Bar Chart"
      "/assets/chart-icon-column-grouped.png"
      (markTemplate (VStr "bar"))
      ["x"; "y"; "group"]
      [ ("x", OnePath [E "encoding"; E "x"]);
        ("y", OnePath [E "encoding"; E "y"]);
        ("group", ManyPaths [[E "encoding"; E "xOffset"];
                             [E "encoding"; E "color"]]) ]
      None;
    ChartTemplate.mk "Stacked Bar Chart"
      "/assets/chart-icon-column-stacked.png"
      (markTemplate (VStr "bar"))
      ["x"; "y"; "color"; "column"; "row"]
      [ ("x", OnePath [E "encoding"; E "x"]);
        ("y", OnePath [E "encoding"; E "y"]);
        ("color", OnePath [E "encoding"; E "color"]);
        ("column", OnePath [E "encoding"; E "column"]);
        ("row", OnePath [E "encoding"; E "row"]) ]
      None;
    ChartTemplate.mk "Histogram" "/assets/chart-icon-histogram.png"
      (markTemplate (VStr "bar"))
      ["x"; "y"; "color"; "column"; "row"]
      [ ("x", OnePath [E "encoding"; E "x"]);
        ("y", OnePath [E "encoding"; E "y"]);
        ("color", OnePath [E "encoding"; E "color"]);
        ("column", OnePath [E "encoding"; E "column"]);
        ("row", OnePath [E "encoding"; E "row"]) ]
      None ].

Definition lineCharts : list ChartTemplate.t :=
  [ ChartTemplate.mk "Line Chart" "/assets/chart-icon-line.png"
      (markTemplate (VStr "line"))
      ["x"; "y"; "color"; "column"; "row"]
      [ ("x", OnePath [E "encoding"; E "x"]);
        ("y", OnePath [E "encoding"; E "y"]);
        ("color", OnePath [E "encoding"; E "color"]);
        ("column", OnePath [E "encoding"; E "column"]);
        ("row", OnePath [E "encoding"; E "row"]) ]
      None;
    ChartTemplate.mk "Dotted Line Chart" "/assets/chart-icon-dotted-line.png"
      (markTemplate (VObj [("type", VStr "line"); ("point", VBool true)]))
      ["x"; "y"; "color"; "column"; "row"]
      [ ("x", OnePath [E "encoding"; E "x"]);
        ("y", OnePath [E "encoding"; E "y"]);
        ("color", OnePath [E "encoding"; E "color"]);
        ("column", OnePath [E "encoding"; E "column"]);
        ("row", OnePath [E "encoding"; E "row"]) ]
      None ].

Definition customCharts : list ChartTemplate.t :=
  [ ChartTemplate.mk "Custom Point" "/assets/chart-icon-custom-point.png"
      (markTemplate (VStr "circle"))
      ["x"; "y"; "color"; "opacity"; "size"; "shape"; "column"; "row"]
      (encodingPaths
         ["x"; "y"; "color"; "opacity"; "size"; "shape"; "column"; "row"])
      None;
    ChartTemplate.mk "Custom Line" "/assets/chart-icon-custom-line.png"
      (markTemplate (VStr "line"))
      ["x"; "y"; "color"; "opacity"; "detail"; "column"; "row"]
      (encodingPaths ["x"; "y"; "color"; "opacity"; "column"; "row"]
       ++ [("detail", OnePath [E "encoding"; E "detail"])])
      None;
    ChartTemplate.mk "Custom Bar" "/assets/chart-icon-custom-bar.png"
      (markTemplate (VStr "bar"))
      ["x"; "y"; "color"; "opacity"; "size"; "shape"; "column"; "row"]
      (encodingPaths
         ["x"; "y"; "color"; "opacity"; "size"; "shape"; "column"; "row"])
      None;
    ChartTemplate.mk "Custom Rect" "/assets/chart-icon-custom-rect.png"
      (markTemplate (VStr "rect"))
      ["x"; "y"; "x2"; "y2"; "color"; "opacity"; "column"; "row"]
      (encodingPaths
         ["x"; "y"; "x2"; "y2"; "color"; "opacity"; "column"; "row"])
      None;
    ChartTemplate.mk "Custom Area" "/assets/chart-icon-custom-area.png"
      (markTemplate (VStr "area"))
      ["x"; "y"; "x2"; "y2"; "color"; "column"; "row"]
      (encodingPaths ["x"; "y"; "x2"; "y2"; "color"; "column"; "row"])
      None ].

Definition tableCharts : list ChartTemplate.t :=
  [ ChartTemplate.mk "Heat Map" "/assets/chart-icon-heat-map.png"
      (markTemplate (VStr "rect"))
      ["x"; "y"; "color"; "column"; "row"]
      (encodingPaths ["x"; "y"; "color"; "column"; "row"])
      (Some heatMapPostProcessor) ].

(** [CHART_TEMPLATES], keyed by category. *)
Definition CHART_TEMPLATES : list (string * list ChartTemplate.t) :=
  [ ("table", tablePlots);
    ("scatter", scatterPlots);
    ("bar", barCharts);
    ("line", lineCharts);
    ("table-based", tableCharts);
    ("custom", customCharts) ].

(** [Object.values(CHART_TEMPLATES).flat()] *)
Definition allTemplates : list ChartTemplate.t :=
  List.concat (map snd CHART_TEMPLATES).

(** The first position at which [test] holds, with the element there. *)
Fixpoint findFrom {A : Type} (test : A -> bool) (i : nat) (xs : list A)
    : option (nat * A) :=
  match xs with
  | [] => None
  | x :: rest => if test x then Some (i, x) else findFrom test (S i) rest
  end.

(** [getChartTemplate]: the template found, with its position in the
    catalogue (which identifies its skeleton object). *)
Definition getChartTemplate (chartType : string)
    : option (nat * ChartTemplate.t) :=
  findFrom (fun t => ChartTemplate.chart t =? chartType) 0 allTemplates.

Definition getChartChannels (chartType : string) : list string :=
  match getChartTemplate chartType with
  | Some (_, t) => ChartTemplate.channels t
  | None => []
  end.
End Catalogue.

(* ================================================================== *)
(** * 8. Resolving one channel (the body of the loop of assembleVegaChart) *)
(* ================================================================== *)

Definition option_eqb (o : option string) (s : string) : bool :=
  match o with
  | Some x => x =? s
  | None => false
  end.

Definition isCount (a : option AggrOp) : bool :=
  match a with Some Aggr_count => true | _ => false end.

(** [o[k][sub] = v] for an [o[k]] that is an object. *)
Definition obj_set_in (o : object) (k sub : string) (v : value) : object :=
  match obj_get o k with
  | VObj inner => obj_set o k (VObj (obj_set inner sub v))
  | _ => o
  end.

(** [arr.reverse()]: only arrays have the method. *)
Definition Array_reverse (v : value) : result value :=
  match v with
  | VArr items => Ok (VArr (rev items))
  | _ => Throw TypeError
  end.

Section Resolver.
Context {host : JSHost}.

(** [workingTable.map(r => r[name])] *)
Definition columnValues (workingTable : list object) (name : string)
    : list value :=
  map (fun r => obj_get r name) workingTable.

(** [let encodingObj = {}; if (channel === 'radius') ...] *)
Definition initialEncodingObj (channel : string) : object :=
  if channel =? "radius"
  then [("scale", VObj [("type", VStr "sqrt"); ("zero", VBool true)])]
  else [].

(** [encoding.fieldID ? conceptShelfItems.find(f => f.id === encoding.fieldID)
                      : undefined] *)
Definition findField (encoding : EncodingItem)
    (conceptShelfItems : list FieldItem.t) : option FieldItem.t :=
  match fieldID encoding with
  | Some fid =>
      if negb (fid =? "")
      then find (fun f => FieldItem.id f =? fid) conceptShelfItems
      else None
  | None => None
  end.

(** "Handle count aggregation for preprocessed data" *)
Definition countWithoutField (encoding : EncodingItem)
    (aggrPreprocessed : bool) (field : option FieldItem.t)
    (encodingObj : object) : object :=
  if negb (isSome field) && isCount (aggregate encoding) && aggrPreprocessed
  then
    let encodingObj := obj_set encodingObj "field" (VStr "_count") in
    let encodingObj := obj_set encodingObj "title" (VStr "Count") in
    obj_set encodingObj "type" (VStr "quantitative")
  else encodingObj.

(** "Create the encoding" and "Handle special semantic types" *)
Definition fieldAndType (channel : string) (workingTable : list object)
    (field : FieldItem.t) (encodingObj : object) : object :=
  let encodingObj :=
    obj_set encodingObj "field" (VStr (FieldItem.name field)) in
  let encodingObj :=
    obj_set encodingObj "type"
      (VStr (getDType (FieldItem.type field)
               (columnValues workingTable (FieldItem.name field)))) in
  if option_eqb (FieldItem.semanticType field) "Year" then
    if str_includes ["color"; "size"; "column"; "row"] channel
    then obj_set encodingObj "type" (VStr "nominal")
    else obj_set encodingObj "type" (VStr "temporal")
  else encodingObj.

(** "Handle aggregations" *)
Definition handleAggregation (encoding : EncodingItem)
    (aggrPreprocessed : bool) (field : FieldItem.t) (encodingObj : object)
    : object :=
  match aggregate encoding with
  | None => encodingObj
  | Some aggr =>
      if aggrPreprocessed then
        if isCount (Some aggr) then
          let encodingObj := obj_set encodingObj "field" (VStr "_count") in
          let encodingObj := obj_set encodingObj "title" (VStr "Count") in
          obj_set encodingObj "type" (VStr "quantitative")
        else
          let encodingObj :=
            obj_set encodingObj "field"
              (VStr (FieldItem.name field ++ "_" ++ AggrOp_toString aggr)) in
          obj_set encodingObj "type" (VStr "quantitative")
      else
        let encodingObj :=
          obj_set encodingObj "aggregate" (VStr (AggrOp_toString aggr)) in
        if isCount (Some aggr)
        then obj_set encodingObj "title" (VStr "Count")
        else encodingObj
  end.

(** "Special handling for line charts" *)
Definition lineChartScale (chartType channel : string) (encodingObj : object)
    : object :=
  if strict_equal (obj_get encodingObj "type") (VStr "quantitative")
     && String_includes chartType "Line" && (channel =? "x")
  then obj_set encodingObj "scale" (VObj [("nice", VBool false)])
  else encodingObj.

(** "Handle color encoding for nominal fields" *)
Definition colorDomain (channel : string) (workingTable : list object)
    (field : FieldItem.t) (encodingObj : object) : object :=
  if strict_equal (obj_get encodingObj "type") (VStr "nominal")
     && (channel =? "color")
  then
    let actualDomain :=
      Set_values (columnValues workingTable (FieldItem.name field)) in
    let subset :=
      forallb (fun v => includes (FieldItem.domain field) v) actualDomain
      && (List.length actualDomain <? List.length (FieldItem.domain field))%nat in
    (* [actualDomain.sort()] sorts the array itself: it stays sorted below,
       where only its length is read *)
    let encodingObj :=
      if subset then
        let scaleValues := Array_sort (Set_values (FieldItem.domain field)) in
        let legendValues := Array_sort actualDomain in
        let encodingObj :=
          obj_set encodingObj "scale" (VObj [("domain", VArr scaleValues)]) in
        obj_set encodingObj "legend" (VObj [("values", VArr legendValues)])
      else encodingObj in
    let encodingObj :=
      if (16 <=? List.length actualDomain)%nat then
        let encodingObj :=
          if negb (truthy (obj_get encodingObj "legend"))
          then obj_set encodingObj "legend" (VObj [])
          else encodingObj in
        let encodingObj :=
          obj_set_in encodingObj "legend" "symbolSize" (num 12) in
        obj_set_in encodingObj "legend" "labelFontSize" (num 8)
      else encodingObj in
    if (16 <=? List.length (Set_values (FieldItem.domain field)))%nat then
      let encodingObj :=
        if negb (truthy (obj_get encodingObj "scale"))
        then obj_set encodingObj "scale" (VObj [])
        else encodingObj in
      obj_set_in encodingObj "scale" "scheme" (VStr "tableau20")
    else encodingObj
  else encodingObj.

(** [if (field) { ... }] *)
Definition withField (chartType channel : string) (encoding : EncodingItem)
    (aggrPreprocessed : bool) (workingTable : list object)
    (field : FieldItem.t) (encodingObj : object) : object :=
  let encodingObj := fieldAndType channel workingTable field encodingObj in
  let encodingObj :=
    handleAggregation encoding aggrPreprocessed field encodingObj in
  let encodingObj := lineChartScale chartType channel encodingObj in
  colorDomain channel workingTable field encodingObj.

(** "Special handling for stacked charts" *)
Definition stackedOrder (field : option FieldItem.t) (vgObj : value)
    : result value :=
  mark <-- get_prop vgObj (KStr "mark") ;;
  if strict_equal mark (VStr "bar") || strict_equal mark (VStr "area") then
    current <-- get_prop vgObj (KStr "encoding") ;;
    let encoding := if truthy current then current else VObj [] in
    let fieldName :=
      match field with
      | Some f => FieldItem.name f
      | None => "undefined"
      end in
    encoding <-- set_prop encoding (KStr "order")
                   (VObj [("field",
                           VStr ("color_" ++ fieldName ++ "_sort_index"))]) ;;
    set_prop vgObj (KStr "encoding") encoding
  else Ok vgObj.

(** The [try { ... } catch { console.warn(...) }] of the sort block: an
    exception leaves what was done before it. *)
Definition sortByValues (channel : string) (sortOrder : SortOrder)
    (sortBy : string) (field : option FieldItem.t)
    (encodingObj : object) (vgObj : value) : object * value :=
  match JSON_parse sortBy with
  | None => (encodingObj, vgObj)
  | Some parsed =>
      match get_prop parsed (KStr "values") with
      | Throw _ => (encodingObj, vgObj)
      | Ok sortedValues =>
          match match sortOrder with
                | ascending => Ok sortedValues
                | descending => Array_reverse sortedValues
                end with
          | Throw _ => (encodingObj, vgObj)
          | Ok sorted =>
              let encodingObj := obj_set encodingObj "sort" sorted in
              if channel =? "color" then
                match stackedOrder field vgObj with
                | Ok vgObj' => (encodingObj, vgObj')
                | Throw _ => (encodingObj, vgObj)
                end
              else (encodingObj, vgObj)
          end
      end
  end.

(** "Handle sorting" *)
Definition handleSorting (channel : string) (encoding : EncodingItem)
    (field : option FieldItem.t) (encodingObj : object) (vgObj : value)
    : object * value :=
  if nonempty (sortBy encoding) || isSome (sortOrder encoding) then
    let order :=
      match sortOrder encoding with
      | Some o => o
      | None => ascending
      end in
    match sortBy encoding with
    | None =>
        (obj_set encodingObj "sort" (VStr (SortOrder_toString order)), vgObj)
    | Some by_ =>
        if (by_ =? "") || (by_ =? "default") then
          (obj_set encodingObj "sort" (VStr (SortOrder_toString order)),
           vgObj)
        else if (by_ =? "x") || (by_ =? "y") then
          (obj_set encodingObj "sort"
             (VStr ((match order with
                     | ascending => ""
                     | descending => "-"
                     end) ++ by_)), vgObj)
        else sortByValues channel order by_ field encodingObj vgObj
    end
  else (encodingObj, vgObj).

(** "Handle stacking" *)
Definition handleStacking (encoding : EncodingItem) (encodingObj : object)
    : object :=
  match stack encoding with
  | None => encodingObj
  | Some Stack_layered => obj_set encodingObj "stack" VNull
  | Some s => obj_set encodingObj "stack" (VStr (StackMode_toString s))
  end.

(** "Handle color schemes" *)
Definition handleScheme (encoding : EncodingItem) (encodingObj : object)
    : object :=
  match scheme encoding with
  | None => encodingObj
  | Some s =>
      if s =? "" then encodingObj
      else if obj_has encodingObj "scale"
      then obj_set_in encodingObj "scale" "scheme" (VStr s)
      else obj_set encodingObj "scale" (VObj [("scheme", VStr s)])
  end.

(** The paths an entry of [paths] stands for. *)
Definition pathsOf (po : pathObj) : list path :=
  match po with
  | OnePath p => [p]
  | ManyPaths [] => [[]]
  | ManyPaths ps => ps
  end.

(** What "Fill the template with encoding objects" puts where it finds
    [current]: the field name over a string placeholder, otherwise the
    entries already there followed by those of [encodingObj]. *)
Definition fillValue (encodingObj : object) (current : value) : value :=
  if is_string current then obj_get encodingObj "field"
  else
    let prebuiltEntries :=
      if truthy current then Object_entries current else [] in
    VObj (Object_fromEntries (prebuiltEntries ++ encodingObj)).

(** "Fill the template with encoding objects", for one path. *)
Definition fillPath (encodingObj : object) (p : path) (vgObj : value)
    : result value :=
  at_path (removelast p)
    (leaf_update (last p (KStr "undefined")) (fillValue encodingObj)) vgObj.

Fixpoint fillPaths (encodingObj : object) (ps : list path) (vgObj : value)
    : result value :=
  match ps with
  | [] => Ok vgObj
  | p :: rest =>
      vgObj <-- fillPath encodingObj p vgObj ;;
      fillPaths encodingObj rest vgObj
  end.

(** [paths[channel]], among the own properties of [paths].  A channel that
    is the name of a member inherited from [Object.prototype] and not a
    key of [paths] is not told apart from one that names nothing (see
    [ownChannelsOnly]). *)
Fixpoint lookupPaths (paths : list (string * pathObj)) (channel : string)
    : option pathObj :=
  match paths with
  | [] => None
  | (c, po) :: rest => if c =? channel then Some po else lookupPaths rest channel
  end.

(** The encoding object of a channel, as it stands before the sort
    block. *)
Definition resolveField (chartType : string) (aggrPreprocessed : bool)
    (conceptShelfItems : list FieldItem.t) (workingTable : list object)
    (channel : string) (encoding : EncodingItem) : object :=
  let encodingObj := initialEncodingObj channel in
  let field := findField encoding conceptShelfItems in
  let encodingObj :=
    countWithoutField encoding aggrPreprocessed field encodingObj in
  match field with
  | Some f =>
      withField chartType channel encoding aggrPreprocessed workingTable f
        encodingObj
  | None => encodingObj
  end.

(** The encoding object of a channel when the loop body reaches "Apply
    encoding to chart template paths", with the specification as the
    sort block left it. *)
Definition resolveEncoding (chartType : string) (aggrPreprocessed : bool)
    (conceptShelfItems : list FieldItem.t) (workingTable : list object)
    (channel : string) (encoding : EncodingItem) (vgObj : value)
    : object * value :=
  let field := findField encoding conceptShelfItems in
  let encodingObj :=
    resolveField chartType aggrPreprocessed conceptShelfItems workingTable
      channel encoding in
  let (encodingObj, vgObj) :=
    handleSorting channel encoding field encodingObj vgObj in
  let encodingObj := handleStacking encoding encodingObj in
  (handleScheme encoding encodingObj, vgObj).

(** One turn of [for (const [channel, encoding] of Object.entries(encodingMap))]. *)
Definition encodeChannel (chartTemplate : ChartTemplate.t)
    (chartType : string) (aggrPreprocessed : bool)
    (conceptShelfItems : list FieldItem.t) (workingTable : list object)
    (channel : string) (encoding : EncodingItem) (vgObj : value)
    : result value :=
  let (encodingObj, vgObj) :=
    resolveEncoding chartType aggrPreprocessed conceptShelfItems workingTable
      channel encoding vgObj in
  match lookupPaths (ChartTemplate.paths chartTemplate) channel with
  | Some pathObj =>
      if negb (List.length encodingObj =? 0)%nat
      then fillPaths encodingObj (pathsOf pathObj) vgObj
      else Ok vgObj
  | None => Ok vgObj
  end.

(** "Handle faceting" *)
Definition handleFaceting (vgObj : value) : result value :=
  encoding <-- get_prop vgObj (KStr "encoding") ;;
  let column := get_prop_opt encoding (KStr "column") in
  let row := get_prop_opt encoding (KStr "row") in
  if truthy column && negb (truthy row) then
    (* facet and column are one object until column is deleted *)
    facet <-- set_prop column (KStr "columns") (num 6) ;;
    encoding <-- set_prop encoding (KStr "facet") facet ;;
    set_prop vgObj (KStr "encoding") (delete_prop encoding "column")
  else Ok vgObj.

(** "Prepare data values", for one row of the cloned table. *)
Definition isTemporalKey (conceptShelfItems : list FieldItem.t) (k : string)
    : bool :=
  existsb (fun concept =>
             (FieldItem.name concept =? k)
             && (match FieldItem.type concept with
                 | DT_date => true
                 | _ => false
                 end
                 || option_eqb (FieldItem.semanticType concept) "Year"))
    conceptShelfItems.

Definition stringifyTemporal (conceptShelfItems : list FieldItem.t)
    (r : object) : object :=
  let keys := map fst r in
  let temporalKeys := filter (isTemporalKey conceptShelfItems) keys in
  fold_left
    (fun r temporalKey =>
       obj_set r temporalKey (VStr (ToString (obj_get r temporalKey))))
    temporalKeys r.

(** [values.map(r => { ...; return r })] on the cloned rows. *)
Definition prepareValues (conceptShelfItems : list FieldItem.t)
    (values : list object) : list object :=
  map (stringifyTemporal conceptShelfItems) values.
End Resolver.

(* ================================================================== *)
(** * 9. Shared objects and assembleVegaChart *)
(* ================================================================== *)

(** The objects that outlive a call, or that a call creates, live in a
    heap; a variable holds a location.  A cell holds a whole tree of plain
    data: the skeleton object of a catalogue entry, an assembled
    specification, the array [conceptShelfItems], an array of rows. *)
Definition loc : Type := nat.

Inductive cell : Type :=
| ObjCell (v : value)
| FieldsCell (fs : list FieldItem.t)
| RowsCell (rs : list object).

Definition heap : Type := list cell.

Inductive outcome (A : Type) : Type :=
| Returned (a : A) (h : heap)
| Thrown (e : exn) (h : heap).
Arguments Returned {A} a h.
Arguments Thrown {A} e h.

(** A computation that reads and writes the heap and may throw. *)
Definition M (A : Type) : Type := heap -> outcome A.

Definition ret {A : Type} (a : A) : M A := fun h => Returned a h.

Definition bind {A B : Type} (c : M A) (k : A -> M B) : M B :=
  fun h =>
    match c h with
    | Returned a h' => k a h'
    | Thrown e h' => Thrown e h'
    end.

Definition throw {A : Type} (e : exn) : M A := fun h => Thrown e h.

Notation "x <- c ;; k" := (bind c (fun x => k))
  (at level 61, c at next level, right associativity).

(** A new object. *)
Definition alloc (c : cell) : M loc :=
  fun h => Returned (List.length h) (h ++ [c]).

(** Reading through a reference.  A reference always denotes a live object
    of its static type; the defaults below stand for the impossible cases. *)
Definition readObj (l : loc) : M value :=
  fun h => Returned (match nth_error h l with
                     | Some (ObjCell v) => v
                     | _ => VUndefined
                     end) h.

Definition readFields (l : loc) : M (list FieldItem.t) :=
  fun h => Returned (match nth_error h l with
                     | Some (FieldsCell fs) => fs
                     | _ => []
                     end) h.

Definition readRows (l : loc) : M (list object) :=
  fun h => Returned (match nth_error h l with
                     | Some (RowsCell rs) => rs
                     | _ => []
                     end) h.

(** [h] with cell [l] replaced. *)
Fixpoint heap_set (h : heap) (l : loc) (c : cell) : heap :=
  match h, l with
  | [], _ => []
  | _ :: rest, O => c :: rest
  | c0 :: rest, S l' => c0 :: heap_set rest l' c
  end.

(** Statements that mutate the object at [l] in place.  When they throw,
    the object is left as it was (the callers below only ever abandon it
    then). *)
Definition update (l : loc) (f : value -> result value) : M unit :=
  fun h =>
    match nth_error h l with
    | Some (ObjCell v) =>
        match f v with
        | Ok v' => Returned tt (heap_set h l (ObjCell v'))
        | Throw e => Thrown e h
        end
    | _ => Returned tt h
    end.

Definition updateRows (l : loc) (f : list object -> list object) : M unit :=
  fun h =>
    match nth_error h l with
    | Some (RowsCell rs) => Returned tt (heap_set h l (RowsCell (f rs)))
    | _ => Returned tt h
    end.

Fixpoint forEach {A : Type} (xs : list A) (body : A -> M unit) : M unit :=
  match xs with
  | [] => ret tt
  | x :: rest => _ <- body x ;; forEach rest body
  end.

Section Assembler.
Context {host : JSHost}.

(** The skeleton object [template] of the [i]-th catalogue entry is the
    [i]-th object of the heap. *)
Definition templateLoc (i : nat) : loc := i.

(** The heap a freshly loaded module starts from. *)
Definition catalogueHeap : heap :=
  map (fun t => ObjCell (ChartTemplate.template t)) allTemplates.

(** The body of [for (const [channel, encoding] of
    Object.entries(encodingMap))], on the draft [vgObj]. *)
Definition loopBody (chartTemplate : ChartTemplate.t) (chartType : string)
    (aggrPreprocessed : bool) (conceptShelfItems workingTable vgObj : loc)
    (entry : string * EncodingItem) : M unit :=
  fields <- readFields conceptShelfItems ;;
  rows <- readRows workingTable ;;
  update vgObj
    (encodeChannel chartTemplate chartType aggrPreprocessed fields rows
       (fst entry) (snd entry)).

(** chartUtils.ts, [assembleVegaChart].  [conceptShelfItems] and
    [workingTable] are references to the caller's arrays; the result is
    [[chartType, vgObj]] with [vgObj] a reference, or [['Table',
    undefined]].  [console.warn] is not modelled, so that the loop over
    the nominal axes, which only warns, leaves no trace. *)
Definition assembleVegaChart (chartType : string) (encodingMap : EncodingMap)
    (conceptShelfItems : loc) (workingTable : loc)
    (maxNominalValues : nat) (aggrPreprocessed : bool)
    : M (string * option loc) :=
  if chartType =? "Table" then ret ("Table", None)
  else
    match getChartTemplate chartType with
    | None =>
        throw (Error ("Chart template not found for type: " ++ chartType))
    | Some (i, chartTemplate) =>
        skeleton <- readObj (templateLoc i) ;;
        vgObj <- alloc (ObjCell (structuredClone skeleton)) ;;
        _ <- forEach encodingMap
               (loopBody chartTemplate chartType aggrPreprocessed
                  conceptShelfItems workingTable vgObj) ;;
        _ <- update vgObj handleFaceting ;;
        _ <- match ChartTemplate.postProcessor chartTemplate with
             | Some postProcessor =>
                 rows <- readRows workingTable ;;
                 update vgObj (fun vgSpec => postProcessor vgSpec rows)
             | None => ret tt
             end ;;
        rows <- readRows workingTable ;;
        values <- alloc (RowsCell rows) ;;   (* structuredClone(workingTable) *)
        fields <- readFields conceptShelfItems ;;
        _ <- updateRows values (prepareValues fields) ;;
        values <- readRows values ;;
        _ <- update vgObj
               (fun v =>
                  set_prop v (KStr "data")
                    (VObj [("values", VArr (map VObj values))])) ;;
        ret (chartType, Some vgObj)
    end.

(** The specification a call returned, read off the final heap. *)
Definition specOf (o : outcome (string * option loc)) : option value :=
  match o with
  | Returned (_, Some l) h =>
      match nth_error h l with
      | Some (ObjCell v) => Some v
      | _ => None
      end
  | _ => None
  end.
End Assembler.

(* ================================================================== *)
(** * 10. A host for concrete runs *)
(* ================================================================== *)

(** Conversions that agree with ECMAScript on the integers and on the
    non-numeric words used in the examples below; nothing proved for an
    arbitrary host depends on them. *)
Definition sample_Number_toString (n : number) : string :=
  match n with
  | NaN => "NaN"
  | Infinity true => "-Infinity"
  | Infinity false => "Infinity"
  | Finite q => NilZero.string_of_int (Z.to_int (Qfloor q))
  end.

Definition sample_String_toNumber (s : string) : number :=
  match NilZero.int_of_string s with
  | Some i => Finite (inject_Z (Z.of_int i))
  | None => if s =? "" then Finite 0%Q else NaN
  end.

Definition sampleHost : JSHost := {|
  Number_toString := sample_Number_toString;
  String_toNumber := sample_String_toNumber;
  Date_parse := fun _ => NaN;
  JSON_parse := fun _ => None;
  Math_sin := fun z => (Z.modulo z 7 # 8)%Q
|}.

(* ================================================================== *)
(** * 11. Example data *)
(* ================================================================== *)

Definition noEncoding : EncodingItem :=
  {| fieldID := None; aggregate := None; stack := None; sortOrder := None;
     sortBy := None; scheme := None; bin := None |}.

Definition boundTo (fid : string) : EncodingItem :=
  {| fieldID := Some fid; aggregate := None; stack := None; sortOrder := None;
     sortBy := None; scheme := None; bin := None |}.

Definition countryField : FieldItem.t :=
  FieldItem.mk "f-country" "Country" DT_string FS_original
    [VStr "D"; VStr "B"; VStr "A"; VStr "C"] "t-root" None.

Definition regionField : FieldItem.t :=
  FieldItem.mk "f-region" "Region" DT_string FS_original
    [VStr "North"; VStr "South"] "t-root" None.

Definition populationField : FieldItem.t :=
  FieldItem.mk "f-population" "Population" DT_number FS_original [] "t-1" None.

Definition sampleRows : list object :=
  [ [("Country", VStr "C"); ("Region", VStr "North"); ("Population", num 10)];
    [("Country", VStr "A"); ("Region", VStr "South"); ("Population", num 5)];
    [("Country", VStr "C"); ("Region", VStr "South"); ("Population", num 7)] ].

(** A heap with the catalogue loaded, a field list and a table. *)
Definition sampleHeap : heap :=
  @catalogueHeap sampleHost
  ++ [FieldsCell [countryField; regionField; populationField];
      RowsCell sampleRows].

Definition sampleFields : loc := List.length (@catalogueHeap sampleHost).
Definition sampleTable : loc := S sampleFields.

Definition sampleTrigger (src res : string) : Trigger :=
  {| tableId := src; sourceTableIds := [src]; chart := None;
     instruction := "derive"; resultTableId := res |}.

Definition rootTable : DictTable.t :=
  DictTable.mk "t-root" "t-root" [] [] [] None true [].

Definition derivedTable (id src : string) : DictTable.t :=
  DictTable.mk id id [] [] []
    (Some {| derive_source := [src]; code := ""; codeExpl := "";
             trigger := sampleTrigger src id |})
    false [].

Definition chartOn (id tableRef : string) : Chart.t :=
  Chart.mk id "Bar Chart" [] tableRef false CS_user.

(** root -> t-1 -> t-2, a chart on each derived table. *)
Definition sampleState : DataFormulatorState :=
  {| tables := [rootTable; derivedTable "t-1" "t-root";
                derivedTable "t-2" "t-1"];
     charts := [chartOn "c-1" "t-1"; chartOn "c-2" "t-2"];
     conceptShelfItems := [countryField; regionField; populationField];
     focusedTableId := Some "t-1";
     focusedChartId := Some "c-1";
     chartSynthesisInProgress := [] |}.

(** The anchored root, a second, derived table that carries its id, and a
    chart on that id. *)
Definition clashingState : DataFormulatorState :=
  {| tables := [rootTable; derivedTable "t-root" "t-root"];
     charts := [chartOn "c-1" "t-root"];
     conceptShelfItems := [];
     focusedTableId := None;
     focusedChartId := None;
     chartSynthesisInProgress := [] |}.

(** Encodings without a field id that still carry a setting. *)
Definition sortedOnly : EncodingItem :=
  {| fieldID := None; aggregate := None; stack := None;
     sortOrder := Some descending; sortBy := None; scheme := None;
     bin := None |}.

Definition stackedOnly : EncodingItem :=
  {| fieldID := None; aggregate := None; stack := Some Stack_layered;
     sortOrder := None; sortBy := None; scheme := None; bin := None |}.

Definition schemeOnly : EncodingItem :=
  {| fieldID := None; aggregate := None; stack := None; sortOrder := None;
     sortBy := None; scheme := Some "blues"; bin := None |}.

(* ================================================================== *)
(** * 12. More reducers and selectors of the store slice *)
(* ================================================================== *)

(** [arr.findIndex(test)]; [None] stands for [-1]. *)
Fixpoint findIndex {A : Type} (test : A -> bool) (arr : list A) : option nat :=
  match arr with
  | [] => None
  | x :: rest =>
      if test x then Some 0%nat
      else match findIndex test rest with
           | Some i => Some (S i)
           | None => None
           end
  end.

(** [arr[index] = v] for an index inside the array. *)
Fixpoint set_at {A : Type} (arr : list A) (index : nat) (v : A) : list A :=
  match arr, index with
  | [], _ => []
  | _ :: rest, O => v :: rest
  | x :: rest, S i => x :: set_at rest i v
  end.

(** [const index = arr.findIndex(test); if (index !== -1) arr[index] = v],
    and whether the index was found. *)
Definition replaceFound {A : Type} (test : A -> bool) (v : A) (arr : list A)
    : bool * list A :=
  match findIndex test arr with
  | Some index => (true, set_at arr index v)
  | None => (false, arr)
  end.

Definition withTables (state : DataFormulatorState) (ts : list DictTable.t)
    : DataFormulatorState :=
  {| tables := ts;
     charts := charts state;
     conceptShelfItems := conceptShelfItems state;
     focusedTableId := focusedTableId state;
     focusedChartId := focusedChartId state;
     chartSynthesisInProgress := chartSynthesisInProgress state |}.

Definition withCharts (state : DataFormulatorState) (cs : list Chart.t)
    : DataFormulatorState :=
  {| tables := tables state;
     charts := cs;
     conceptShelfItems := conceptShelfItems state;
     focusedTableId := focusedTableId state;
     focusedChartId := focusedChartId state;
     chartSynthesisInProgress := chartSynthesisInProgress state |}.

Definition withConceptShelfItems (state : DataFormulatorState)
    (fs : list FieldItem.t) : DataFormulatorState :=
  {| tables := tables state;
     charts := charts state;
     conceptShelfItems := fs;
     focusedTableId := focusedTableId state;
     focusedChartId := focusedChartId state;
     chartSynthesisInProgress := chartSynthesisInProgress state |}.

Definition withFocus (state : DataFormulatorState)
    (tableId chartId : option string) : DataFormulatorState :=
  {| tables := tables state;
     charts := charts state;
     conceptShelfItems := conceptShelfItems state;
     focusedTableId := tableId;
     focusedChartId := chartId;
     chartSynthesisInProgress := chartSynthesisInProgress state |}.

(** Reducers [setFocusedTableId] and [setFocusedTable]. *)
Definition setFocusedTableId (state : DataFormulatorState)
    (payload : option string) : DataFormulatorState :=
  withFocus state payload (focusedChartId state).

Definition setFocusedTable (state : DataFormulatorState)
    (payload : option string) : DataFormulatorState :=
  withFocus state payload (focusedChartId state).

(** Reducer [setFocusedChartId]: the focused table follows when the payload
    is truthy and names a chart. *)
Definition setFocusedChartId (state : DataFormulatorState)
    (payload : option string) : DataFormulatorState :=
  let state1 := withFocus state (focusedTableId state) payload in
  match payload with
  | Some id =>
      if negb (id =? "") then
        match find (fun c => Chart.id c =? id) (charts state1) with
        | Some chart =>
            withFocus state1 (Some (Chart.tableRef chart))
              (focusedChartId state1)
        | None => state1
        end
      else state1
  | None => state1
  end.

(** Reducer [setFocusedChart]: its payload is a string, which it looks up
    as it is. *)
Definition setFocusedChart (state : DataFormulatorState) (payload : string)
    : DataFormulatorState :=
  let state1 := withFocus state (focusedTableId state) (Some payload) in
  match find (fun c => Chart.id c =? payload) (charts state1) with
  | Some chart =>
      withFocus state1 (Some (Chart.tableRef chart)) (focusedChartId state1)
  | None => state1
  end.

(** Reducers [loadTable] and [insertDerivedTables]: as [addTable], a push. *)
Definition loadTable (state : DataFormulatorState) (payload : DictTable.t)
    : DataFormulatorState :=
  withTables state (tables state ++ [payload]).

Definition insertDerivedTables (state : DataFormulatorState)
    (payload : DictTable.t) : DataFormulatorState :=
  withTables state (tables state ++ [payload]).

(** Reducer [updateTable]. *)
Definition updateTable (state : DataFormulatorState) (payload : DictTable.t)
    : DataFormulatorState :=
  withTables state
    (snd (replaceFound (fun t => DictTable.id t =? DictTable.id payload)
            payload (tables state))).

(** Reducer [overrideDerivedTables]. *)
Definition overrideDerivedTables (state : DataFormulatorState)
    (payload : DictTable.t) : DataFormulatorState :=
  let (found, ts) :=
    replaceFound (fun t => DictTable.id t =? DictTable.id payload) payload
      (tables state) in
  withTables state (if found then ts else ts ++ [payload]).

(** Reducer [addChart]. *)
Definition addChart (state : DataFormulatorState) (payload : Chart.t)
    : DataFormulatorState :=
  withCharts state (charts state ++ [payload]).

(** Reducer [updateChart]. *)
Definition updateChart (state : DataFormulatorState) (payload : Chart.t)
    : DataFormulatorState :=
  withCharts state
    (snd (replaceFound (fun c => Chart.id c =? Chart.id payload) payload
            (charts state))).

(** Reducer [addAndFocusChart]. *)
Definition addAndFocusChart (state : DataFormulatorState) (payload : Chart.t)
    : DataFormulatorState :=
  withFocus (withCharts state (charts state ++ [payload]))
    (Some (Chart.tableRef payload)) (Some (Chart.id payload)).

(** [chart.tableRef = tableRef] / [chart.chartType = chartType] on the chart
    [state.charts.find(c => c.id === chartId)] returns: the first one. *)
Fixpoint updateFirstChart (chartId : string) (f : Chart.t -> Chart.t)
    (cs : list Chart.t) : list Chart.t :=
  match cs with
  | [] => []
  | c :: rest =>
      if Chart.id c =? chartId then f c :: rest
      else c :: updateFirstChart chartId f rest
  end.

(** Reducer [updateTableRef], payload [{ chartId, tableRef }]. *)
Definition updateTableRef (state : DataFormulatorState)
    (chartId tableRef : string) : DataFormulatorState :=
  withCharts state
    (updateFirstChart chartId
       (fun c => Chart.mk (Chart.id c) (Chart.chartType c)
                   (Chart.encodingMap c) tableRef (Chart.saved c)
                   (Chart.source c))
       (charts state)).

(** Reducer [updateChartType], payload [{ chartId, chartType }]. *)
Definition updateChartType (state : DataFormulatorState)
    (chartId chartType : string) : DataFormulatorState :=
  withCharts state
    (updateFirstChart chartId
       (fun c => Chart.mk (Chart.id c) chartType (Chart.encodingMap c)
                   (Chart.tableRef c) (Chart.saved c) (Chart.source c))
       (charts state)).

(** Reducers [addConceptShelfItem], [addConceptItems] and
    [extendTableWithNewFields] (which does not use its [tableId]). *)
Definition addConceptShelfItem (state : DataFormulatorState)
    (payload : FieldItem.t) : DataFormulatorState :=
  withConceptShelfItems state (conceptShelfItems state ++ [payload]).

Definition addConceptItems (state : DataFormulatorState)
    (payload : list FieldItem.t) : DataFormulatorState :=
  withConceptShelfItems state (conceptShelfItems state ++ payload).

Definition extendTableWithNewFields (state : DataFormulatorState)
    (tableId : string) (fields : list FieldItem.t) : DataFormulatorState :=
  withConceptShelfItems state (conceptShelfItems state ++ fields).

(** Reducer [updateConceptShelfItem]. *)
Definition updateConceptShelfItem (state : DataFormulatorState)
    (payload : FieldItem.t) : DataFormulatorState :=
  withConceptShelfItems state
    (snd (replaceFound (fun item => FieldItem.id item =? FieldItem.id payload)
            payload (conceptShelfItems state))).

(** Reducers [deleteConceptShelfItem], [deleteConceptItemByID] and
    [removeDerivedField]: the same filter. *)
Definition deleteConceptShelfItem (state : DataFormulatorState)
    (payload : string) : DataFormulatorState :=
  withConceptShelfItems state
    (filter (fun item => negb (FieldItem.id item =? payload))
       (conceptShelfItems state)).

Definition deleteConceptItemByID (state : DataFormulatorState)
    (payload : string) : DataFormulatorState :=
  withConceptShelfItems state
    (filter (fun item => negb (FieldItem.id item =? payload))
       (conceptShelfItems state)).

Definition removeDerivedField (state : DataFormulatorState)
    (payload : string) : DataFormulatorState :=
  withConceptShelfItems state
    (filter (fun item => negb (FieldItem.id item =? payload))
       (conceptShelfItems state)).

(** One turn of the [forEach] of [updateConceptItems]. *)
Definition upsertConcept (items : list FieldItem.t) (newItem : FieldItem.t)
    : list FieldItem.t :=
  let (found, items') :=
    replaceFound (fun item => FieldItem.id item =? FieldItem.id newItem)
      newItem items in
  if found then items' else items' ++ [newItem].

(** Reducer [updateConceptItems]. *)
Definition updateConceptItems (state : DataFormulatorState)
    (payload : list FieldItem.t) : DataFormulatorState :=
  withConceptShelfItems state
    (fold_left upsertConcept payload (conceptShelfItems state)).

(** Reducer [changeChartRunningStatus], payload [{ chartId, status }]. *)
Definition changeChartRunningStatus (state : DataFormulatorState)
    (chartId : string) (status : bool) : DataFormulatorState :=
  {| tables := tables state;
     charts := charts state;
     conceptShelfItems := conceptShelfItems state;
     focusedTableId := focusedTableId state;
     focusedChartId := focusedChartId state;
     chartSynthesisInProgress :=
       if status then
         if negb (str_includes (chartSynthesisInProgress state) chartId)
         then chartSynthesisInProgress state ++ [chartId]
         else chartSynthesisInProgress state
       else filter (fun id => negb (id =? chartId))
              (chartSynthesisInProgress state) |}.

(** Reducer [clearUnReferencedTables]; [referencedTableIds] is the set of
    the charts' [tableRef]s. *)
Definition clearUnReferencedTables (state : DataFormulatorState)
    : DataFormulatorState :=
  let referencedTableIds := map Chart.tableRef (charts state) in
  withTables state
    (filter (fun t => str_includes referencedTableIds (DictTable.id t)
                      || DictTable.anchored t)
       (tables state)).

(** The field ids [clearUnReferencedCustomConcepts] collects:
    [if (enc.fieldID) referencedFields.add(enc.fieldID)] over the encodings
    of every chart. *)
Definition referencedFields (cs : list Chart.t) : list string :=
  flat_map
    (fun chart =>
       flat_map (fun enc => match fieldID (snd enc) with
                            | Some fid => if negb (fid =? "") then [fid] else []
                            | None => []
                            end)
         (Chart.encodingMap chart))
    cs.

Definition isCustom (s : FieldSource) : bool :=
  match s with FS_custom => true | _ => false end.

(** Reducer [clearUnReferencedCustomConcepts]. *)
Definition clearUnReferencedCustomConcepts (state : DataFormulatorState)
    : DataFormulatorState :=
  let referenced := referencedFields (charts state) in
  withConceptShelfItems state
    (filter (fun item => negb (isCustom (FieldItem.source item))
                         || str_includes referenced (FieldItem.id item))
       (conceptShelfItems state)).

(** Selectors [getFocusedChart] and [getFocusedTable]: nothing is focused
    when the id is [undefined]. *)
Definition getFocusedChart (state : DataFormulatorState) : option Chart.t :=
  match focusedChartId state with
  | Some id => find (fun c => Chart.id c =? id) (charts state)
  | None => None
  end.

Definition getFocusedTable (state : DataFormulatorState)
    : option DictTable.t :=
  match focusedTableId state with
  | Some id => find (fun t => DictTable.id t =? id) (tables state)
  | None => None
  end.

(* ================================================================== *)
(** * 13. More of chartUtils.ts: aggregation and validation *)
(* ================================================================== *)

(** [encodingMap[channel]] *)
Definition EncodingMap_get (encodingMap : EncodingMap) (channel : string)
    : option EncodingItem :=
  option_map snd (find (fun kv => fst kv =? channel) encodingMap).

(** [encodingMap[channel] = encoding]: a channel already there keeps its
    place. *)
Fixpoint EncodingMap_set (encodingMap : EncodingMap) (channel : string)
    (encoding : EncodingItem) : EncodingMap :=
  match encodingMap with
  | [] => [(channel, encoding)]
  | (c, e) :: rest =>
      if c =? channel then (c, encoding) :: rest
      else (c, e) :: EncodingMap_set rest channel encoding
  end.

(** One turn of the loop of [extractFieldsFromEncodingMap], on the two
    arrays it pushes to. *)
Definition extractStep (allFields : list FieldItem.t)
    (acc : list (option string * AggrOp) * list string)
    (entry : string * EncodingItem)
    : list (option string * AggrOp) * list string :=
  let (aggregateFields, groupByFields) := acc in
  let encoding := snd entry in
  let field := findField encoding allFields in
  match aggregate encoding with
  | Some aggr =>
      (aggregateFields ++ [(option_map FieldItem.name field, aggr)],
       groupByFields)
  | None =>
      match field with
      | Some f => (aggregateFields, groupByFields ++ [FieldItem.name f])
      | None => (aggregateFields, groupByFields)
      end
  end.

(** [extractFieldsFromEncodingMap]: [(aggregateFields, groupByFields)]. *)
Definition extractFieldsFromEncodingMap (encodingMap : EncodingMap)
    (allFields : list FieldItem.t)
    : list (option string * AggrOp) * list string :=
  fold_left (extractStep allFields) encodingMap ([], []).

(** The functions of d3-array that [prepVisTable] calls.  A row of
    [d3.flatGroup(data, ...keys)] is given as the key values and the
    group; the keys are always the accessors [d => d[field]], given here
    by their fields. *)
Class D3 : Type := {
  d3_flatGroup : list object -> list string -> list (list value * list object);
  d3_sum : list value -> value;
  d3_max : list value -> value;
  d3_min : list value -> value;
  d3_mean : list value -> value;
  d3_median : list value -> value;
  d3_mode : list value -> value
}.

(** [{ ...target, ...source }] *)
Definition spread (target source : object) : object :=
  fold_left (fun o kv => obj_set o (fst kv) (snd kv)) source target.

(** [arr.map((x, i) => f(x, i))] *)
Definition mapi {A B : Type} (f : A -> nat -> B) (arr : list A) : list B :=
  map (fun xi => f (fst xi) (snd xi))
    (combine arr (seq 0 (List.length arr))).

Section Aggregation.
Context {host : JSHost} {d3 : D3}.

(** The object literal of aggregation functions of [prepVisTable], indexed
    by the aggregation type. *)
Definition aggFunc (aggType : AggrOp) : option (list value -> value) :=
  match aggType with
  | Aggr_sum => Some d3_sum
  | Aggr_max => Some d3_max
  | Aggr_min => Some d3_min
  | Aggr_mean => Some d3_mean
  | Aggr_median => Some d3_median
  | Aggr_average => Some d3_mean
  | Aggr_count | Aggr_distinct => None
  end.

(** [aggType !== 'count' && fieldName] *)
Definition isOtherAggregate (af : option string * AggrOp) : bool :=
  negb (isCount (Some (snd af))) && nonempty (fst af).

(** The entry [[fieldName + suffix, aggFunc ? aggFunc(values) : undefined]]
    of one aggregated field. *)
Definition aggregateEntry (group : list object) (af : option string * AggrOp)
    : string * value :=
  let fieldName := match fst af with Some n => n | None => "undefined" end in
  let values := columnValues group fieldName in
  let suffix := ("_" ++ AggrOp_toString (snd af))%string in
  ((fieldName ++ suffix)%string,
   match aggFunc (snd af) with
   | Some f => f values
   | None => VUndefined
   end).

(** The row [prepVisTable] builds for one group. *)
Definition groupRow (aggregateFields : list (option string * AggrOp))
    (groupByFields : list string) (row : list value * list object) : object :=
  let groupValues := fst row in
  let group := snd row in
  spread
    (spread
       (spread []
          (Object_fromEntries
             (mapi (fun field i => (field, nth i groupValues VUndefined))
                groupByFields)))
       (if existsb (fun af => isCount (Some (snd af))) aggregateFields
        then [("_count", num (Z.of_nat (List.length group)))]
        else []))
    (Object_fromEntries
       (map (aggregateEntry group) (filter isOtherAggregate aggregateFields))).

(** [prepVisTable] *)
Definition prepVisTable (table : list object) (allFields : list FieldItem.t)
    (encodingMap : EncodingMap) : list object :=
  let (aggregateFields, groupByFields) :=
    extractFieldsFromEncodingMap encodingMap allFields in
  let processedTable := table in
  if (0 <? List.length aggregateFields)%nat then
    let grouped :=
      if (0 <? List.length groupByFields)%nat
      then d3_flatGroup processedTable groupByFields
      else [([VStr "_default"], processedTable)] in
    map (groupRow aggregateFields groupByFields) grouped
  else processedTable.

(** The loop of [validateChart] over the required channels. *)
Fixpoint requiredChannelsBound (encodingMap : EncodingMap)
    (fields : list FieldItem.t) (requiredChannels : list string) : bool :=
  match requiredChannels with
  | [] => true
  | channel :: rest =>
      match EncodingMap_get encodingMap channel with
      | Some encoding =>
          if nonempty (fieldID encoding) then
            match find (fun f => option_eqb (fieldID encoding) (FieldItem.id f))
                    fields with
            | Some _ => requiredChannelsBound encodingMap fields rest
            | None => false
            end
          else false
      | None => false
      end
  end.

(** [validateChart]; nothing in its [try] block throws on a chart with an
    encoding map. *)
Definition validateChart (chart : Chart.t) (fields : list FieldItem.t)
    : bool :=
  match getChartTemplate (Chart.chartType chart) with
  | None => false
  | Some (_, template) =>
      let requiredChannels := firstn 2 (ChartTemplate.channels template) in
      requiredChannelsBound (Chart.encodingMap chart) fields requiredChannels
  end.

Record DataRequirements : Type := {
  minFields : nat;
  requiredChannels : list string;
  optionalChannels : list string
}.

(** [getChartDataRequirements] *)
Definition getChartDataRequirements (chartType : string) : DataRequirements :=
  match getChartTemplate chartType with
  | None =>
      {| minFields := 0; requiredChannels := []; optionalChannels := [] |}
  | Some (_, template) =>
      let channels := ChartTemplate.channels template in
      {| minFields := Nat.min 2 (List.length channels);
         requiredChannels := firstn 2 channels;
         optionalChannels := skipn 2 channels |}
  end.

(** [getAllChartTypes] (ChartTemplates.tsx) *)
Definition getAllChartTypes : list string :=
  map ChartTemplate.chart allTemplates.
End Aggregation.

(* ================================================================== *)
(** * 14. Constructors of tables and charts *)
(* ================================================================== *)

(** componentTypes.ts, [CHANNEL_LIST]. *)
Definition CHANNEL_LIST : list string :=
  ["x"; "y"; "color"; "size"; "shape"; "opacity"; "row"; "column"].

(** The encoding [{}]. *)
Definition emptyEncoding : EncodingItem :=
  {| fieldID := None; aggregate := None; stack := None; sortOrder := None;
     sortBy := None; scheme := None; bin := None |}.

(** [createEmptyEncodingMap]: [CHANNEL_LIST.reduce((acc, channel) =>
    { acc[channel] = {}; return acc }, {})]. *)
Definition createEmptyEncodingMap : EncodingMap :=
  fold_left (fun acc channel => EncodingMap_set acc channel emptyEncoding)
    CHANNEL_LIST [].

(** [createDefaultChart(tableRef, chartType)], given the id that
    [generateId('chart')] draws. *)
Definition createDefaultChart (generatedId : string) (tableRef : string)
    (chartType : string) : Chart.t :=
  Chart.mk generatedId chartType createEmptyEncodingMap tableRef false CS_user.

Section Constructors.
Context {host : JSHost}.

(** [createDictTable(id, rows, derive, virtual, anchored,
    explorativeQuestions)], without [virtual], which the table type here
    does not carry. *)
Definition createDictTable (id : string) (rows : list object)
    (derive : option Derive) (anchored : bool)
    (explorativeQuestions : list string) : DictTable.t :=
  match rows with
  | [] => DictTable.mk id id [] [] [] derive anchored explorativeQuestions
  | row0 :: _ =>
      let names := map fst row0 in
      DictTable.mk id id names
        (map (fun name => inferTypeFromValueArray (columnValues rows name))
           names)
        rows derive anchored explorativeQuestions
  end.

(** dataFormulatorSlice.ts, [generateFreshChart(tableRef, chartType,
    source)], given what [Date.now()] and [Math.random()] return. *)
Definition generateFreshChart (now : Z) (random : Q) (tableRef : string)
    (chartType : string) (source : ChartSource) : Chart.t :=
  Chart.mk
    ("chart-"
     ++ Number_toString
          (Finite (inject_Z (now - Qfloor (random * 10000)))))%string
    chartType
    (fold_left
       (fun acc channel =>
          EncodingMap_set acc channel
            {| fieldID := None; aggregate := None; stack := None;
               sortOrder := None; sortBy := None; scheme := None;
               bin := Some false |})
       (getChartChannels chartType) [])
    tableRef false source.
End Constructors.


(* ================================================================== *)
(** * 15. Helpers of the views (viewUtils.ts) *)
(* ================================================================== *)

(** The position [s.slice(0, end)] stops at, for a string of [len] code
    units and an integer [end]: a negative position counts from the end,
    and the result is clamped to [0..len]. *)
Definition sliceEnd (len : nat) (e : Z) : nat :=
  if (e <? 0)%Z then Z.to_nat (Z.max (Z.of_nat len + e) 0)
  else Z.to_nat (Z.min e (Z.of_nat len)).

(** viewUtils.ts, [truncateText], for an integer [maxLength] of either
    sign. *)
Definition truncateText (text : string) (maxLength : Z) : string :=
  if (Z.of_nat (String.length text) <=? maxLength)%Z then text
  else
    (substring 0 (sliceEnd (String.length text) (maxLength - 3)) text
     ++ "...")%string.

(** [JSON.stringify] of an array, a built-in whose definition lies outside
    the repository. *)
Class JSONWriter : Type := {
  JSON_stringify : list value -> string
}.

Section Domains.
Context {host : JSHost} {json : JSONWriter}.

(** [JSON.stringify(d.slice().sort())] *)
Definition sortedForm (d : list value) : string :=
  JSON_stringify (Array_sort d).

(** [domains.filter((d, i) => !domains.slice(0, i).some(prevD =>
      sortedForm(prevD) === sortedForm(d)))] *)
Definition removeDuplicateDomains (domains : list (list value))
    : list (list value) :=
  map fst
    (filter
       (fun di =>
          negb (existsb (fun prevD => sortedForm prevD =? sortedForm (fst di))
                  (firstn (snd di) domains)))
       (combine domains (seq 0 (List.length domains)))).

(** [t.rows.length > 0 && Object.keys(t.rows[0]).includes(field.name)] *)
Definition holdsField (name : string) (t : DictTable.t) : bool :=
  match DictTable.rows t with
  | [] => false
  | row0 :: _ => str_includes (map fst row0) name
  end.

(** viewUtils.ts, [getDomains]. *)
Definition getDomains (field : FieldItem.t) (tables : list DictTable.t)
    : list (list value) :=
  let domains :=
    map (fun t =>
           Set_values (columnValues (DictTable.rows t) (FieldItem.name field)))
      (filter (holdsField (FieldItem.name field)) tables) in
  let domains := removeDuplicateDomains domains in
  if (List.length domains =? 0)%nat then [[]] else domains.
End Domains.

(* ================================================================== *)
(** * 16. The models of the store slice (dataFormulatorSlice.ts) *)
(* ================================================================== *)

(** The part of [ModelConfig] that the reducers read. *)
Module ModelConfig.
Record t : Type := mk {
  id : option string;
  name : string;
  provider : string;
  model : option string;
  endpoint : option string;
  api_base : option string;
  api_version : option string
}.
End ModelConfig.

Inductive TestStatus : Type := TS_ok | TS_error | TS_testing | TS_unknown.

(** An entry of [testedModels]; its [id] is copied from a [ModelConfig]
    and is missing when that one is. *)
Module TestedModel.
Record t : Type := mk {
  id : option string;
  status : TestStatus;
  message : string
}.
End TestedModel.

(** The part of [DataFormulatorState] that the model reducers read or
    write.  [modelSlots] is an object from slot types to model ids. *)
Record ModelsState : Type := {
  models : list ModelConfig.t;
  modelSlots : object;
  testedModels : list TestedModel.t
}.

(** An optional string property, as the value read from it. *)
Definition optional (s : option string) : value :=
  match s with
  | Some x => VStr x
  | None => VUndefined
  end.

Definition MODEL_SLOT_TYPES : list string := ["generation"; "hint"].

Definition addModel (state : ModelsState) (payload : ModelConfig.t)
    : ModelsState :=
  {| models := models state ++ [payload];
     modelSlots := modelSlots state;
     testedModels := testedModels state |}.

Definition removeModel (state : ModelsState) (payload : string)
    : ModelsState :=
  {| models :=
       filter (fun model =>
                 negb (strict_equal (optional (ModelConfig.id model))
                         (VStr payload)))
         (models state);
     modelSlots :=
       fold_left
         (fun slots slotType =>
            if strict_equal (obj_get slots slotType) (VStr payload)
            then obj_set slots slotType VUndefined
            else slots)
         (map fst (modelSlots state)) (modelSlots state);
     testedModels := testedModels state |}.

Definition setModelSlot (state : ModelsState) (slotType : string)
    (modelId : option string) : ModelsState :=
  {| models := models state;
     modelSlots := obj_set (modelSlots state) slotType (optional modelId);
     testedModels := testedModels state |}.

(** [m.endpoint === e.endpoint && m.model === e.model &&
     m.api_base === e.api_base && m.api_version === e.api_version] *)
Definition sameEndpoint (m e : ModelConfig.t) : bool :=
  strict_equal (optional (ModelConfig.endpoint m))
    (optional (ModelConfig.endpoint e))
  && strict_equal (optional (ModelConfig.model m))
       (optional (ModelConfig.model e))
  && strict_equal (optional (ModelConfig.api_base m))
       (optional (ModelConfig.api_base e))
  && strict_equal (optional (ModelConfig.api_version m))
       (optional (ModelConfig.api_version e)).

(** The case [fetchAvailableModels.fulfilled] of the extra reducers;
    [payload] is [None] when the thunk returned nothing. *)
Definition fetchAvailableModels_fulfilled (state : ModelsState)
    (payload : option (list ModelConfig.t)) : ModelsState :=
  let defaultModels := match payload with Some l => l | None => [] end in
  {| models :=
       defaultModels
       ++ filter (fun e => negb (existsb (fun m => sameEndpoint m e)
                                   defaultModels))
            (models state);
     testedModels :=
       map (fun m => TestedModel.mk (ModelConfig.id m) TS_ok "") defaultModels
       ++ filter
            (fun t =>
               negb (includes (map (fun m => optional (ModelConfig.id m))
                                 defaultModels)
                       (optional (TestedModel.id t))))
            (testedModels state);
     modelSlots :=
       match defaultModels with
       | [] => modelSlots state
       | first :: _ =>
           fold_left
             (fun slots slotType =>
                if strict_equal (obj_get slots slotType) VUndefined
                then obj_set slots slotType (optional (ModelConfig.id first))
                else slots)
             MODEL_SLOT_TYPES (modelSlots state)
       end |}.

(** [dfSelectors.getActiveModel] *)
Definition getActiveModel (state : ModelsState) : option ModelConfig.t :=
  let generationModelId := obj_get (modelSlots state) "generation" in
  find (fun m => strict_equal (optional (ModelConfig.id m)) generationModelId)
    (models state).

(* ================================================================== *)
(** * 17. The client of the server-sent events (SSEClient.tsx) *)
(* ================================================================== *)

Module SSE.

(** [EventSource.readyState] *)
Inductive ReadyState : Type := CONNECTING | OPEN | CLOSED.

(** The actions of the store that the client dispatches. *)
Inductive Action : Type :=
| setSSEConnectionStatus (status : string)
| handleSSEMessage (data : value).

(** What the client does to the world around it, in order: the actions it
    dispatches, the callbacks of its options it calls, the event sources
    it creates and closes, and the timers it sets and clears.  The delay
    of a timer is [base * Math.pow(1.5, exponent)], kept as its two
    operands. *)
Inductive Effect : Type :=
| Dispatched (action : Action)
| Called (callback : string)
| Created
| Closed
| TimeoutSet (id : nat) (base : number) (exponent : nat)
| TimeoutCleared (id : nat).

(** The fields of an [SSEClient].  [eventSource] and [dispatch] tell
    whether the field holds an object or [null]; of the options, the two
    numbers are kept (an option given as [undefined] counts as [NaN], which
    is what both of its uses make of it). *)
Record SSEClient : Type := {
  eventSource : bool;
  dispatch : bool;
  reconnectAttempts : number;
  reconnectDelay : number;
  reconnectCount : nat;
  reconnectTimer : option nat;
  isConnecting : bool;
  isDestroyed : bool
}.

(** A client in its surroundings: the timers that are set and have
    neither fired nor been cleared, the id of the next timer, and what the
    client has done so far. *)
Record World : Type := {
  client : SSEClient;
  pending : list nat;
  nextTimer : nat;
  trace : list Effect
}.

Definition withClient (w : World) (c : SSEClient) : World :=
  {| client := c; pending := pending w; nextTimer := nextTimer w;
     trace := trace w |}.

Definition emit (w : World) (e : Effect) : World :=
  {| client := client w; pending := pending w; nextTimer := nextTimer w;
     trace := trace w ++ [e] |}.

Definition withEventSource (c : SSEClient) (es : bool) : SSEClient :=
  {| eventSource := es; dispatch := dispatch c;
     reconnectAttempts := reconnectAttempts c;
     reconnectDelay := reconnectDelay c; reconnectCount := reconnectCount c;
     reconnectTimer := reconnectTimer c; isConnecting := isConnecting c;
     isDestroyed := isDestroyed c |}.

Definition withDispatch (c : SSEClient) (d : bool) : SSEClient :=
  {| eventSource := eventSource c; dispatch := d;
     reconnectAttempts := reconnectAttempts c;
     reconnectDelay := reconnectDelay c; reconnectCount := reconnectCount c;
     reconnectTimer := reconnectTimer c; isConnecting := isConnecting c;
     isDestroyed := isDestroyed c |}.

Definition withReconnectCount (c : SSEClient) (n : nat) : SSEClient :=
  {| eventSource := eventSource c; dispatch := dispatch c;
     reconnectAttempts := reconnectAttempts c;
     reconnectDelay := reconnectDelay c; reconnectCount := n;
     reconnectTimer := reconnectTimer c; isConnecting := isConnecting c;
     isDestroyed := isDestroyed c |}.

Definition withReconnectTimer (c : SSEClient) (t : option nat) : SSEClient :=
  {| eventSource := eventSource c; dispatch := dispatch c;
     reconnectAttempts := reconnectAttempts c;
     reconnectDelay := reconnectDelay c; reconnectCount := reconnectCount c;
     reconnectTimer := t; isConnecting := isConnecting c;
     isDestroyed := isDestroyed c |}.

Definition withIsConnecting (c : SSEClient) (b : bool) : SSEClient :=
  {| eventSource := eventSource c; dispatch := dispatch c;
     reconnectAttempts := reconnectAttempts c;
     reconnectDelay := reconnectDelay c; reconnectCount := reconnectCount c;
     reconnectTimer := reconnectTimer c; isConnecting := b;
     isDestroyed := isDestroyed c |}.

Definition withIsDestroyed (c : SSEClient) (b : bool) : SSEClient :=
  {| eventSource := eventSource c; dispatch := dispatch c;
     reconnectAttempts := reconnectAttempts c;
     reconnectDelay := reconnectDelay c; reconnectCount := reconnectCount c;
     reconnectTimer := reconnectTimer c; isConnecting := isConnecting c;
     isDestroyed := b |}.

(** [new SSEClient(dispatch, options)], for the options that are numbers:
    [None] where [options] has no such property. *)
Definition construct (dispatch : bool) (attempts delay : option number)
    : SSEClient :=
  {| eventSource := false; dispatch := dispatch;
     reconnectAttempts :=
       match attempts with Some n => n | None => Finite 5 end;
     reconnectDelay :=
       match delay with Some n => n | None => Finite 3000 end;
     reconnectCount := 0; reconnectTimer := None; isConnecting := false;
     isDestroyed := false |}.

(** A client that was just built, with no timer set and nothing done. *)
Definition fresh (dispatch : bool) (attempts delay : option number) : World :=
  {| client := construct dispatch attempts delay; pending := [];
     nextTimer := 0; trace := [] |}.

(** [if (this.dispatch) this.dispatch(action)] *)
Definition notify (w : World) (action : Action) : World :=
  if dispatch (client w) then emit w (Dispatched action) else w.

(** [setTimeout(callback, base * Math.pow(1.5, exponent))]: the id of the
    timer, and the world in which it is set. *)
Definition setTimeout (w : World) (base : number) (exponent : nat)
    : nat * World :=
  (nextTimer w,
   {| client := client w; pending := pending w ++ [nextTimer w];
      nextTimer := S (nextTimer w);
      trace := trace w ++ [TimeoutSet (nextTimer w) base exponent] |}).

(** [clearTimeout(id)] *)
Definition clearTimeout (w : World) (id : nat) : World :=
  {| client := client w;
     pending := filter (fun t => negb (t =? id)%nat) (pending w);
     nextTimer := nextTimer w;
     trace := trace w ++ [TimeoutCleared id] |}.

(** [scheduleReconnect()] *)
Definition scheduleReconnect (w : World) : World :=
  if isDestroyed (client w) then w
  else if number_leb (reconnectAttempts (client w))
            (Finite (inject_Z (Z.of_nat (reconnectCount (client w)))))
  then notify w (setSSEConnectionStatus "failed")
  else
    let w :=
      withClient w
        (withReconnectCount (client w) (S (reconnectCount (client w)))) in
    let (id, w) :=
      setTimeout w (reconnectDelay (client w))
        (reconnectCount (client w) - 1) in
    withClient w (withReconnectTimer (client w) (Some id)).

(** [connect()]; [throws] tells whether [new EventSource(...)] throws.
    [setupEventListeners] installs the four handlers below and changes
    no field. *)
Definition connect (throws : bool) (w : World) : World :=
  if isDestroyed (client w) then w
  else if eventSource (client w) || isConnecting (client w) then w
  else
    let w := withClient w (withIsConnecting (client w) true) in
    if throws then
      let w := withClient w (withIsConnecting (client w) false) in
      scheduleReconnect w
    else
      let w := emit w Created in
      withClient w (withEventSource (client w) true).

(** [disconnect()] *)
Definition disconnect (w : World) : World :=
  let w :=
    match reconnectTimer (client w) with
    | Some id =>
        let w := clearTimeout w id in
        withClient w (withReconnectTimer (client w) None)
    | None => w
    end in
  let w :=
    if eventSource (client w) then
      let w := emit w Closed in
      withClient w (withEventSource (client w) false)
    else w in
  let w := withClient w (withIsConnecting (client w) false) in
  withClient w (withReconnectCount (client w) 0).

(** [destroy()] *)
Definition destroy (w : World) : World :=
  let w := withClient w (withIsDestroyed (client w) true) in
  let w := disconnect w in
  withClient w (withDispatch (client w) false).

(** [eventSource.onopen] *)
Definition onopen (w : World) : World :=
  let w := withClient w (withIsConnecting (client w) false) in
  let w := withClient w (withReconnectCount (client w) 0) in
  let w := notify w (setSSEConnectionStatus "connected") in
  emit w (Called "onOpen").

Section Messages.
Context {host : JSHost}.

(** [eventSource.onmessage], for an event whose [data] is [data]; what
    [JSON.parse] throws is caught. *)
Definition onmessage (data : string) (w : World) : World :=
  match JSON_parse data with
  | Some parsed =>
      let w := notify w (handleSSEMessage parsed) in
      emit w (Called "onMessage")
  | None => w
  end.
End Messages.

(** [eventSource.onerror]; [readyState] is the state of the event source
    the client holds at that moment, if it holds one. *)
Definition onerror (readyState : ReadyState) (w : World) : World :=
  let w := withClient w (withIsConnecting (client w) false) in
  let w :=
    if eventSource (client w) then
      match readyState with
      | CLOSED =>
          let w := notify w (setSSEConnectionStatus "disconnected") in
          scheduleReconnect w
      | _ => w
      end
    else w in
  emit w (Called "onError").

(** [eventSource.onclose] *)
Definition onclose (w : World) : World :=
  let w := withClient w (withIsConnecting (client w) false) in
  let w := notify w (setSSEConnectionStatus "disconnected") in
  let w := emit w (Called "onClose") in
  scheduleReconnect w.

(** The callback that [scheduleReconnect] hands to [setTimeout]. *)
Definition reconnect (throws : bool) (w : World) : World :=
  let w := withClient w (withReconnectTimer (client w) None) in
  let w := withClient w (withEventSource (client w) false) in
  connect throws w.

(** What can happen to a client: a call of one of its public methods, an
    event of an event source it created, or a timer that fires. *)
Inductive Event : Type :=
| Connect (throws : bool)
| Disconnect
| Destroy
| Opened
| Message (data : string)
| Failed (readyState : ReadyState)
| Ended
| Fired (id : nat) (throws : bool).

Section Runs.
Context {host : JSHost}.

(** A timer fires only while it is set. *)
Definition deliver (w : World) (ev : Event) : World :=
  match ev with
  | Connect throws => connect throws w
  | Disconnect => disconnect w
  | Destroy => destroy w
  | Opened => onopen w
  | Message data => onmessage data w
  | Failed readyState => onerror readyState w
  | Ended => onclose w
  | Fired id throws =>
      if existsb (Nat.eqb id) (pending w) then
        reconnect throws
          {| client := client w;
             pending := filter (fun t => negb (t =? id)%nat) (pending w);
             nextTimer := nextTimer w; trace := trace w |}
      else w
  end.

Definition run (w : World) (events : list Event) : World :=
  fold_left deliver events w.
End Runs.
End SSE.
(* ================================================================== *)
(** * 18. A d3 for concrete runs, and more example data *)
(* ================================================================== *)

(** Groups in the order their keys first occur, keys compared as a [Map]
    compares them. *)
Fixpoint sample_group (key : object -> value) (rows : list object)
    (groups : list (value * list object)) : list (value * list object) :=
  match rows with
  | [] => groups
  | r :: rest =>
      sample_group key rest
        (if existsb (fun g => SameValueZero (fst g) (key r)) groups
         then map (fun g => if SameValueZero (fst g) (key r)
                            then (fst g, snd g ++ [r]) else g) groups
         else groups ++ [(key r, [r])])
  end.

Fixpoint sample_flatGroup (rows : list object) (keys : list string)
    : list (list value * list object) :=
  match keys with
  | [] => [([], rows)]
  | k :: ks =>
      flat_map (fun g => map (fun sub => (fst g :: fst sub, snd sub))
                           (sample_flatGroup (snd g) ks))
        (sample_group (fun r => obj_get r k) rows [])
  end.

(** The finite numbers among the values. *)
Definition sample_numbers (values : list value) : list Q :=
  flat_map (fun v => match v with VNum (Finite q) => [q] | _ => [] end) values.

Definition sample_sum (values : list value) : value :=
  VNum (Finite (fold_left Qplus (sample_numbers values) 0%Q)).

Definition sample_extremum (better : Q -> Q -> bool) (values : list value)
    : value :=
  match sample_numbers values with
  | [] => VUndefined
  | q :: qs =>
      VNum (Finite (fold_left (fun m x => if better x m then x else m) qs q))
  end.

Definition sample_mean (values : list value) : value :=
  match sample_numbers values with
  | [] => VUndefined
  | qs =>
      VNum (Finite (fold_left Qplus qs 0%Q
                    / inject_Z (Z.of_nat (List.length qs)))%Q)
  end.

(** No median and no mode: they are not needed by the runs below. *)
Definition sampleD3 : D3 := {|
  d3_flatGroup := sample_flatGroup;
  d3_sum := sample_sum;
  d3_max := sample_extremum (fun x m => Qle_bool m x);
  d3_min := sample_extremum (fun x m => Qle_bool x m);
  d3_mean := sample_mean;
  d3_median := fun _ => VUndefined;
  d3_mode := fun _ => VUndefined
|}.

Definition summed (fid : string) : EncodingItem :=
  {| fieldID := Some fid; aggregate := Some Aggr_sum; stack := None;
     sortOrder := None; sortBy := None; scheme := None; bin := None |}.


(** An encoding without a field id that asks for a sort by something that
    is neither a keyword nor JSON. *)
Definition sortedByColour : EncodingItem :=
  {| fieldID := None; aggregate := None; stack := None; sortOrder := None;
     sortBy := Some "color"; scheme := None; bin := None |}.

(** A count without a field id. *)
Definition countOnly : EncodingItem :=
  {| fieldID := None; aggregate := Some Aggr_count; stack := None;
     sortOrder := None; sortBy := None; scheme := None; bin := None |}.


(* ================================================================== *)
(** * 19. The vocabulary of the properties *)
(* ================================================================== *)

Section Vocabulary.
Context {host : JSHost}.

(** The ids of the tables the remaining charts are drawn from. *)
Definition chartRefedTableIds (ts : list DictTable.t) (cs : list Chart.t)
    (fs : list FieldItem.t) : list string :=
  map DictTable.id (map (fun c => getDataTable c ts cs fs) cs).

(** The charts a [deleteChartsRoutine] leaves. *)
Definition remainingCharts (s : DataFormulatorState) (chartIds : list string)
    : list Chart.t :=
  filter (fun c => negb (str_includes chartIds (Chart.id c))) (charts s).

(** The ids [deleteChartsRoutine] removes: those carried by a table that is
    not anchored and by a derived table no remaining chart is drawn from. *)
Definition idsToDelete (s : DataFormulatorState) (chartIds : list string)
    : list string :=
  let refed :=
    chartRefedTableIds (tables s) (remainingCharts s chartIds)
      (conceptShelfItems s) in
  let unrefed :=
    map DictTable.id
      (filter (fun t => isSome (DictTable.derive t)
                        && negb (str_includes refed (DictTable.id t)))
         (tables s)) in
  map DictTable.id
    (filter (fun t => negb (DictTable.anchored t)
                      && str_includes unrefed (DictTable.id t))
       (tables s)).

(** Reading a cell of the heap. *)
Definition objAt (h : heap) (l : loc) : value :=
  match nth_error h l with
  | Some (ObjCell v) => v
  | _ => VUndefined
  end.

Definition fieldsAt (h : heap) (l : loc) : list FieldItem.t :=
  match nth_error h l with
  | Some (FieldsCell fs) => fs
  | _ => []
  end.

Definition rowsAt (h : heap) (l : loc) : list object :=
  match nth_error h l with
  | Some (RowsCell rs) => rs
  | _ => []
  end.

(** The loop over the entries of the encoding map, on the draft alone. *)
Fixpoint encodeAll (chartTemplate : ChartTemplate.t) (chartType : string)
    (aggrPreprocessed : bool) (fields : list FieldItem.t) (rows : list object)
    (encodingMap : EncodingMap) (vgObj : value) : result value :=
  match encodingMap with
  | [] => Ok vgObj
  | entry :: rest =>
      vgObj <-- encodeChannel chartTemplate chartType aggrPreprocessed fields
                  rows (fst entry) (snd entry) vgObj ;;
      encodeAll chartTemplate chartType aggrPreprocessed fields rows rest vgObj
  end.

Definition applyPostProcessor (chartTemplate : ChartTemplate.t)
    (rows : list object) (vgObj : value) : result value :=
  match ChartTemplate.postProcessor chartTemplate with
  | Some postProcessor => postProcessor vgObj rows
  | None => Ok vgObj
  end.

Definition attachData (fields : list FieldItem.t) (rows : list object)
    (vgObj : value) : result value :=
  set_prop vgObj (KStr "data")
    (VObj [("values", VArr (map VObj (prepareValues fields rows)))]).

(** The specification [assembleVegaChart] builds from a skeleton, the
    fields and the rows it reads. *)
Definition assembleSpec (chartTemplate : ChartTemplate.t) (chartType : string)
    (aggrPreprocessed : bool) (fields : list FieldItem.t) (rows : list object)
    (encodingMap : EncodingMap) (skeleton : value) : result value :=
  vgObj <-- encodeAll chartTemplate chartType aggrPreprocessed fields rows
              encodingMap (structuredClone skeleton) ;;
  vgObj <-- handleFaceting vgObj ;;
  vgObj <-- applyPostProcessor chartTemplate rows vgObj ;;
  attachData fields rows vgObj.

(** The heap an outcome ends in. *)
Definition heapOf {A : Type} (o : outcome A) : heap :=
  match o with
  | Returned _ h => h
  | Thrown _ h => h
  end.

(** Two outcomes show the same result: the same exception, or the same
    chart type with structurally equal specifications (or none). *)
Definition sameResult (o1 o2 : outcome (string * option loc)) : Prop :=
  match o1, o2 with
  | Returned (ct1, None) _, Returned (ct2, None) _ => ct1 = ct2
  | Returned (ct1, Some l1) h1, Returned (ct2, Some l2) h2 =>
      ct1 = ct2
      /\ exists spec, nth_error h1 l1 = Some (ObjCell spec)
                      /\ nth_error h2 l2 = Some (ObjCell spec)
  | Thrown e1 _, Thrown e2 _ => e1 = e2
  | _, _ => False
  end.

(** An encoding that resolves to the empty encoding object whatever the
    field list: no field id, no sort, no stack, no scheme, not the radius
    channel and not a count of pre-aggregated rows. *)
Definition blankEncoding (channel : string) (encoding : EncodingItem)
    (aggrPreprocessed : bool) : bool :=
  negb (nonempty (fieldID encoding))
  && negb (channel =? "radius")
  && negb (isCount (aggregate encoding) && aggrPreprocessed)
  && negb (nonempty (sortBy encoding))
  && negb (isSome (sortOrder encoding))
  && negb (isSome (stack encoding))
  && negb (nonempty (scheme encoding)).

(** The keys of an object are pairwise distinct. *)
Definition uniqueKeys (o : object) : Prop := NoDup (map fst o).

(** [o[k][sub]], [undefined] unless [o[k]] is an object. *)
Definition sub_get (o : object) (k sub : string) : value :=
  match obj_get o k with
  | VObj inner => obj_get inner sub
  | _ => VUndefined
  end.

(** The encoding object a channel resolves to (it does not depend on the
    draft). *)
Definition encodingObjOf (chartType : string) (aggrPreprocessed : bool)
    (fields : list FieldItem.t) (rows : list object) (channel : string)
    (encoding : EncodingItem) : object :=
  fst (resolveEncoding chartType aggrPreprocessed fields rows channel encoding
         VUndefined).

(** No two entries are the same value (in the sense of [Set]). *)
Fixpoint distinctValues (l : list value) : Prop :=
  match l with
  | [] => True
  | x :: rest =>
      (forall y, In y rest -> SameValueZero x y = false) /\ distinctValues rest
  end.

(** The distinct values of a field's column in the working rows. *)
Definition presentValues (rows : list object) (f : FieldItem.t) : list value :=
  Set_values (columnValues rows (FieldItem.name f)).

(** [domain] holds every present value and at least one value more. *)
Definition strictSuperset (domain present : list value) : Prop :=
  (forall v, In v present -> includes domain v = true)
  /\ (exists d, In d domain /\ includes present d = false).

(** The encoding object pins the colour scale and the legend. *)
Definition pinned (D L : value) (eo : object) : Prop :=
  obj_has eo "scale" = true /\ obj_has eo "legend" = true
  /\ sub_get eo "scale" "domain" = D /\ sub_get eo "legend" "values" = L.

(** The display type of a bound field: [encodingObj.type] once the
    semantic type and the aggregation have been handled. *)
Definition displayType (aggrPreprocessed : bool) (rows : list object)
    (channel : string) (encoding : EncodingItem) (f : FieldItem.t) : value :=
  obj_get
    (handleAggregation encoding aggrPreprocessed f
       (fieldAndType channel rows f (initialEncodingObj channel)))
    "type".

(** The draft of a template [{ mark, encoding: {} }] while it is filled. *)
Definition flatDraft (m : value) (e : object) : value :=
  VObj [("mark", m); ("encoding", VObj e)].

(** [po] is the one path [['encoding', c]]. *)
Definition isEncodingPath (c : string) (po : pathObj) : bool :=
  match po with
  | OnePath [KStr a; KStr b] => (a =? "encoding") && (b =? c)
  | _ => false
  end.

(** Every channel [c] of [paths] is filled at [encoding.c]. *)
Definition flatPaths (paths : list (string * pathObj)) : bool :=
  forallb (fun cp => isEncodingPath (fst cp) (snd cp)) paths.

(** Every entry of an [encoding] block is an object. *)
Definition objectsOnly (e : object) : Prop :=
  forall k, obj_get e k = VUndefined \/ exists o, obj_get e k = VObj o.

(** "Handle faceting", on the [encoding] block. *)
Definition facetEncoding (e : object) : object :=
  match obj_get e "column" with
  | VObj column =>
      if negb (truthy (obj_get e "row"))
      then obj_delete
             (obj_set e "facet" (VObj (obj_set column "columns" (num 6))))
             "column"
      else e
  | _ => e
  end.

(** What the sort block may do to the draft: nothing, or set
    [encoding.order]. *)
Definition orderOnly (e e1 : object) : Prop :=
  e1 = e \/ exists o, e1 = obj_set e "order" (VObj o).

(** What one channel writes over [cur] where its path leads. *)
Definition written (eo : object) (cur : value) : value :=
  if negb (List.length eo =? 0)%nat then fillValue eo cur else cur.

(** What the loop body for [channel] leaves where the path of [channel]
    leads, from what it found there. *)
Definition channelWrite (T : ChartTemplate.t) (ct : string) (aggr : bool)
    (fields : list FieldItem.t) (rows : list object) (channel : string)
    (encoding : EncodingItem) (cur : value) : value :=
  match lookupPaths (ChartTemplate.paths T) channel with
  | Some _ => written (encodingObjOf ct aggr fields rows channel encoding) cur
  | None => cur
  end.

(** The entry of [channel] in the encoding map. *)
Definition entryOf (em : EncodingMap) (channel : string)
    : option EncodingItem :=
  option_map snd (find (fun kv => fst kv =? channel) em).

(** What the whole loop leaves where the path of [channel] leads. *)
Definition loopWrite (T : ChartTemplate.t) (ct : string) (aggr : bool)
    (fields : list FieldItem.t) (rows : list object) (em : EncodingMap)
    (channel : string) (cur : value) : value :=
  match entryOf em channel with
  | Some encoding => channelWrite T ct aggr fields rows channel encoding cur
  | None => cur
  end.

(** The post-processors that stay inside the [encoding] block. *)
Definition flatPost (T : ChartTemplate.t) : Prop :=
  ChartTemplate.postProcessor T = None
  \/ ChartTemplate.postProcessor T = Some boxplotPostProcessor
  \/ ChartTemplate.postProcessor T = Some heatMapPostProcessor.

(** The heap still starts with the catalogue as the module built it. *)
Definition catalogueLoaded (h : heap) : Prop :=
  exists rest, h = catalogueHeap ++ rest.

(** The encoding object the loop resolves for [channel]; empty when the
    encoding map has no entry for it. *)
Definition resolvedChannel (ct : string) (aggr : bool)
    (fields : list FieldItem.t) (rows : list object) (em : EncodingMap)
    (channel : string) : object :=
  match entryOf em channel with
  | Some encoding => encodingObjOf ct aggr fields rows channel encoding
  | None => []
  end.

(** The draft of the Linear Regression template while it is filled. *)
Definition regressionDraft (points transform line : object) : value :=
  VObj [("layer", VArr [
    VObj [("mark", VStr "circle"); ("encoding", VObj points)];
    VObj [("mark", VObj [("type", VStr "line"); ("color", VStr "red")]);
          ("transform", VArr [VObj transform]);
          ("encoding", VObj line)]])].

(** The draft of the Ranged Dot Plot template while it is filled. *)
Definition rangedDraft (shared line points : object) : value :=
  VObj [("encoding", VObj shared);
        ("layer", VArr [
           VObj [("mark", VStr "line"); ("encoding", VObj line)];
           VObj [("mark", VObj [("type", VStr "point");
                                ("filled", VBool true)]);
                 ("encoding", VObj points)]])].

(** The draft of the Pyramid Chart template while it is filled: the two
    halves with their [encoding] blocks and what the post-processor adds to
    each half. *)
Definition pyramidDraft (leftMore left rightMore right : object) : value :=
  VObj [("spacing", num 0);
        ("resolve", VObj [("scale", VObj [("y", VStr "shared")])]);
        ("hconcat", VArr [
           VObj (("mark", VStr "bar") :: ("encoding", VObj left) :: leftMore);
           VObj (("mark", VStr "bar") :: ("encoding", VObj right)
                 :: rightMore)]);
        ("config", VObj [("view", VObj [("stroke", VNull)]);
                         ("axis", VObj [("grid", VBool false)])])].

(** The colour entries of the two halves. *)
Definition pyramidColours (c0 c1 : value) (spec : value) : Prop :=
  exists a0 e0 a1 e1,
    spec = pyramidDraft a0 e0 a1 e1
    /\ obj_get e0 "color" = c0 /\ obj_get e1 "color" = c1.

End Vocabulary.

(* ================================================================== *)
(** * 20. More vocabulary of the properties *)
(* ================================================================== *)

(** The focused table is the table of the focused chart, when there is
    one. *)
Definition focusFollowsChart (s : DataFormulatorState) : Prop :=
  match getFocusedChart s with
  | Some c => focusedTableId s = Some (Chart.tableRef c)
  | None => True
  end.

(** A path that leads to a key of the [encoding] block. *)
Definition isBlockPath (p : path) : bool :=
  match p with
  | [KStr block; KStr _] => block =? "encoding"
  | _ => false
  end.

(** Every path of [paths] leads to a key of the [encoding] block. *)
Definition blockPaths (paths : list (string * pathObj)) : bool :=
  forallb (fun cp => forallb isBlockPath (pathsOf (snd cp))) paths.

(** The [data] property the assembler attaches. *)
Definition dataOf {host : JSHost} (fields : list FieldItem.t)
    (rows : list object) : value :=
  VObj [("values", VArr (map VObj (prepareValues fields rows)))].


(** The axis [axis] of a specification is nominal when it is there:
    [spec.encoding[axis]] is missing, or its [type] is ['nominal']. *)
Definition nominalWhenThere (spec : value) (axis : string) : Prop :=
  get_path [KStr "encoding"; KStr axis] spec = Ok VUndefined
  \/ get_path [KStr "encoding"; KStr axis; KStr "type"] spec
     = Ok (VStr "nominal").

(** A client built with [reconnectAttempts: n] that has used at most [n]
    of them. *)
Definition withinBudget (n : nat) (w : SSE.World) : Prop :=
  SSE.reconnectAttempts (SSE.client w) = Finite (inject_Z (Z.of_nat n))
  /\ (SSE.reconnectCount (SSE.client w) <= n)%nat.

(** A client that is destroyed and idle, and has done nothing since
    [base] but to call callbacks. *)
Definition shutDown (base : list SSE.Effect) (w : SSE.World) : Prop :=
  SSE.isDestroyed (SSE.client w) = true
  /\ SSE.dispatch (SSE.client w) = false
  /\ SSE.eventSource (SSE.client w) = false
  /\ SSE.reconnectTimer (SSE.client w) = None
  /\ exists callbacks, SSE.trace w = base ++ map SSE.Called callbacks.

(** The names of the members every object inherits from
    [Object.prototype]: [o[k]] finds them under these names when [o] has
    no own property [k]. *)
Definition Object_prototype_members : list string :=
  ["constructor"; "__defineGetter__"; "__defineSetter__"; "hasOwnProperty";
   "__lookupGetter__"; "__lookupSetter__"; "isPrototypeOf";
   "propertyIsEnumerable"; "toString"; "valueOf"; "__proto__";
   "toLocaleString"].

(** An encoding map none of whose channels is such a name:
    [chartTemplate.paths[channel]] then finds the own paths of the
    template or nothing. *)
Definition ownChannelsOnly (em : EncodingMap) : Prop :=
  forall channel,
    In channel (map fst em) -> ~ In channel Object_prototype_members.


Section Settings.
Context {host : JSHost}.

(** The sort block leaves nothing behind: there is no [sortBy] and no
    [sortOrder], or [sortBy] is neither ['default'], ['x'], ['y'] nor
    text that [JSON.parse] accepts. *)
Definition sortLeavesNothing (encoding : EncodingItem) : bool :=
  match sortBy encoding with
  | Some by_ =>
      if by_ =? "" then negb (isSome (sortOrder encoding))
      else negb ((by_ =? "default") || (by_ =? "x") || (by_ =? "y"))
           && negb (isSome (JSON_parse by_))
  | None => negb (isSome (sortOrder encoding))
  end.

(** The settings of an encoding put nothing into its encoding object: no
    stack, no colour scheme, a sort that leaves nothing behind, and no
    count of pre-aggregated rows. *)
Definition plainSettings (encoding : EncodingItem) (aggrPreprocessed : bool)
    : bool :=
  negb (isCount (aggregate encoding) && aggrPreprocessed)
  && sortLeavesNothing encoding
  && negb (isSome (stack encoding))
  && negb (nonempty (scheme encoding)).
End Settings.
(* ================================================================== *)
(** * 21. Proof automation *)
(* ================================================================== *)

Ltac each_template H :=
  cbv [allTemplates CHART_TEMPLATES map snd List.concat app tablePlots
       scatterPlots barCharts lineCharts tableCharts customCharts In] in H;
  repeat (destruct H as [H|H]; [subst|]); [..|contradiction].

Ltac flat_post :=
  first [left; reflexivity | right; left; reflexivity
        | right; right; reflexivity].

(** Case analysis on which of the listed channels [channel] is. *)
Ltac which_channel :=
  repeat match goal with
         | |- context [?c =? ?channel] =>
             is_var channel;
             let E := fresh "E" in
             destruct (c =? channel) eqn:E;
             [apply String.eqb_eq in E; subst channel
             |apply String.eqb_neq in E]
         end.

(* ================================================================== *)
(** * 22. Properties of type inference *)
(* ================================================================== *)

Lemma filter_all_false {A : Type} (p : A -> bool) (l : list A) :
  forallb (fun x => negb (p x)) l = true -> filter p l = [].
Proof.
  induction l as [|x l IH]; simpl; [reflexivity|].
  intros H. apply andb_true_iff in H. destruct H as [Hx Hl].
  apply negb_true_iff in Hx. rewrite Hx. auto.
Qed.

(** C5 (as stated, refuted): on the empty sequence, and on a sequence of
    nulls and empty strings, [inferDataType] and [inferTypeFromValueArray]
    return ['auto'], not ['string']. *)
Lemma inference_of_empty_input_is_auto :
  @inferDataType sampleHost [] = DT_auto
  /\ @inferDataType sampleHost [] <> DT_string
  /\ @inferTypeFromValueArray sampleHost [VNull; VStr ""; VUndefined] = DT_auto
  /\ @inferTypeFromValueArray sampleHost [VNull; VStr ""; VUndefined]
     <> DT_string.
Proof. repeat split; try reflexivity; discriminate. Qed.

(** C5 (amended): for every input sequence that is empty or holds only
    null, undefined and empty-string values, [inferDataType] and
    [inferTypeFromValueArray] return ['auto'] (their explicit guard), and
    [getDType] maps such a column of declared type ['auto'] to the display
    type ['nominal']. *)
Theorem inference_of_blank_column {host : JSHost} (values : list value) :
  forallb (fun v => negb (nonNull v)) values = true ->
  inferDataType values = DT_auto
  /\ inferTypeFromValueArray values = DT_auto
  /\ getDType DT_auto values = "nominal".
Proof.
  intros Hblank. pose proof (filter_all_false nonNull values Hblank) as Hf.
  unfold inferDataType, inferTypeFromValueArray, getDType.
  rewrite Hf. simpl.
  destruct (List.length values =? 0)%nat; auto.
Qed.

Lemma inference_of_blank_column_witness :
  @inferDataType sampleHost [VNull; VStr ""] = DT_auto
  /\ @inferTypeFromValueArray sampleHost [VNull; VStr ""] = DT_auto
  /\ @getDType sampleHost DT_auto [VNull; VStr ""] = "nominal".
Proof.
  apply (@inference_of_blank_column sampleHost [VNull; VStr ""]).
  reflexivity.
Defined.

(* ================================================================== *)
(** * 23. Properties of the store slice *)
(* ================================================================== *)

Lemma str_includes_In (ids : list string) (x : string) :
  str_includes ids x = true <-> In x ids.
Proof.
  unfold str_includes. rewrite existsb_exists. split.
  - intros [y [Hin Heq]]. apply String.eqb_eq in Heq. now subst.
  - intros Hin. exists x. split; [assumption | apply String.eqb_refl].
Qed.

Lemma str_includes_false (ids : list string) (x : string) :
  str_includes ids x = false <-> ~ In x ids.
Proof.
  rewrite <- str_includes_In. destruct (str_includes ids x); split;
    intros H; try reflexivity; try discriminate; try (intros H'; discriminate).
  exfalso; apply H; reflexivity.
Qed.

Lemma charts_deleteChartsRoutine s chartIds :
  charts (deleteChartsRoutine s chartIds) = remainingCharts s chartIds.
Proof. reflexivity. Qed.

Lemma conceptShelfItems_deleteChartsRoutine s chartIds :
  conceptShelfItems (deleteChartsRoutine s chartIds) = conceptShelfItems s.
Proof. reflexivity. Qed.

Lemma tables_deleteChartsRoutine s chartIds :
  tables (deleteChartsRoutine s chartIds)
  = filter (fun t => negb (str_includes (idsToDelete s chartIds)
                             (DictTable.id t)))
      (tables s).
Proof. reflexivity. Qed.

Lemma In_idsToDelete s chartIds (x : string) :
  In x (idsToDelete s chartIds) <->
  (exists t, In t (tables s) /\ DictTable.id t = x
             /\ DictTable.anchored t = false)
  /\ (exists t, In t (tables s) /\ DictTable.id t = x
                /\ DictTable.derive t <> None)
  /\ ~ In x (chartRefedTableIds (tables s) (remainingCharts s chartIds)
               (conceptShelfItems s)).
Proof.
  unfold idsToDelete. rewrite in_map_iff. split.
  - intros [t [Hid Hin]]. apply filter_In in Hin. destruct Hin as [Hin Hc].
    apply andb_true_iff in Hc. destruct Hc as [Ha Hu].
    apply negb_true_iff in Ha. apply str_includes_In in Hu.
    apply in_map_iff in Hu. destruct Hu as [t' [Hid' Hin']].
    apply filter_In in Hin'. destruct Hin' as [Hin' Hc'].
    apply andb_true_iff in Hc'. destruct Hc' as [Hd Hr].
    apply negb_true_iff in Hr. apply str_includes_false in Hr.
    split; [exists t; auto|]. split.
    + exists t'. repeat split; try congruence.
      destruct (DictTable.derive t'); [discriminate | discriminate Hd].
    + rewrite <- Hid, <- Hid'. exact Hr.
  - intros [[t [Hin [Hid Ha]]] [[t' [Hin' [Hid' Hd]]] Hr]].
    exists t. split; [assumption|]. apply filter_In. split; [assumption|].
    rewrite Ha. simpl. apply str_includes_In. apply in_map_iff.
    exists t'. split; [congruence|]. apply filter_In. split; [assumption|].
    apply andb_true_iff. split.
    + destruct (DictTable.derive t'); [reflexivity | congruence].
    + apply negb_true_iff. apply str_includes_false. now rewrite Hid'.
Qed.

Lemma find_some_id (ts : list DictTable.t) (x : string) (t : DictTable.t) :
  find (fun t => DictTable.id t =? x) ts = Some t ->
  In t ts /\ DictTable.id t = x.
Proof.
  intros H. apply find_some in H. destruct H as [Hin Heq].
  apply String.eqb_eq in Heq. auto.
Qed.

Lemma find_id_present (ts : list DictTable.t) (t : DictTable.t) :
  In t ts ->
  exists t', find (fun u => DictTable.id u =? DictTable.id t) ts = Some t'.
Proof.
  intros Hin.
  destruct (find (fun u => DictTable.id u =? DictTable.id t) ts) eqn:Hf.
  - eauto.
  - exfalso. pose proof (find_none _ _ Hf _ Hin) as Hn. simpl in Hn.
    rewrite String.eqb_refl in Hn. discriminate.
Qed.

(** A chart whose [tableRef] is the id of a table of the state is drawn
    from a table with that id. *)
Lemma getDataTable_id_of_ref (c : Chart.t) ts cs fs (t : DictTable.t) :
  In t ts -> Chart.tableRef c = DictTable.id t ->
  DictTable.id (getDataTable c ts cs fs) = DictTable.id t.
Proof.
  intros Hin Href. unfold getDataTable. rewrite Href.
  destruct (find_id_present ts t Hin) as [t' Hf]. rewrite Hf.
  apply find_some_id in Hf. tauto.
Qed.

Lemma filter_find_some {A : Type} (keep test : A -> bool) (l : list A) (x : A) :
  find test l = Some x -> keep x = true ->
  (forall y, test y = true -> keep y = keep x -> True) ->
  exists x', find test (filter keep l) = Some x' /\ test x' = true.
Proof.
  intros Hf Hk _. induction l as [|a l IH]; simpl in *; [discriminate|].
  destruct (test a) eqn:Ha.
  - inversion Hf; subst. rewrite Hk. simpl. rewrite Ha. eauto.
  - destruct (keep a); simpl; [rewrite Ha|]; auto.
Qed.

Lemma find_filter_none {A : Type} (keep test : A -> bool) (l : list A) :
  find test l = None -> find test (filter keep l) = None.
Proof.
  induction l as [|a l IH]; simpl; [reflexivity|].
  destruct (test a) eqn:Ha; [discriminate|].
  intros H. destruct (keep a); simpl; [rewrite Ha|]; auto.
Qed.

(** Keeping tables by a test on their id does not change the id of the
    table a chart is drawn from, as long as that id is kept. *)
Lemma getDataTable_filter_by_id (keepId : string -> bool) (c : Chart.t)
    ts cs cs' fs :
  keepId (DictTable.id (getDataTable c ts cs fs)) = true ->
  DictTable.id
    (getDataTable c (filter (fun t => keepId (DictTable.id t)) ts) cs' fs)
  = DictTable.id (getDataTable c ts cs fs).
Proof.
  unfold getDataTable.
  destruct (find (fun t => DictTable.id t =? Chart.tableRef c) ts) eqn:Hf.
  - intros Hk. pose proof (find_some_id _ _ _ Hf) as [_ Hid].
    destruct (filter_find_some (fun t => keepId (DictTable.id t))
                (fun t => DictTable.id t =? Chart.tableRef c) ts t Hf Hk)
      as [t' [Hf' Ht']]; [auto|].
    rewrite Hf'. apply String.eqb_eq in Ht'. congruence.
  - intros Hk.
    rewrite (find_filter_none (fun t => keepId (DictTable.id t)) _ ts Hf).
    destruct ts as [|t0 rest]; simpl in *; [reflexivity|].
    rewrite Hk. reflexivity.
Qed.

Lemma remainingCharts_nil s : remainingCharts s [] = charts s.
Proof.
  unfold remainingCharts. apply forallb_filter_id.
  apply forallb_forall. reflexivity.
Qed.

(** Removing the tables of [idsToDelete] does not change which table ids
    the remaining charts are drawn from. *)
Lemma chartRefedTableIds_stable s chartIds :
  let s' := deleteChartsRoutine s chartIds in
  chartRefedTableIds (tables s') (charts s') (conceptShelfItems s')
  = chartRefedTableIds (tables s) (charts s') (conceptShelfItems s).
Proof.
  intros s'. unfold chartRefedTableIds. rewrite !map_map.
  apply map_ext_in. intros c Hc.
  unfold s' at 1. rewrite tables_deleteChartsRoutine.
  apply (getDataTable_filter_by_id
           (fun x => negb (str_includes (idsToDelete s chartIds) x))).
  apply negb_true_iff. apply str_includes_false. intros Hd.
  apply In_idsToDelete in Hd. destruct Hd as [_ [_ Hr]]. apply Hr.
  unfold chartRefedTableIds. rewrite map_map. apply in_map_iff.
  exists c. split; [reflexivity|].
  unfold s' in Hc. rewrite charts_deleteChartsRoutine in Hc. exact Hc.
Qed.

(** A second pass of the unreferenced-table check removes nothing. *)
Lemma deleteChartsRoutine_tables_stable s chartIds :
  tables (deleteChartsRoutine (deleteChartsRoutine s chartIds) [])
  = tables (deleteChartsRoutine s chartIds).
Proof.
  set (s' := deleteChartsRoutine s chartIds).
  rewrite (tables_deleteChartsRoutine s' []).
  apply forallb_filter_id. apply forallb_forall. intros t Hin.
  apply negb_true_iff. apply str_includes_false. intros Hdel.
  apply In_idsToDelete in Hdel.
  destruct Hdel as [[ta [Hta [Hida Ha]]] [[td [Htd [Hidd Hd]]] Hr]].
  rewrite remainingCharts_nil in Hr.
  pose proof (chartRefedTableIds_stable s chartIds) as Hst.
  cbv zeta in Hst. fold s' in Hst. rewrite Hst in Hr.
  unfold s' in Hin, Hta, Htd.
  rewrite tables_deleteChartsRoutine in Hin, Hta, Htd.
  apply filter_In in Hin. destruct Hin as [Hin Hkeep].
  apply filter_In in Hta. destruct Hta as [Hta _].
  apply filter_In in Htd. destruct Htd as [Htd _].
  apply negb_true_iff in Hkeep. apply str_includes_false in Hkeep.
  apply Hkeep. apply In_idsToDelete. split; [eauto|]. split; [eauto|].
  unfold s' in Hr. rewrite charts_deleteChartsRoutine in Hr. exact Hr.
Qed.

Lemma tables_deleteChart_subset s cid t :
  In t (tables (deleteChart s cid)) -> In t (tables s).
Proof.
  unfold deleteChart. rewrite tables_deleteChartsRoutine.
  intros H. apply filter_In in H. tauto.
Qed.

(** A table is removed by [deleteChartsRoutine] exactly when its id is one
    of [idsToDelete]. *)
Lemma In_tables_deleteChartsRoutine s chartIds t :
  In t (tables (deleteChartsRoutine s chartIds)) <->
  In t (tables s) /\ ~ In (DictTable.id t) (idsToDelete s chartIds).
Proof.
  rewrite tables_deleteChartsRoutine, filter_In, negb_true_iff,
    str_includes_false. reflexivity.
Qed.

Lemma In_remainingCharts s cid c :
  In c (remainingCharts s [cid]) <-> In c (charts s) /\ Chart.id c <> cid.
Proof.
  unfold remainingCharts. rewrite filter_In, negb_true_iff, str_includes_false.
  simpl. intuition congruence.
Qed.

(** C3 (as stated, refuted): in [sampleState] the chart c-1 is the sole
    chart on the derived, non-anchored table t-1, and t-1 is the sole source
    of the derived table t-2; deleting c-1 removes t-1 but leaves t-2, which
    the chart c-2 still references. *)
Lemma derived_table_with_own_chart_survives :
  map Chart.id
    (filter (fun c => Chart.tableRef c =? "t-1") (charts sampleState))
  = ["c-1"]
  /\ map (fun t => (DictTable.id t, DictTable.anchored t,
                    option_map derive_source (DictTable.derive t)))
       (tables sampleState)
     = [("t-root", true, None); ("t-1", false, Some ["t-root"]);
        ("t-2", false, Some ["t-1"])]
  /\ map DictTable.id (tables (deleteChart sampleState "c-1"))
     = ["t-root"; "t-2"].
Proof. repeat split. Qed.

(** C3 (amended): deleting a chart removes every derived, non-anchored
    table that no remaining chart is drawn from -- the table [t1] whose sole
    chart was deleted, and in the same pass any other such table [t2],
    whatever its source; a table a remaining chart still references by its
    [tableRef] is kept, even when its source was just removed; and the pass
    is not repeated: running the check again removes nothing. *)
Theorem deleteChart_single_pass_cascade
    (s : DataFormulatorState) (cid : string) (t1 : DictTable.t) :
  In t1 (tables s) ->
  DictTable.anchored t1 = false ->
  DictTable.derive t1 <> None ->
  (forall c, In c (charts s) -> Chart.id c <> cid ->
     DictTable.id (getDataTable c (tables s) (remainingCharts s [cid])
                     (conceptShelfItems s))
     <> DictTable.id t1) ->
  let s' := deleteChart s cid in
  ~ In t1 (tables s')
  /\ (forall t2, In t2 (tables s) ->
        DictTable.anchored t2 = false -> DictTable.derive t2 <> None ->
        (forall c, In c (charts s) -> Chart.id c <> cid ->
           DictTable.id (getDataTable c (tables s) (remainingCharts s [cid])
                           (conceptShelfItems s))
           <> DictTable.id t2) ->
        ~ In t2 (tables s'))
  /\ (forall t2 c2, In t2 (tables s) -> In c2 (charts s) ->
        Chart.id c2 <> cid -> Chart.tableRef c2 = DictTable.id t2 ->
        In t2 (tables s'))
  /\ tables (deleteChartsRoutine s' []) = tables s'.
Proof.
  intros Hin1 Ha1 Hd1 Hsole1 s'.
  assert (Hremoved : forall t2, In t2 (tables s) ->
            DictTable.anchored t2 = false -> DictTable.derive t2 <> None ->
            (forall c, In c (charts s) -> Chart.id c <> cid ->
               DictTable.id (getDataTable c (tables s)
                               (remainingCharts s [cid]) (conceptShelfItems s))
               <> DictTable.id t2) ->
            ~ In t2 (tables s')).
  { intros t2 Hin Ha Hd Hsole Hkept. unfold s', deleteChart in Hkept.
    apply In_tables_deleteChartsRoutine in Hkept. destruct Hkept as [_ Hn].
    apply Hn. apply In_idsToDelete. split; [eauto|]. split; [eauto|].
    unfold chartRefedTableIds. rewrite map_map. intros Hr.
    apply in_map_iff in Hr. destruct Hr as [c [Hid Hc]].
    apply In_remainingCharts in Hc. destruct Hc as [Hc Hne].
    exact (Hsole c Hc Hne Hid). }
  split; [apply Hremoved; assumption|]. split; [exact Hremoved|]. split.
  - intros t2 c2 Hin Hc Hne Href. unfold s', deleteChart.
    apply In_tables_deleteChartsRoutine. split; [assumption|].
    intros Hdel. apply In_idsToDelete in Hdel. destruct Hdel as [_ [_ Hr]].
    apply Hr. unfold chartRefedTableIds. rewrite map_map. apply in_map_iff.
    exists c2. split.
    + apply getDataTable_id_of_ref; assumption.
    + apply In_remainingCharts. auto.
  - apply deleteChartsRoutine_tables_stable.
Qed.

Lemma deleteChart_single_pass_cascade_witness :
  let s' := deleteChart sampleState "c-1" in
  ~ In (derivedTable "t-1" "t-root") (tables s')
  /\ (forall t2, In t2 (tables sampleState) ->
        DictTable.anchored t2 = false -> DictTable.derive t2 <> None ->
        (forall c, In c (charts sampleState) -> Chart.id c <> "c-1" ->
           DictTable.id (getDataTable c (tables sampleState)
                           (remainingCharts sampleState ["c-1"])
                           (conceptShelfItems sampleState))
           <> DictTable.id t2) ->
        ~ In t2 (tables s'))
  /\ (forall t2 c2, In t2 (tables sampleState) -> In c2 (charts sampleState) ->
        Chart.id c2 <> "c-1" -> Chart.tableRef c2 = DictTable.id t2 ->
        In t2 (tables s'))
  /\ tables (deleteChartsRoutine s' []) = tables s'.
Proof.
  apply (deleteChart_single_pass_cascade sampleState "c-1"
           (derivedTable "t-1" "t-root")).
  - simpl. auto.
  - reflexivity.
  - discriminate.
  - intros c Hc Hne. simpl in Hc.
    destruct Hc as [<-|[<-|[]]]; [exfalso; apply Hne; reflexivity|].
    vm_compute. discriminate.
Defined.

(** C4 (the code breaks it): the cascade means to spare anchored tables
    (it collects the ids of the tables with [!t.anchored]) but then removes
    tables by id, so an anchored table goes together with an unreferenced
    derived table that carries its id.  The state is one the reducers
    build: [addTable] pushes its payload without looking at the ids
    already there.  Deleting a chart empties the table list, anchored
    table included. *)
Lemma anchored_table_removed_with_its_namesake :
  clashingState
  = addChart
      (addTable (addTable initialState rootTable)
         (derivedTable "t-root" "t-root"))
      (chartOn "c-1" "t-root")
  /\ In rootTable (tables clashingState)
  /\ DictTable.anchored rootTable = true
  /\ tables (deleteCharts clashingState ["c-1"]) = [].
Proof. repeat split. simpl. auto. Qed.

Lemma anchored_survives_deleteChart s cid (t : DictTable.t) :
  In t (tables s) ->
  (forall t', In t' (tables s) -> DictTable.id t' = DictTable.id t ->
              DictTable.anchored t' = true) ->
  In t (tables (deleteChart s cid)).
Proof.
  intros Hin Hall. unfold deleteChart.
  apply In_tables_deleteChartsRoutine. split; [assumption|].
  intros Hdel. apply In_idsToDelete in Hdel.
  destruct Hdel as [[t' [Hin' [Hid Ha]]] _].
  rewrite (Hall t' Hin' Hid) in Ha. discriminate.
Qed.

(** Where the ids of the tables are distinct the guard does its work:
    through every sequence of chart deletions an anchored table stays in
    the store, however many charts reference it, provided no table that is
    not anchored carries the same id. *)
Lemma anchored_table_survives_chart_deletions
    (s : DataFormulatorState) (payloads : list string) (t : DictTable.t) :
  In t (tables s) ->
  DictTable.anchored t = true ->
  (forall t', In t' (tables s) -> DictTable.id t' = DictTable.id t ->
              DictTable.anchored t' = true) ->
  In t (tables (deleteCharts s payloads)).
Proof.
  intros Hin _. unfold deleteCharts. revert s Hin.
  induction payloads as [|p ps IH]; intros s Hin Hall; simpl; [assumption|].
  apply IH.
  - apply anchored_survives_deleteChart; assumption.
  - intros t' Hin' Hid. apply Hall; [|assumption].
    eapply tables_deleteChart_subset; eassumption.
Qed.

Lemma anchored_table_survives_chart_deletions_witness :
  In rootTable (tables (deleteCharts sampleState ["c-1"; "c-2"; "c-1"])).
Proof.
  apply (anchored_table_survives_chart_deletions sampleState
           ["c-1"; "c-2"; "c-1"] rootTable).
  - simpl. auto.
  - reflexivity.
  - intros t' Hin Hid. simpl in Hin.
    destruct Hin as [<-|[<-|[<-|[]]]]; [reflexivity | discriminate Hid
                                        | discriminate Hid].
Defined.



(* ================================================================== *)
(** * 24. Properties of the thumbnail down-sampling *)
(* ================================================================== *)

(** [getRandom] returns the fractional part of a number. *)
Lemma getRandom_range {host : JSHost} (seed : Z) :
  (0 <= getRandom seed)%Q /\ (getRandom seed < 1)%Q.
Proof.
  unfold getRandom. cbv zeta.
  set (x := (Math_sin seed * inject_Z 10000)%Q).
  pose proof (Qfloor_le x) as Hle. pose proof (Qlt_floor x) as Hlt.
  rewrite inject_Z_plus in Hlt. change (inject_Z 1) with 1%Q in Hlt.
  split; lra.
Qed.

(** The slot swapped with slot [i] is one of the slots [0..i]. *)
Lemma shuffleIndex_le {host : JSHost} (i : nat) : (shuffleIndex i <= i)%nat.
Proof.
  unfold shuffleIndex.
  set (r := getRandom (233 * Z.of_nat i + 888)).
  destruct (getRandom_range (233 * Z.of_nat i + 888)) as [H0 H1]. fold r in H0, H1.
  set (n := (Z.of_nat i + 1)%Z).
  assert (Hn : (0 < inject_Z n)%Q).
  { unfold n. rewrite <- (Zlt_Qlt 0). lia. }
  assert (Hub : (inject_Z n * r < inject_Z n)%Q).
  { setoid_replace (inject_Z n) with (inject_Z n * 1)%Q at 2 by ring.
    apply Qmult_lt_l; assumption. }
  assert (Hfl : (Qfloor (inject_Z n * r) < n)%Z).
  { rewrite Zlt_Qlt. eapply Qle_lt_trans; [apply Qfloor_le | exact Hub]. }
  assert (Hlb : (0 <= Qfloor (inject_Z n * r))%Z).
  { rewrite <- (Qfloor_Z 0). apply Qfloor_resp_le.
    apply Qmult_le_0_compat; [apply Qlt_le_weak; exact Hn | exact H0]. }
  unfold n in *. lia.
Qed.

Lemma arr_set_length_in (a : list value) (i : nat) (v : value) :
  (i < List.length a)%nat -> List.length (arr_set a i v) = List.length a.
Proof.
  revert i. induction a as [|x a IH]; intros i Hi; simpl in Hi; [lia|].
  destruct i as [|i]; simpl; [reflexivity|]. rewrite IH; [reflexivity | lia].
Qed.

Lemma swapStep_length {host : JSHost} (shuffled : list value) (i : nat) :
  (i < List.length shuffled)%nat ->
  List.length (swapStep shuffled i) = List.length shuffled.
Proof.
  intros Hi. unfold swapStep. pose proof (shuffleIndex_le i) as Hle.
  rewrite !arr_set_length_in; try reflexivity; try lia.
  rewrite arr_set_length_in; lia.
Qed.

Lemma shuffleLoop_length {host : JSHost} (i : nat) (shuffled : list value) :
  (i <= List.length shuffled)%nat ->
  List.length (shuffleLoop i shuffled) = List.length shuffled.
Proof.
  revert shuffled. induction i as [|i IH]; intros shuffled Hi; simpl;
    [reflexivity|].
  rewrite IH; rewrite swapStep_length; lia.
Qed.

(** The shuffle reads the host through the sine at the seeds
    [233 * i + 888] only. *)
Lemma shuffleLoop_seeded (h1 h2 : JSHost) (n : nat) :
  (forall i, (i < n)%nat ->
     @Math_sin h1 (233 * Z.of_nat i + 888) = @Math_sin h2 (233 * Z.of_nat i + 888)) ->
  forall shuffled, @shuffleLoop h1 n shuffled = @shuffleLoop h2 n shuffled.
Proof.
  induction n as [|n IH]; intros Hsin shuffled; simpl; [reflexivity|].
  assert (Hidx : @shuffleIndex h1 n = @shuffleIndex h2 n).
  { unfold shuffleIndex, getRandom. rewrite (Hsin n); [reflexivity | lia]. }
  unfold swapStep. rewrite Hidx. apply IH. intros i Hi. apply Hsin. lia.
Qed.

(** C9: the down-sampling step returns at most 5,000 rows, returns a list
    of at most 5,000 rows as it is, and is a function of the list and of
    the sine at the fixed seeds [233 * i + 888] alone: two hosts that agree
    there (whatever else differs between them) produce the same rows. *)
Theorem downSample_bounded_and_seeded {host : JSHost} (values : list value) :
  (List.length (downSample values) <= 5000)%nat
  /\ ((List.length values <= 5000)%nat -> downSample values = values)
  /\ (forall host' : JSHost,
        (forall i, (i < List.length values)%nat ->
           @Math_sin host' (233 * Z.of_nat i + 888)
           = @Math_sin host (233 * Z.of_nat i + 888)) ->
        @downSample host' values = @downSample host values).
Proof.
  unfold downSample. split; [|split].
  - destruct (5000 <? List.length values)%nat eqn:Hbig.
    + unfold getRandomSubarray. rewrite length_firstn. lia.
    + apply Nat.ltb_ge in Hbig. exact Hbig.
  - intros Hsmall. apply Nat.ltb_ge in Hsmall. rewrite Hsmall. reflexivity.
  - intros host' Hsin.
    destruct (5000 <? List.length values)%nat; [|reflexivity].
    unfold getRandomSubarray. f_equal. apply shuffleLoop_seeded. exact Hsin.
Qed.

(* ================================================================== *)
(** * 25. What a call of assembleVegaChart computes *)
(* ================================================================== *)

Lemma nth_error_here (h ext : heap) (c : cell) :
  nth_error (h ++ c :: ext) (List.length h) = Some c.
Proof.
  rewrite nth_error_app2 by lia. rewrite Nat.sub_diag. reflexivity.
Qed.

Lemma nth_error_below (h ext : heap) (l : loc) :
  (l < List.length h)%nat -> nth_error (h ++ ext) l = nth_error h l.
Proof. intros Hl. apply nth_error_app1. exact Hl. Qed.

Lemma heap_set_here (h ext : heap) (c c' : cell) :
  heap_set (h ++ c :: ext) (List.length h) c' = h ++ c' :: ext.
Proof.
  induction h as [|c0 h IH]; simpl; [reflexivity|]. now rewrite IH.
Qed.

Lemma update_here (h ext : heap) (v : value) (f : value -> result value) :
  update (List.length h) f (h ++ ObjCell v :: ext)
  = match f v with
    | Ok v' => Returned tt (h ++ ObjCell v' :: ext)
    | Throw e => Thrown e (h ++ ObjCell v :: ext)
    end.
Proof.
  unfold update. rewrite nth_error_here. destruct (f v); [|reflexivity].
  now rewrite heap_set_here.
Qed.

Lemma objAt_below h ext l :
  (l < List.length h)%nat -> objAt (h ++ ext) l = objAt h l.
Proof. intros Hl. unfold objAt. now rewrite nth_error_below. Qed.

Lemma fieldsAt_below h ext l :
  (l < List.length h)%nat -> fieldsAt (h ++ ext) l = fieldsAt h l.
Proof. intros Hl. unfold fieldsAt. now rewrite nth_error_below. Qed.

Lemma rowsAt_below h ext l :
  (l < List.length h)%nat -> rowsAt (h ++ ext) l = rowsAt h l.
Proof. intros Hl. unfold rowsAt. now rewrite nth_error_below. Qed.

Section Run.
Context {host : JSHost}.

(** The loop of [assembleVegaChart], run on a heap that holds the draft
    right after [h]: it computes [encodeAll] on the draft and leaves the
    rest of the heap alone. *)
Lemma forEach_encodeAll (T : ChartTemplate.t) (ct : string) (aggr : bool)
    (fl rl : loc) (h ext : heap) (em : EncodingMap) :
  (fl < List.length h)%nat -> (rl < List.length h)%nat ->
  forall vg, exists vg',
  forEach em (loopBody T ct aggr fl rl (List.length h)) (h ++ ObjCell vg :: ext)
  = match encodeAll T ct aggr (fieldsAt h fl) (rowsAt h rl) em vg with
    | Ok spec => Returned tt (h ++ ObjCell spec :: ext)
    | Throw e => Thrown e (h ++ ObjCell vg' :: ext)
    end.
Proof.
  intros Hfl Hrl. induction em as [|entry em IH]; intros vg.
  - exists vg. reflexivity.
  - cbn [encodeAll forEach]. unfold bind at 1. unfold loopBody at 1.
    unfold bind at 1. unfold readFields at 1.
    unfold bind at 1. unfold readRows at 1.
    rewrite !nth_error_below by assumption.
    fold (fieldsAt h fl). fold (rowsAt h rl).
    rewrite update_here.
    destruct (encodeChannel T ct aggr (fieldsAt h fl) (rowsAt h rl)
                (fst entry) (snd entry) vg) as [vg1|e]; cbn [rbind].
    + apply IH.
    + exists vg. reflexivity.
Qed.

(** A call on a heap [h] in which the catalogue entry and the two arrays
    are live: it returns the specification [assembleSpec] computes from
    what these three objects hold, as a new object appended to [h], or
    throws leaving [h] extended. *)
Lemma assembleVegaChart_run (ct : string) (em : EncodingMap) (fl rl : loc)
    (mx : nat) (aggr : bool) (h : heap) (i : nat) (T : ChartTemplate.t) :
  (ct =? "Table") = false ->
  getChartTemplate ct = Some (i, T) ->
  (i < List.length h)%nat -> (fl < List.length h)%nat ->
  (rl < List.length h)%nat ->
  exists ext,
  assembleVegaChart ct em fl rl mx aggr h
  = match assembleSpec T ct aggr (fieldsAt h fl) (rowsAt h rl) em
            (objAt h i) with
    | Ok spec =>
        Returned (ct, Some (List.length h))
          (h ++ [ObjCell spec;
                 RowsCell (prepareValues (fieldsAt h fl) (rowsAt h rl))])
    | Throw e => Thrown e (h ++ ext)
    end.
Proof.
  intros Hct Hget Hi Hfl Hrl. unfold assembleVegaChart. rewrite Hct, Hget.
  unfold bind at 1. unfold readObj at 1. unfold templateLoc.
  fold (objAt h i).
  unfold bind at 1. unfold alloc at 1.
  unfold assembleSpec.
  unfold bind at 1.
  destruct (forEach_encodeAll T ct aggr fl rl h [] em Hfl Hrl
              (structuredClone (objAt h i))) as [vg0 Hloop].
  rewrite Hloop. clear Hloop.
  destruct (encodeAll T ct aggr (fieldsAt h fl) (rowsAt h rl) em
              (structuredClone (objAt h i))) as [vg1|e]; cbn [rbind];
    [|eauto].
  unfold bind at 1. rewrite update_here.
  destruct (handleFaceting vg1) as [vg2|e]; cbn [rbind]; [|eauto].
  unfold bind at 1.
  assert (Hpp :
    match ChartTemplate.postProcessor T with
    | Some postProcessor =>
        rows <- readRows rl;;
        update (Datatypes.length h)
          (fun vgSpec : value => postProcessor vgSpec rows)
    | None => ret tt
    end (h ++ [ObjCell vg2])
    = match applyPostProcessor T (rowsAt h rl) vg2 with
      | Ok vg3 => Returned tt (h ++ [ObjCell vg3])
      | Throw e => Thrown e (h ++ [ObjCell vg2])
      end).
  { unfold applyPostProcessor.
    destruct (ChartTemplate.postProcessor T) as [pp|]; [|reflexivity].
    unfold bind, readRows. rewrite nth_error_below by assumption.
    fold (rowsAt h rl). rewrite update_here. reflexivity. }
  rewrite Hpp. clear Hpp.
  destruct (applyPostProcessor T (rowsAt h rl) vg2) as [vg3|e]; cbn [rbind];
    [|eauto].
  unfold bind at 1. unfold readRows at 1.
  rewrite nth_error_below by assumption. fold (rowsAt h rl).
  unfold bind at 1. unfold alloc at 1.
  unfold bind at 1. unfold readFields at 1.
  rewrite <- app_assoc. cbn [app].
  rewrite nth_error_below by assumption. fold (fieldsAt h fl).
  unfold bind at 1. unfold updateRows at 1.
  rewrite length_app. cbn [List.length]. rewrite Nat.add_1_r.
  assert (Hlen : S (List.length h) = List.length (h ++ [ObjCell vg3])).
  { rewrite length_app. simpl. lia. }
  rewrite Hlen.
  replace (h ++ [ObjCell vg3; RowsCell (rowsAt h rl)])
    with ((h ++ [ObjCell vg3]) ++ RowsCell (rowsAt h rl) :: [])
    by (rewrite <- app_assoc; reflexivity).
  rewrite nth_error_here, heap_set_here.
  unfold bind at 1. unfold readRows at 1. rewrite nth_error_here.
  rewrite <- app_assoc. cbn [app]. unfold bind at 1. rewrite update_here.
  unfold attachData.
  destruct (set_prop vg3 (KStr "data")
              (VObj [("values",
                      VArr (map VObj
                              (prepareValues (fieldsAt h fl) (rowsAt h rl))))]))
    as [spec|e]; [|eauto].
  exists []. reflexivity.
Qed.

Lemma findFrom_bound {A : Type} (test : A -> bool) (xs : list A) :
  forall i j x, findFrom test i xs = Some (j, x) ->
  (i <= j < i + List.length xs)%nat.
Proof.
  induction xs as [|a xs IH]; intros i j x H; simpl in H; [discriminate|].
  destruct (test a).
  - inversion H; subst. simpl. lia.
  - apply IH in H. simpl. lia.
Qed.

Lemma getChartTemplate_bound (ct : string) (i : nat) (T : ChartTemplate.t) :
  getChartTemplate ct = Some (i, T) -> (i < List.length catalogueHeap)%nat.
Proof.
  intros H. apply findFrom_bound in H. unfold catalogueHeap.
  rewrite length_map. lia.
Qed.

(** C6: for every chart type other than ['Table'] that the catalogue does
    not list, the call throws [Error("Chart template not found for type:
    ...")]: no specification is returned, and nothing was built or written
    (the heap is the one the call started from). *)
Theorem unknown_chart_type_is_fatal (chartType : string)
    (encodingMap : EncodingMap) (conceptShelfItems workingTable : loc)
    (maxNominalValues : nat) (aggrPreprocessed : bool) (h : heap) :
  chartType <> "Table" ->
  getChartTemplate chartType = None ->
  assembleVegaChart chartType encodingMap conceptShelfItems workingTable
    maxNominalValues aggrPreprocessed h
  = Thrown (Error ("Chart template not found for type: " ++ chartType)) h
  /\ specOf (assembleVegaChart chartType encodingMap conceptShelfItems
               workingTable maxNominalValues aggrPreprocessed h) = None.
Proof.
  intros Hne Hnone. apply String.eqb_neq in Hne.
  unfold assembleVegaChart. rewrite Hne, Hnone. split; reflexivity.
Qed.
End Run.

Lemma unknown_chart_type_is_fatal_witness :
  @assembleVegaChart sampleHost "Sankey Diagram" [("x", boundTo "f-country")]
    sampleFields sampleTable 68 false sampleHeap
  = Thrown (Error "Chart template not found for type: Sankey Diagram")
      sampleHeap
  /\ specOf (@assembleVegaChart sampleHost "Sankey Diagram"
               [("x", boundTo "f-country")] sampleFields sampleTable 68 false
               sampleHeap) = None.
Proof.
  apply (@unknown_chart_type_is_fatal sampleHost "Sankey Diagram").
  - discriminate.
  - reflexivity.
Defined.

Section Idem.
Context {host : JSHost}.

(** C7: assembling twice yields structurally identical results.  On a heap
    in which the catalogue and the two argument arrays are live, the first
    call leaves every object that existed before it as it was (the
    catalogue's skeleton objects, the field list, the rows: it writes only
    to the objects it creates); so does the second call, which therefore
    reads the same inputs and returns the same chart type with an equal
    specification, or throws the same exception. *)
Theorem assembleVegaChart_twice (chartType : string)
    (encodingMap : EncodingMap) (conceptShelfItems workingTable : loc)
    (maxNominalValues : nat) (aggrPreprocessed : bool) (h : heap) :
  (List.length catalogueHeap <= List.length h)%nat ->
  (conceptShelfItems < List.length h)%nat ->
  (workingTable < List.length h)%nat ->
  let first :=
    assembleVegaChart chartType encodingMap conceptShelfItems workingTable
      maxNominalValues aggrPreprocessed h in
  let second :=
    assembleVegaChart chartType encodingMap conceptShelfItems workingTable
      maxNominalValues aggrPreprocessed (heapOf first) in
  (forall l, (l < List.length h)%nat ->
     nth_error (heapOf first) l = nth_error h l)
  /\ (forall l, (l < List.length h)%nat ->
        nth_error (heapOf second) l = nth_error h l)
  /\ sameResult first second.
Proof.
  intros Hcat Hfl Hrl first second.
  destruct (chartType =? "Table") eqn:Hct.
  { unfold second, first, assembleVegaChart. rewrite Hct. simpl. auto. }
  destruct (getChartTemplate chartType) as [[i T]|] eqn:Hget.
  2:{ unfold second, first, assembleVegaChart. rewrite Hct, Hget. simpl.
      auto. }
  pose proof (getChartTemplate_bound _ _ _ Hget) as Hi.
  assert (Hi' : (i < List.length h)%nat) by lia.
  destruct (assembleVegaChart_run chartType encodingMap conceptShelfItems
              workingTable maxNominalValues aggrPreprocessed h i T
              Hct Hget Hi' Hfl Hrl) as [ext1 H1].
  fold first in H1.
  assert (Hh1 : exists ext, heapOf first = h ++ ext).
  { rewrite H1. destruct (assembleSpec T chartType aggrPreprocessed _ _ _ _);
      simpl; eauto. }
  destruct Hh1 as [ext Hext].
  assert (Hlen : forall l, (l < List.length h)%nat ->
            (l < List.length (heapOf first))%nat).
  { intros l Hl. rewrite Hext, length_app. lia. }
  destruct (assembleVegaChart_run chartType encodingMap conceptShelfItems
              workingTable maxNominalValues aggrPreprocessed (heapOf first) i T
              Hct Hget (Hlen _ Hi') (Hlen _ Hfl) (Hlen _ Hrl)) as [ext2 H2].
  fold second in H2.
  rewrite Hext in H2 at 1 2 3.
  rewrite fieldsAt_below, rowsAt_below, objAt_below in H2 by assumption.
  split; [|split].
  - intros l Hl. rewrite Hext. apply nth_error_below. exact Hl.
  - intros l Hl. rewrite H2.
    destruct (assembleSpec T chartType aggrPreprocessed _ _ _ _); simpl;
      rewrite Hext, <- !app_assoc; apply nth_error_below; exact Hl.
  - rewrite H1, H2.
    destruct (assembleSpec T chartType aggrPreprocessed _ _ _ _) as [spec|e];
      simpl; [|reflexivity].
    split; [reflexivity|]. exists spec. split.
    + apply nth_error_here.
    + apply nth_error_here.
Qed.
End Idem.

Lemma assembleVegaChart_twice_witness :
  sameResult
    (@assembleVegaChart sampleHost "Bar Chart"
       [("x", boundTo "f-country"); ("y", boundTo "f-population")]
       sampleFields sampleTable 68 false sampleHeap)
    (@assembleVegaChart sampleHost "Bar Chart"
       [("x", boundTo "f-country"); ("y", boundTo "f-population")]
       sampleFields sampleTable 68 false
       (heapOf (@assembleVegaChart sampleHost "Bar Chart"
                  [("x", boundTo "f-country"); ("y", boundTo "f-population")]
                  sampleFields sampleTable 68 false sampleHeap))).
Proof.
  destruct (@assembleVegaChart_twice sampleHost "Bar Chart"
              [("x", boundTo "f-country"); ("y", boundTo "f-population")]
              sampleFields sampleTable 68 false sampleHeap)
    as [_ [_ H]].
  - vm_compute. lia.
  - vm_compute. lia.
  - vm_compute. lia.
  - exact H.
Defined.

Lemma heap_set_same (h : heap) (l : loc) (c : cell) :
  nth_error h l = Some c -> heap_set h l c = h.
Proof.
  revert l. induction h as [|c0 h IH]; intros l H; destruct l; simpl in *;
    try discriminate; try reflexivity.
  - now inversion H.
  - now rewrite IH.
Qed.

Section Blank.
Context {host : JSHost}.

Lemma findField_unbound (encoding : EncodingItem) fields :
  nonempty (fieldID encoding) = false -> findField encoding fields = None.
Proof.
  unfold findField, nonempty. destruct (fieldID encoding) as [fid|];
    [|reflexivity].
  intros H. rewrite H. reflexivity.
Qed.

Lemma handleSorting_unsorted channel (encoding : EncodingItem) field eo vg :
  nonempty (sortBy encoding) = false -> isSome (sortOrder encoding) = false ->
  handleSorting channel encoding field eo vg = (eo, vg).
Proof. intros H1 H2. unfold handleSorting. rewrite H1, H2. reflexivity. Qed.

Lemma handleStacking_unstacked (encoding : EncodingItem) eo :
  isSome (stack encoding) = false -> handleStacking encoding eo = eo.
Proof.
  unfold handleStacking. destruct (stack encoding); [discriminate|reflexivity].
Qed.

Lemma handleScheme_plain (encoding : EncodingItem) eo :
  nonempty (scheme encoding) = false -> handleScheme encoding eo = eo.
Proof.
  unfold handleScheme, nonempty. destruct (scheme encoding) as [s|];
    [|reflexivity].
  intros H. apply negb_false_iff in H. rewrite H. reflexivity.
Qed.

Lemma resolveEncoding_blank ct aggr fields rows channel encoding vg :
  blankEncoding channel encoding aggr = true ->
  resolveEncoding ct aggr fields rows channel encoding vg = ([], vg).
Proof.
  unfold blankEncoding. intros H.
  repeat (apply andb_true_iff in H; destruct H as [H ?]).
  repeat match goal with
         | Hn : negb _ = true |- _ => apply negb_true_iff in Hn
         end.
  unfold resolveEncoding, resolveField.
  rewrite (findField_unbound encoding fields) by assumption.
  unfold countWithoutField, initialEncodingObj.
  match goal with Hr : (channel =? "radius") = false |- _ => rewrite Hr end.
  cbn [isSome negb andb].
  match goal with
  | Hc : isCount (aggregate encoding) && aggr = false |- _ => rewrite Hc
  end.
  rewrite handleSorting_unsorted by assumption.
  rewrite handleStacking_unstacked by assumption.
  rewrite handleScheme_plain by assumption.
  reflexivity.
Qed.

Lemma encodeChannel_blank T ct aggr fields rows channel encoding vg :
  blankEncoding channel encoding aggr = true ->
  encodeChannel T ct aggr fields rows channel encoding vg = Ok vg.
Proof.
  intros H. unfold encodeChannel. rewrite (resolveEncoding_blank _ _ _ _ _ _ _ H).
  destruct (lookupPaths (ChartTemplate.paths T) channel); reflexivity.
Qed.

Lemma loopBody_blank T ct aggr fl rl vgObj channel encoding h :
  blankEncoding channel encoding aggr = true ->
  loopBody T ct aggr fl rl vgObj (channel, encoding) h = Returned tt h.
Proof.
  intros H. unfold loopBody, bind, readFields, readRows, update. cbn [fst snd].
  destruct (nth_error h vgObj) as [[v|fs|rs]|] eqn:Hc; try reflexivity.
  rewrite (encodeChannel_blank _ _ _ _ _ _ _ _ H).
  rewrite (heap_set_same _ _ _ Hc). reflexivity.
Qed.

Lemma forEach_skip {A : Type} (body : A -> M unit) (x : A) (xs ys : list A) :
  (forall h, body x h = Returned tt h) ->
  forall h, forEach (xs ++ x :: ys) body h = forEach (xs ++ ys) body h.
Proof.
  intros Hx. induction xs as [|a xs IH]; intros h; cbn [app forEach].
  - unfold bind. rewrite Hx. reflexivity.
  - unfold bind. destruct (body a h); [apply IH | reflexivity].
Qed.

End Blank.

(* ================================================================== *)
(** * 26. Objects as association lists *)
(* ================================================================== *)

Lemma obj_get_set_same (o : object) (k : string) (v : value) :
  obj_get (obj_set o k v) k = v.
Proof.
  induction o as [|[k' v'] o IH]; simpl.
  - now rewrite String.eqb_refl.
  - destruct (k' =? k) eqn:E; simpl; rewrite E; [reflexivity | exact IH].
Qed.

Lemma obj_get_set_other (o : object) (k k' : string) (v : value) :
  k <> k' -> obj_get (obj_set o k' v) k = obj_get o k.
Proof.
  intros Hne. induction o as [|[k0 v0] o IH]; simpl.
  - destruct (k' =? k) eqn:E; [apply String.eqb_eq in E; congruence|reflexivity].
  - destruct (k0 =? k') eqn:E; simpl.
    + apply String.eqb_eq in E. subst k0.
      destruct (k' =? k) eqn:E'; [apply String.eqb_eq in E'; congruence|].
      reflexivity.
    + destruct (k0 =? k); [reflexivity | exact IH].
Qed.

Lemma obj_get_delete_other (o : object) (k k' : string) :
  k <> k' -> obj_get (obj_delete o k') k = obj_get o k.
Proof.
  intros Hne. induction o as [|[k0 v0] o IH]; simpl; [reflexivity|].
  destruct (k0 =? k') eqn:E; simpl.
  - apply String.eqb_eq in E. subst k0.
    destruct (k' =? k) eqn:E'; [apply String.eqb_eq in E'; congruence|].
    reflexivity.
  - destruct (k0 =? k); [reflexivity | exact IH].
Qed.

Lemma obj_get_absent (o : object) (k : string) :
  ~ In k (map fst o) -> obj_get o k = VUndefined.
Proof.
  induction o as [|[k0 v0] o IH]; simpl; [reflexivity|].
  intros Hn. destruct (k0 =? k) eqn:E.
  - apply String.eqb_eq in E. exfalso. apply Hn. now left.
  - apply IH. intros H. apply Hn. now right.
Qed.

Lemma obj_has_In (o : object) (k : string) :
  obj_has o k = true <-> In k (map fst o).
Proof.
  induction o as [|[k0 v0] o IH]; simpl; [split; [discriminate | tauto]|].
  rewrite orb_true_iff, IH, String.eqb_eq. tauto.
Qed.

Lemma keys_obj_set (o : object) (k : string) (v : value) :
  map fst (obj_set o k v)
  = if obj_has o k then map fst o else map fst o ++ [k].
Proof.
  induction o as [|[k0 v0] o IH]; simpl; [reflexivity|].
  destruct (k0 =? k) eqn:E; simpl; [reflexivity|].
  rewrite IH. destruct (obj_has o k); reflexivity.
Qed.

Lemma uniqueKeys_obj_set (o : object) (k : string) (v : value) :
  uniqueKeys o -> uniqueKeys (obj_set o k v).
Proof.
  unfold uniqueKeys. intros H. rewrite keys_obj_set.
  destruct (obj_has o k) eqn:E; [exact H|].
  apply NoDup_app; [exact H | repeat constructor; simpl; tauto |].
  intros x Hx [Hk|[]]. subst x.
  apply obj_has_In in Hx. congruence.
Qed.

Lemma keys_obj_delete_subset (o : object) (k x : string) :
  In x (map fst (obj_delete o k)) -> In x (map fst o).
Proof.
  induction o as [|[k0 v0] o IH]; simpl; [tauto|].
  destruct (k0 =? k); simpl; [tauto|]. intros [H|H]; auto.
Qed.

Lemma uniqueKeys_obj_delete (o : object) (k : string) :
  uniqueKeys o -> uniqueKeys (obj_delete o k).
Proof.
  unfold uniqueKeys. induction o as [|[k0 v0] o IH]; simpl; [auto|].
  intros H. inversion H as [|? ? Hn Hnd]; subst.
  destruct (k0 =? k); simpl; [exact Hnd|].
  constructor; [|auto]. intros Hin. apply Hn.
  eapply keys_obj_delete_subset; eassumption.
Qed.

Lemma obj_get_delete_same (o : object) (k : string) :
  uniqueKeys o -> obj_get (obj_delete o k) k = VUndefined.
Proof.
  unfold uniqueKeys. induction o as [|[k0 v0] o IH]; simpl; [reflexivity|].
  intros H. inversion H as [|? ? Hn Hnd]; subst.
  destruct (k0 =? k) eqn:E; simpl.
  - apply String.eqb_eq in E. subst k0. apply obj_get_absent. exact Hn.
  - rewrite E. auto.
Qed.

Lemma uniqueKeys_obj_set_in (o : object) (k sub : string) (v : value) :
  uniqueKeys o -> uniqueKeys (obj_set_in o k sub v).
Proof.
  intros H. unfold obj_set_in. destruct (obj_get o k); try exact H.
  now apply uniqueKeys_obj_set.
Qed.

(** Writing the entries of an object with distinct keys, one after the
    other, into an object that has none of them appends them. *)
Lemma fold_obj_set_fresh (l acc : object) :
  uniqueKeys l -> (forall k, In k (map fst l) -> ~ In k (map fst acc)) ->
  fold_left (fun o kv => obj_set o (fst kv) (snd kv)) l acc = acc ++ l.
Proof.
  unfold uniqueKeys. revert acc.
  induction l as [|[k v] l IH]; intros acc Hnd Hfresh; simpl.
  - now rewrite app_nil_r.
  - inversion Hnd as [|? ? Hn Hnd']; subst.
    assert (Hset : obj_set acc k v = acc ++ [(k, v)]).
    { assert (Hk : ~ In k (map fst acc)) by (apply Hfresh; simpl; auto).
      clear - Hk. induction acc as [|[k0 v0] acc IHa]; simpl; [reflexivity|].
      destruct (k0 =? k) eqn:E.
      - apply String.eqb_eq in E. exfalso. apply Hk. simpl. auto.
      - rewrite IHa; [reflexivity|]. intros H. apply Hk. simpl. auto. }
    rewrite Hset. rewrite IH; [now rewrite <- app_assoc | exact Hnd' |].
    intros x Hx. rewrite map_app, in_app_iff. simpl.
    intros [Hacc|[Hk|[]]].
    + apply (Hfresh x); simpl; auto.
    + subst x. contradiction.
Qed.

Lemma Object_fromEntries_unique (o : object) :
  uniqueKeys o -> Object_fromEntries o = o.
Proof.
  intros H. unfold Object_fromEntries.
  rewrite fold_obj_set_fresh; [reflexivity | exact H | simpl; tauto].
Qed.

(** After [Object.fromEntries([...pre, ...o])], a key of [o] holds what it
    holds in [o]. *)
Lemma fold_obj_set_get (l acc : object) (k : string) :
  uniqueKeys l -> obj_has l k = true ->
  obj_get (fold_left (fun o kv => obj_set o (fst kv) (snd kv)) l acc) k
  = obj_get l k.
Proof.
  unfold uniqueKeys. revert acc.
  induction l as [|[k0 v0] l IH]; intros acc Hnd Hhas; simpl in *;
    [discriminate|].
  inversion Hnd as [|? ? Hn Hnd']; subst.
  destruct (k0 =? k) eqn:E.
  - apply String.eqb_eq in E. subst k0.
    assert (Hkeep : forall l' acc', ~ In k (map fst l') ->
              obj_get (fold_left (fun o kv => obj_set o (fst kv) (snd kv))
                         l' acc') k = obj_get acc' k).
    { clear. induction l' as [|[k1 v1] l' IHl]; intros acc' Hk; simpl;
        [reflexivity|].
      rewrite IHl; [|intros H; apply Hk; simpl; auto].
      apply obj_get_set_other. intros ->. apply Hk. simpl. auto. }
    rewrite Hkeep by exact Hn. apply obj_get_set_same.
  - simpl in Hhas. apply IH; assumption.
Qed.

Lemma fold_obj_set_get_other (l acc : object) (k : string) :
  obj_has l k = false ->
  obj_get (fold_left (fun o kv => obj_set o (fst kv) (snd kv)) l acc) k
  = obj_get acc k.
Proof.
  revert acc. induction l as [|[k0 v0] l IH]; intros acc Hhas; simpl in *;
    [reflexivity|].
  apply orb_false_iff in Hhas. destruct Hhas as [E Hhas].
  rewrite IH by exact Hhas. apply obj_get_set_other.
  apply String.eqb_neq in E. congruence.
Qed.

Lemma Object_fromEntries_get (pre o : object) (k : string) :
  uniqueKeys o -> obj_has o k = true ->
  obj_get (Object_fromEntries (pre ++ o)) k = obj_get o k.
Proof.
  intros Hu Hh. unfold Object_fromEntries. rewrite fold_left_app.
  now apply fold_obj_set_get.
Qed.

(* ================================================================== *)
(** * 27. The encoding object of a channel *)
(* ================================================================== *)

Lemma sub_get_set_other (o : object) (k k' sub : string) (v : value) :
  k <> k' -> sub_get (obj_set o k' v) k sub = sub_get o k sub.
Proof. intros H. unfold sub_get. now rewrite obj_get_set_other. Qed.

Lemma sub_get_set_in_other (o : object) (k k' sub s : string) (v : value) :
  k <> k' -> sub_get (obj_set_in o k' s v) k sub = sub_get o k sub.
Proof.
  intros H. unfold obj_set_in. destruct (obj_get o k'); try reflexivity.
  now apply sub_get_set_other.
Qed.

Lemma sub_get_set_in_sibling (o : object) (k sub s : string) (v : value) :
  sub <> s -> sub_get (obj_set_in o k s v) k sub = sub_get o k sub.
Proof.
  intros H. unfold obj_set_in, sub_get.
  destruct (obj_get o k) eqn:E; rewrite ?E; try reflexivity.
  rewrite obj_get_set_same. now apply obj_get_set_other.
Qed.

Lemma obj_has_set (o : object) (k k' : string) (v : value) :
  obj_has (obj_set o k' v) k = (k' =? k) || obj_has o k.
Proof.
  induction o as [|[k0 v0] o IH]; simpl; [reflexivity|].
  destruct (k0 =? k') eqn:E; simpl.
  - apply String.eqb_eq in E. subst k0.
    destruct (k' =? k); reflexivity.
  - rewrite IH. destruct (k0 =? k), (k' =? k); reflexivity.
Qed.

Lemma obj_has_set_in (o : object) (k k' s : string) (v : value) :
  obj_has (obj_set_in o k' s v) k = obj_has o k.
Proof.
  unfold obj_set_in. destruct (obj_get o k') eqn:E; try reflexivity.
  rewrite obj_has_set. destruct (k' =? k) eqn:E'; [|reflexivity].
  apply String.eqb_eq in E'. subst k'. simpl. symmetry.
  apply obj_has_In. destruct (obj_has o k) eqn:Hh; [now apply obj_has_In|].
  exfalso. assert (Hn : ~ In k (map fst o)).
  { intros Hin. apply obj_has_In in Hin. congruence. }
  rewrite (obj_get_absent o k Hn) in E. discriminate.
Qed.

Section ResolvedObject.
Context {host : JSHost}.

Lemma handleSorting_fst channel encoding field eo vg vg' :
  fst (handleSorting channel encoding field eo vg)
  = fst (handleSorting channel encoding field eo vg').
Proof.
  unfold handleSorting.
  destruct (nonempty (sortBy encoding) || isSome (sortOrder encoding));
    [|reflexivity].
  destruct (sortBy encoding) as [by_|]; [|reflexivity].
  destruct ((by_ =? "") || (by_ =? "default")); [reflexivity|].
  destruct ((by_ =? "x") || (by_ =? "y")); [reflexivity|].
  unfold sortByValues.
  destruct (JSON_parse by_) as [parsed|]; [|reflexivity].
  destruct (get_prop parsed (KStr "values")) as [sv|]; [|reflexivity].
  destruct (match match sortOrder encoding with
                  | Some o => o
                  | None => ascending
                  end with
            | ascending => Ok sv
            | descending => Array_reverse sv
            end) as [sorted|]; [|reflexivity].
  destruct (channel =? "color"); [|reflexivity].
  destruct (stackedOrder field vg), (stackedOrder field vg'); reflexivity.
Qed.

Lemma resolveEncoding_fst ct aggr fields rows channel encoding vg :
  fst (resolveEncoding ct aggr fields rows channel encoding vg)
  = encodingObjOf ct aggr fields rows channel encoding.
Proof.
  unfold encodingObjOf, resolveEncoding.
  pose proof (handleSorting_fst channel encoding
                (findField encoding fields)
                (resolveField ct aggr fields rows channel encoding)
                vg VUndefined) as H.
  destruct (handleSorting channel encoding (findField encoding fields)
              (resolveField ct aggr fields rows channel encoding) vg)
    as [eo1 vg1].
  destruct (handleSorting channel encoding (findField encoding fields)
              (resolveField ct aggr fields rows channel encoding) VUndefined)
    as [eo2 vg2].
  simpl in *. now subst.
Qed.

Lemma uniqueKeys_initial channel : uniqueKeys (initialEncodingObj channel).
Proof.
  unfold initialEncodingObj, uniqueKeys.
  destruct (channel =? "radius"); simpl; repeat constructor; simpl; tauto.
Qed.

Lemma uniqueKeys_withField ct channel encoding aggr rows f eo :
  uniqueKeys eo -> uniqueKeys (withField ct channel encoding aggr rows f eo).
Proof.
  intros H. unfold withField, colorDomain, lineChartScale, handleAggregation,
    fieldAndType.
  repeat match goal with
         | |- uniqueKeys (if ?c then _ else _) => destruct c
         | |- uniqueKeys (match ?c with _ => _ end) => destruct c
         | |- uniqueKeys (obj_set _ _ _) => apply uniqueKeys_obj_set
         | |- uniqueKeys (obj_set_in _ _ _ _) => apply uniqueKeys_obj_set_in
         end; exact H.
Qed.

Lemma uniqueKeys_resolveField ct aggr fields rows channel encoding :
  uniqueKeys (resolveField ct aggr fields rows channel encoding).
Proof.
  unfold resolveField.
  assert (H0 : uniqueKeys
                 (countWithoutField encoding aggr (findField encoding fields)
                    (initialEncodingObj channel))).
  { unfold countWithoutField.
    destruct (negb (isSome (findField encoding fields))
              && isCount (aggregate encoding) && aggr);
      repeat apply uniqueKeys_obj_set; apply uniqueKeys_initial. }
  destruct (findField encoding fields); [|exact H0].
  now apply uniqueKeys_withField.
Qed.

Lemma uniqueKeys_handleSorting channel encoding field eo vg :
  uniqueKeys eo ->
  uniqueKeys (fst (handleSorting channel encoding field eo vg)).
Proof.
  intros H. unfold handleSorting, sortByValues.
  repeat match goal with
         | |- uniqueKeys (fst (if ?c then _ else _)) => destruct c
         | |- uniqueKeys (fst (match ?c with _ => _ end)) => destruct c
         | |- uniqueKeys (fst (_, _)) => cbn [fst]
         | |- uniqueKeys (obj_set _ _ _) => apply uniqueKeys_obj_set
         end; exact H.
Qed.

Lemma uniqueKeys_encodingObjOf ct aggr fields rows channel encoding :
  uniqueKeys (encodingObjOf ct aggr fields rows channel encoding).
Proof.
  unfold encodingObjOf, resolveEncoding.
  pose proof (uniqueKeys_handleSorting channel encoding
                (findField encoding fields)
                (resolveField ct aggr fields rows channel encoding) VUndefined
                (uniqueKeys_resolveField ct aggr fields rows channel encoding))
    as H.
  destruct (handleSorting channel encoding (findField encoding fields)
              (resolveField ct aggr fields rows channel encoding) VUndefined)
    as [eo1 vg1].
  cbn [fst] in *. unfold handleScheme, handleStacking.
  repeat match goal with
         | |- uniqueKeys (if ?c then _ else _) => destruct c
         | |- uniqueKeys (match ?c with _ => _ end) => destruct c
         | |- uniqueKeys (obj_set _ _ _) => apply uniqueKeys_obj_set
         | |- uniqueKeys (obj_set_in _ _ _ _) => apply uniqueKeys_obj_set_in
         end; exact H.
Qed.
End ResolvedObject.

(* ================================================================== *)
(** * 28. Colour-domain stabilisation *)
(* ================================================================== *)

Lemma number_eqb_sym (a b : number) : number_eqb a b = number_eqb b a.
Proof.
  destruct a as [|s|x], b as [|t|y]; simpl; try reflexivity.
  - destruct s, t; reflexivity.
  - destruct (Qeq_bool x y) eqn:E, (Qeq_bool y x) eqn:E'; try reflexivity.
    + apply Qeq_bool_iff in E. symmetry in E. apply Qeq_bool_iff in E.
      congruence.
    + apply Qeq_bool_iff in E'. symmetry in E'. apply Qeq_bool_iff in E'.
      congruence.
Qed.

Lemma number_eqb_trans (a b c : number) :
  number_eqb a b = true -> number_eqb b c = true -> number_eqb a c = true.
Proof.
  destruct a as [|s|x], b as [|t|y], c as [|u|z]; simpl; try discriminate;
    try tauto.
  - destruct s, t, u; simpl; auto.
  - intros H1 H2. apply Qeq_bool_iff in H1, H2. apply Qeq_bool_iff.
    now rewrite H1.
Qed.

Lemma SameValueZero_sym (a b : value) :
  SameValueZero a b = SameValueZero b a.
Proof.
  destruct a as [| |x|x|x|x|x|x], b as [| |y|y|y|y|y|y]; simpl;
    try reflexivity;
    try (destruct x; reflexivity); try (destruct y; reflexivity).
  - destruct x as [|s|q], y as [|t|r]; try reflexivity.
    + apply (number_eqb_sym (Infinity s) (Infinity t)).
    + apply (number_eqb_sym (Finite q) (Finite r)).
  - apply String.eqb_sym.
Qed.

Lemma SameValueZero_trans (a b c : value) :
  SameValueZero a b = true -> SameValueZero b c = true ->
  SameValueZero a c = true.
Proof.
  destruct a as [| |x|x|x|x|x|x], b as [| |y|y|y|y|y|y]; simpl;
    try discriminate; try (destruct x; discriminate);
    try (destruct y; discriminate);
    destruct c as [| |z|z|z|z|z|z]; simpl;
    try discriminate; try tauto; try (destruct y; discriminate);
    try (destruct x; discriminate); try (destruct z; discriminate).
  - destruct x, y, z; simpl; auto.
  - destruct x as [|s|q], y as [|t|r], z as [|u|w]; simpl;
      try discriminate; try tauto.
    + apply (number_eqb_trans (Infinity s) (Infinity t) (Infinity u)).
    + apply (number_eqb_trans (Finite q) (Finite r) (Finite w)).
  - intros H1 H2. apply String.eqb_eq in H1, H2. apply String.eqb_eq.
    congruence.
Qed.

Lemma includes_app (l1 l2 : list value) (v : value) :
  includes (l1 ++ l2) v = includes l1 v || includes l2 v.
Proof. unfold includes. apply existsb_app. Qed.

Lemma uniq_from_spec (arr seen : list value) :
  (forall y, In y (uniq_from seen arr) -> includes seen y = false)
  /\ distinctValues (uniq_from seen arr).
Proof.
  revert seen. induction arr as [|x arr IH]; intros seen; simpl;
    [split; [intros y [] | exact I]|].
  destruct (includes seen x) eqn:E; [apply IH|].
  destruct (IH (seen ++ [x])) as [Hseen Hd]. split.
  - intros y [<-|Hy]; [exact E|].
    pose proof (Hseen y Hy) as H. rewrite includes_app in H.
    apply orb_false_iff in H. tauto.
  - simpl. split; [|exact Hd]. intros y Hy.
    pose proof (Hseen y Hy) as H. rewrite includes_app in H.
    apply orb_false_iff in H. destruct H as [_ H]. simpl in H.
    rewrite orb_false_r in H. exact H.
Qed.

Lemma Set_values_distinct (arr : list value) :
  distinctValues (Set_values arr).
Proof. apply (uniq_from_spec arr []). Qed.

Lemma includes_In (l : list value) (v : value) :
  includes l v = true <-> exists d, In d l /\ SameValueZero d v = true.
Proof. unfold includes. apply existsb_exists. Qed.

(** Counting: distinct values that all occur in [l2], which holds one more
    value that is none of them, are fewer than the entries of [l2]. *)
Lemma distinct_subset_shorter (l1 : list value) :
  forall l2 : list value,
  distinctValues l1 ->
  (forall x, In x l1 -> includes l2 x = true) ->
  (exists d0, In d0 l2 /\ includes l1 d0 = false) ->
  (List.length l1 < List.length l2)%nat.
Proof.
  induction l1 as [|x l1 IH]; intros l2 Hd Hsub [d0 [Hd0 Hnot]].
  - destruct l2; simpl in *; [contradiction | lia].
  - simpl in Hd. destruct Hd as [Hx Hd].
    destruct (proj1 (includes_In l2 x) (Hsub x (or_introl eq_refl)))
      as [d [Hdin Hdx]].
    apply in_split in Hdin. destruct Hdin as [a [b ->]].
    assert (Hlt : (List.length l1 < List.length (a ++ b))%nat).
    { apply IH; [exact Hd | |].
      - intros y Hy.
        destruct (proj1 (includes_In _ y) (Hsub y (or_intror Hy)))
          as [d' [Hd'in Hd'y]].
        apply includes_In. exists d'. split; [|exact Hd'y].
        apply in_app_or in Hd'in. apply in_or_app.
        destruct Hd'in as [H|[H|H]]; [now left | | now right].
        subst d'. exfalso.
        assert (Hxy : SameValueZero x y = true).
        { apply (SameValueZero_trans x d y); [|exact Hd'y].
          rewrite SameValueZero_sym. exact Hdx. }
        rewrite (Hx y Hy) in Hxy. discriminate.
      - exists d0. split.
        + apply in_app_or in Hd0. apply in_or_app.
          destruct Hd0 as [H|[H|H]]; [now left | | now right].
          subst d0. exfalso. simpl in Hnot.
          apply orb_false_iff in Hnot. destruct Hnot as [Hnot _].
          rewrite SameValueZero_sym in Hnot. congruence.
        + simpl in Hnot. apply orb_false_iff in Hnot. tauto. }
    rewrite length_app in *. simpl. lia.
Qed.

Lemma pinned_obj_set D L eo k v :
  k <> "scale" -> k <> "legend" -> pinned D L eo -> pinned D L (obj_set eo k v).
Proof.
  intros H1 H2 [Hs [Hl [Hd Hv]]]. unfold pinned.
  rewrite !obj_has_set, Hs, Hl, !orb_true_r.
  rewrite !sub_get_set_other by congruence. auto.
Qed.

Lemma pinned_scale_in D L eo s v :
  s <> "domain" -> pinned D L eo -> pinned D L (obj_set_in eo "scale" s v).
Proof.
  intros H1 [Hs [Hl [Hd Hv]]]. unfold pinned.
  rewrite !obj_has_set_in.
  rewrite sub_get_set_in_sibling by congruence.
  rewrite sub_get_set_in_other by discriminate. auto.
Qed.

Lemma pinned_legend_in D L eo s v :
  s <> "values" -> pinned D L eo -> pinned D L (obj_set_in eo "legend" s v).
Proof.
  intros H1 [Hs [Hl [Hd Hv]]]. unfold pinned.
  rewrite !obj_has_set_in.
  rewrite sub_get_set_in_sibling by congruence.
  rewrite sub_get_set_in_other by discriminate. auto.
Qed.

Lemma pinned_truthy D L eo :
  pinned (VArr D) (VArr L) eo ->
  truthy (obj_get eo "scale") = true /\ truthy (obj_get eo "legend") = true.
Proof.
  intros [_ [_ [Hd Hv]]]. unfold sub_get in *.
  destruct (obj_get eo "scale"); try discriminate.
  destruct (obj_get eo "legend"); try discriminate. auto.
Qed.

Section ColourDomain.
Context {host : JSHost}.

Lemma strictSuperset_check (f : FieldItem.t) (rows : list object) :
  strictSuperset (FieldItem.domain f) (presentValues rows f) ->
  forallb (fun v => includes (FieldItem.domain f) v) (presentValues rows f)
  && (List.length (presentValues rows f) <? List.length (FieldItem.domain f))%nat
  = true.
Proof.
  intros [Hsub Hmore]. apply andb_true_iff. split.
  - apply forallb_forall. exact Hsub.
  - apply Nat.ltb_lt. apply distinct_subset_shorter.
    + apply Set_values_distinct.
    + exact Hsub.
    + exact Hmore.
Qed.

Lemma handleSorting_pinned D L channel encoding field eo vg :
  pinned D L eo -> pinned D L (fst (handleSorting channel encoding field eo vg)).
Proof.
  intros H. unfold handleSorting, sortByValues.
  repeat match goal with
         | |- pinned _ _ (fst (if ?c then _ else _)) => destruct c
         | |- pinned _ _ (fst (match ?c with _ => _ end)) => destruct c
         | |- pinned _ _ (fst (_, _)) => cbn [fst]
         | |- pinned _ _ (obj_set _ _ _) =>
             apply pinned_obj_set; [discriminate | discriminate |]
         end; exact H.
Qed.

(** Colour-domain stabilisation, on the encoding object: a field bound to
    the colour channel with nominal display type whose domain is a strict
    superset of the values present pins [scale.domain] to the sorted
    distinct domain and [legend.values] to the sorted present values,
    whatever the sort, stack and scheme settings add. *)
Lemma colour_encoding_pinned ct aggr fields rows encoding f :
  findField encoding fields = Some f ->
  displayType aggr rows "color" encoding f = VStr "nominal" ->
  strictSuperset (FieldItem.domain f) (presentValues rows f) ->
  pinned (VArr (Array_sort (Set_values (FieldItem.domain f))))
    (VArr (Array_sort (presentValues rows f)))
    (encodingObjOf ct aggr fields rows "color" encoding).
Proof.
  intros Hf Hty Hsup.
  unfold encodingObjOf, resolveEncoding.
  assert (Hres : pinned (VArr (Array_sort (Set_values (FieldItem.domain f))))
                   (VArr (Array_sort (presentValues rows f)))
                   (resolveField ct aggr fields rows "color" encoding)).
  { unfold resolveField. rewrite Hf. unfold countWithoutField.
    cbn [isSome negb andb]. unfold withField.
    unfold displayType in Hty.
    set (eo2 := handleAggregation encoding aggr f
                  (fieldAndType "color" rows f (initialEncodingObj "color")))
      in *.
    unfold lineChartScale. rewrite Hty.
    change (strict_equal (VStr "nominal") (VStr "quantitative")) with false.
    cbn [andb].
    unfold colorDomain. rewrite Hty.
    change (strict_equal (VStr "nominal") (VStr "nominal") && ("color" =? "color"))
      with true. cbv iota.
    fold (presentValues rows f).
    rewrite (strictSuperset_check f rows Hsup).
    set (D := VArr (Array_sort (Set_values (FieldItem.domain f)))).
    set (L := VArr (Array_sort (presentValues rows f))).
    assert (H0 : pinned D L
                   (obj_set (obj_set eo2 "scale" (VObj [("domain", D)]))
                      "legend" (VObj [("values", L)]))).
    { unfold pinned. rewrite !obj_has_set. simpl.
      unfold sub_get. rewrite obj_get_set_same.
      rewrite obj_get_set_other by discriminate.
      rewrite obj_get_set_same. simpl. auto. }
    set (eoA := obj_set (obj_set eo2 "scale" (VObj [("domain", D)]))
                  "legend" (VObj [("values", L)])) in *.
    assert (H1 : pinned D L
                   (if (16 <=? List.length (presentValues rows f))%nat
                    then
                      obj_set_in
                        (obj_set_in
                           (if negb (truthy (obj_get eoA "legend"))
                            then obj_set eoA "legend" (VObj [])
                            else eoA) "legend" "symbolSize" (num 12))
                        "legend" "labelFontSize" (num 8)
                    else eoA)).
    { destruct (16 <=? List.length (presentValues rows f))%nat; [|exact H0].
      destruct (pinned_truthy _ _ _ H0) as [_ Hl]. rewrite Hl. cbn [negb].
      apply pinned_legend_in; [discriminate|].
      apply pinned_legend_in; [discriminate|]. exact H0. }
    match goal with
    | H1 : pinned D L ?eoB |- _ => set (eoB' := eoB) in *
    end.
    destruct (16 <=? List.length (Set_values (FieldItem.domain f)))%nat;
      [|exact H1].
    destruct (pinned_truthy _ _ _ H1) as [Hs _]. rewrite Hs. cbn [negb].
    apply pinned_scale_in; [discriminate | exact H1]. }
  pose proof (handleSorting_pinned _ _ "color" encoding (findField encoding fields)
                _ VUndefined Hres) as Hsort.
  destruct (handleSorting "color" encoding (findField encoding fields)
              (resolveField ct aggr fields rows "color" encoding) VUndefined)
    as [eo1 vg1].
  cbn [fst] in *.
  assert (Hstack : pinned (VArr (Array_sort (Set_values (FieldItem.domain f))))
                     (VArr (Array_sort (presentValues rows f)))
                     (handleStacking encoding eo1)).
  { unfold handleStacking. destruct (stack encoding) as [[| | |]|];
      try exact Hsort; apply pinned_obj_set; try discriminate; exact Hsort. }
  unfold handleScheme. destruct (scheme encoding) as [s|]; [|exact Hstack].
  destruct (s =? ""); [exact Hstack|].
  destruct Hstack as [Hs Hrest]. rewrite Hs.
  apply pinned_scale_in; [discriminate|]. split; assumption.
Qed.
End ColourDomain.

(* ================================================================== *)
(** * 29. Templates with a single [encoding] block *)
(* ================================================================== *)

Lemma isEncodingPath_eq (c : string) (po : pathObj) :
  isEncodingPath c po = true -> po = OnePath [KStr "encoding"; KStr c].
Proof.
  destruct po as [[|[a|] [|[b|] [|]]]|]; simpl; try discriminate.
  intros H. apply andb_true_iff in H. destruct H as [Ha Hb].
  apply String.eqb_eq in Ha, Hb. now subst.
Qed.

Lemma flatPaths_lookup (paths : list (string * pathObj)) (c : string)
    (po : pathObj) :
  flatPaths paths = true -> lookupPaths paths c = Some po ->
  po = OnePath [KStr "encoding"; KStr c].
Proof.
  unfold flatPaths. induction paths as [|[c0 po0] paths IH]; simpl;
    [discriminate|].
  intros H Hl. apply andb_true_iff in H. destruct H as [H0 H].
  destruct (c0 =? c) eqn:E.
  - apply String.eqb_eq in E. subst c0. inversion Hl; subst.
    now apply isEncodingPath_eq.
  - now apply IH.
Qed.

Lemma objectsOnly_nil : objectsOnly [].
Proof. intros k. now left. Qed.

Lemma objectsOnly_set (e : object) (k : string) (o : object) :
  objectsOnly e -> objectsOnly (obj_set e k (VObj o)).
Proof.
  intros H k'. destruct (String.string_dec k' k) as [->|Hne].
  - right. exists o. apply obj_get_set_same.
  - rewrite obj_get_set_other by exact Hne. apply H.
Qed.

Lemma objectsOnly_delete (e : object) (k : string) :
  uniqueKeys e -> objectsOnly e -> objectsOnly (obj_delete e k).
Proof.
  intros Hu H k'. destruct (String.string_dec k' k) as [->|Hne].
  - left. now apply obj_get_delete_same.
  - rewrite obj_get_delete_other by exact Hne. apply H.
Qed.

Lemma fillValue_object (eo : object) (cur : value) :
  cur = VUndefined \/ (exists o, cur = VObj o) ->
  exists o, fillValue eo cur = VObj o.
Proof.
  intros [->|[o ->]]; unfold fillValue; simpl; eauto.
Qed.

Lemma fillValue_undefined (eo : object) :
  uniqueKeys eo -> fillValue eo VUndefined = VObj eo.
Proof.
  intros H. unfold fillValue. simpl. now rewrite Object_fromEntries_unique.
Qed.

Section Flat.
Context {host : JSHost}.

Lemma fillPath_flat (eo : object) (c : string) (m : value) (e : object) :
  fillPath eo [KStr "encoding"; KStr c] (flatDraft m e)
  = Ok (flatDraft m (obj_set e c (fillValue eo (obj_get e c)))).
Proof. reflexivity. Qed.

Lemma stackedOrder_flat (field : option FieldItem.t) (m : value) (e : object) :
  exists e1, stackedOrder field (flatDraft m e) = Ok (flatDraft m e1)
             /\ orderOnly e e1.
Proof.
  unfold stackedOrder, flatDraft. cbn [get_prop key_toString obj_get].
  change ("mark" =? "mark") with true. cbv iota. cbn [rbind].
  destruct (strict_equal m (VStr "bar") || strict_equal m (VStr "area")).
  - change ("mark" =? "encoding") with false.
    change ("encoding" =? "encoding") with true. cbv iota. cbn [rbind truthy].
    cbn [set_prop key_toString rbind].
    eexists. split; [reflexivity|]. right. eauto.
  - exists e. split; [reflexivity | now left].
Qed.

Lemma resolveEncoding_flat ct aggr fields rows channel encoding m e :
  exists e1,
    resolveEncoding ct aggr fields rows channel encoding (flatDraft m e)
    = (encodingObjOf ct aggr fields rows channel encoding, flatDraft m e1)
    /\ orderOnly e e1.
Proof.
  pose proof (resolveEncoding_fst ct aggr fields rows channel encoding
                (flatDraft m e)) as Hfst.
  assert (Hsnd : exists e1,
            snd (resolveEncoding ct aggr fields rows channel encoding
                   (flatDraft m e)) = flatDraft m e1 /\ orderOnly e e1).
  { unfold resolveEncoding.
    assert (Hs : exists e1,
              snd (handleSorting channel encoding (findField encoding fields)
                     (resolveField ct aggr fields rows channel encoding)
                     (flatDraft m e)) = flatDraft m e1 /\ orderOnly e e1).
    { unfold handleSorting, sortByValues.
      repeat match goal with
             | |- exists _, snd (if ?c then _ else _) = _ /\ _ => destruct c
             | |- exists _, snd (match ?c with _ => _ end) = _ /\ _ =>
                 lazymatch c with
                 | stackedOrder _ _ => fail
                 | _ => destruct c
                 end
             end;
        try (exists e; split; [reflexivity | now left]).
      all: destruct (stackedOrder_flat (findField encoding fields) m e)
             as [e1 [He1 Ho]]; rewrite He1; exists e1; split;
             [reflexivity | exact Ho]. }
    destruct (handleSorting channel encoding (findField encoding fields)
                (resolveField ct aggr fields rows channel encoding)
                (flatDraft m e)) as [eo1 vg1].
    exact Hs. }
  destruct Hsnd as [e1 [Hsnd Ho]]. exists e1. split; [|exact Ho].
  destruct (resolveEncoding ct aggr fields rows channel encoding
              (flatDraft m e)) as [eo vg]. simpl in *. congruence.
Qed.

Lemma encodeChannel_flat T ct aggr fields rows channel encoding m e :
  flatPaths (ChartTemplate.paths T) = true ->
  exists e1,
    orderOnly e e1
    /\ encodeChannel T ct aggr fields rows channel encoding (flatDraft m e)
       = Ok (flatDraft m
               (match lookupPaths (ChartTemplate.paths T) channel with
                | Some _ =>
                    if negb (List.length
                               (encodingObjOf ct aggr fields rows channel
                                  encoding) =? 0)%nat
                    then obj_set e1 channel
                           (fillValue
                              (encodingObjOf ct aggr fields rows channel
                                 encoding) (obj_get e1 channel))
                    else e1
                | None => e1
                end)).
Proof.
  intros Hflat.
  destruct (resolveEncoding_flat ct aggr fields rows channel encoding m e)
    as [e1 [Hres Ho]].
  exists e1. split; [exact Ho|]. unfold encodeChannel. rewrite Hres.
  destruct (lookupPaths (ChartTemplate.paths T) channel) as [po|] eqn:Hl;
    [|reflexivity].
  rewrite (flatPaths_lookup _ _ _ Hflat Hl).
  destruct (negb (List.length (encodingObjOf ct aggr fields rows channel
                                 encoding) =? 0)%nat); [|reflexivity].
  cbn [pathsOf fillPaths]. rewrite fillPath_flat. reflexivity.
Qed.
End Flat.

(* ================================================================== *)
(** * 30. The loop over the encoding map, one tracked place at a time *)
(* ================================================================== *)

Lemma find_key_fresh {A : Type} (em : list (string * A)) (c : string) :
  ~ In c (map fst em) -> find (fun kv => fst kv =? c) em = None.
Proof.
  induction em as [|[k a] em IH]; simpl; [reflexivity|].
  intros Hn. destruct (k =? c) eqn:E.
  - apply String.eqb_eq in E. tauto.
  - apply IH. tauto.
Qed.

Lemma find_key_In {A : Type} (em : list (string * A)) (c : string)
    (kv : string * A) :
  find (fun kv => fst kv =? c) em = Some kv -> In (c, snd kv) em.
Proof.
  intros H. apply find_some in H. destruct H as [Hin E].
  apply String.eqb_eq in E. destruct kv as [k a]. simpl in *. now subst.
Qed.

Lemma find_key_NoDup {A : Type} (em : list (string * A)) (c : string) (a : A) :
  NoDup (map fst em) -> In (c, a) em ->
  find (fun kv => fst kv =? c) em = Some (c, a).
Proof.
  induction em as [|[k b] em IH]; simpl; [tauto|].
  intros Hnd Hin. inversion Hnd as [|? ? Hfresh Hnd']; subst.
  destruct Hin as [Heq|Hin].
  - inversion Heq; subst. now rewrite String.eqb_refl.
  - destruct (k =? c) eqn:E.
    + apply String.eqb_eq in E. subst k. exfalso. apply Hfresh.
      apply (in_map fst) in Hin. exact Hin.
    + now apply IH.
Qed.

Section TrackedLoop.
Context {host : JSHost}.
Variables (T : ChartTemplate.t) (ct : string) (aggr : bool)
  (fields : list FieldItem.t) (rows : list object).

(** Drafts of one shape [rep s], with places [proj p s] each written by the
    one channel [chan p]. *)
Variables (S : Type) (rep : S -> value) (Inv : S -> Prop).
Variables (P : Type) (tracked : P -> Prop) (chan : P -> string)
  (proj : P -> S -> value).

Hypothesis step : forall channel encoding s, Inv s ->
  exists s',
    encodeChannel T ct aggr fields rows channel encoding (rep s) = Ok (rep s')
    /\ Inv s'
    /\ forall p, tracked p ->
       (channel <> chan p -> proj p s' = proj p s)
       /\ (channel = chan p ->
           proj p s'
           = channelWrite T ct aggr fields rows (chan p) encoding (proj p s)).

Lemma encodeAll_tracked (em : EncodingMap) :
  forall s, Inv s ->
  exists s',
    encodeAll T ct aggr fields rows em (rep s) = Ok (rep s')
    /\ Inv s'
    /\ forall p, tracked p -> NoDup (map fst em) ->
       proj p s' = loopWrite T ct aggr fields rows em (chan p) (proj p s).
Proof.
  induction em as [|[c enc0] em IH]; intros s Hs.
  - exists s. repeat split; auto.
  - destruct (step c enc0 s Hs) as [s1 [Hrun [Hs1 Hp1]]].
    destruct (IH s1 Hs1) as [s' [Hrest [Hs' Hp']]].
    exists s'. cbn [encodeAll fst snd]. rewrite Hrun. cbn [rbind].
    split; [exact Hrest|]. split; [exact Hs'|].
    intros p Hp Hnd. simpl in Hnd.
    inversion Hnd as [|? ? Hfresh Hnd']; subst.
    rewrite (Hp' p Hp Hnd'). destruct (Hp1 p Hp) as [Hne Heq].
    unfold loopWrite, entryOf. cbn [find fst].
    destruct (c =? chan p) eqn:E.
    + apply String.eqb_eq in E. cbn [option_map snd].
      rewrite (Heq E).
      replace (find (fun kv => fst kv =? chan p) em) with
        (@None (string * EncodingItem)); [reflexivity|].
      symmetry. apply find_key_fresh. now rewrite <- E.
    + apply String.eqb_neq in E. now rewrite (Hne E).
Qed.
End TrackedLoop.

Section FlatLoop.
Context {host : JSHost}.
Variables (T : ChartTemplate.t) (ct : string) (aggr : bool)
  (fields : list FieldItem.t) (rows : list object) (m : value).
Hypothesis Hflat : flatPaths (ChartTemplate.paths T) = true.

Lemma orderOnly_facts (e e1 : object) :
  orderOnly e e1 -> uniqueKeys e -> objectsOnly e ->
  uniqueKeys e1 /\ objectsOnly e1
  /\ forall k, k <> "order" -> obj_get e1 k = obj_get e k.
Proof.
  intros [->|[o ->]] Hu Ho.
  - repeat split; auto.
  - repeat split.
    + now apply uniqueKeys_obj_set.
    + now apply objectsOnly_set.
    + intros k Hk. now apply obj_get_set_other.
Qed.

Lemma encodeChannel_flat_step (channel : string) (encoding : EncodingItem)
    (e : object) :
  uniqueKeys e -> objectsOnly e ->
  exists e2,
    encodeChannel T ct aggr fields rows channel encoding (flatDraft m e)
    = Ok (flatDraft m e2)
    /\ uniqueKeys e2 /\ objectsOnly e2
    /\ (forall k, k <> "order" -> k <> channel -> obj_get e2 k = obj_get e k)
    /\ (channel <> "order" ->
        obj_get e2 channel
        = channelWrite T ct aggr fields rows channel encoding
            (obj_get e channel)).
Proof.
  intros Hu Ho.
  destruct (encodeChannel_flat T ct aggr fields rows channel encoding m e Hflat)
    as [e1 [Hord Hrun]].
  destruct (orderOnly_facts e e1 Hord Hu Ho) as [Hu1 [Ho1 Hsame]].
  eexists. split; [exact Hrun|]. unfold channelWrite, written.
  destruct (lookupPaths (ChartTemplate.paths T) channel) as [po|].
  - destruct (negb (List.length (encodingObjOf ct aggr fields rows channel
                                   encoding) =? 0)%nat).
    + destruct (fillValue_object
                  (encodingObjOf ct aggr fields rows channel encoding)
                  (obj_get e1 channel) (Ho1 channel)) as [o Hfill].
      rewrite Hfill. repeat split.
      * now apply uniqueKeys_obj_set.
      * now apply objectsOnly_set.
      * intros k Hk Hc. rewrite obj_get_set_other by exact Hc. now apply Hsame.
      * intros Hc. rewrite obj_get_set_same. rewrite <- Hfill.
        now rewrite (Hsame channel Hc).
    + repeat split; auto.
  - repeat split; auto.
Qed.

Lemma encodeAll_flat (em : EncodingMap) (e : object) :
  uniqueKeys e -> objectsOnly e ->
  exists e',
    encodeAll T ct aggr fields rows em (flatDraft m e) = Ok (flatDraft m e')
    /\ uniqueKeys e' /\ objectsOnly e'
    /\ forall k, k <> "order" -> NoDup (map fst em) ->
       obj_get e' k = loopWrite T ct aggr fields rows em k (obj_get e k).
Proof.
  intros Hu Ho.
  destruct (encodeAll_tracked T ct aggr fields rows object (flatDraft m)
              (fun e => uniqueKeys e /\ objectsOnly e) string
              (fun k => k <> "order") (fun k => k)
              (fun k e => obj_get e k)) with (em := em) (s := e)
    as [e' [Hrun [[Hu' Ho'] Hget]]].
  - intros channel enc e0 [Hu0 Ho0].
    destruct (encodeChannel_flat_step channel enc e0 Hu0 Ho0)
      as [e2 [Hrun [Hu2 [Ho2 [Hother Hown]]]]].
    exists e2. split; [exact Hrun|]. split; [now split|].
    intros k Hk. split.
    + intros Hne. apply Hother; [exact Hk|]. congruence.
    + intros ->. now apply Hown.
  - now split.
  - exists e'. repeat split; auto.
Qed.

Lemma handleFaceting_flat (e : object) :
  objectsOnly e ->
  handleFaceting (flatDraft m e) = Ok (flatDraft m (facetEncoding e)).
Proof.
  intros Ho. unfold handleFaceting, facetEncoding, flatDraft.
  cbn [get_prop key_toString obj_get].
  change ("mark" =? "encoding") with false.
  change ("encoding" =? "encoding") with true. cbv iota. cbn [rbind].
  unfold get_prop_opt. cbn [get_prop key_toString].
  destruct (Ho "column") as [Hc|[co Hc]]; rewrite Hc.
  - reflexivity.
  - cbn [truthy andb].
    destruct (negb (truthy (obj_get e "row"))); [|reflexivity].
    cbn [set_prop key_toString rbind delete_prop obj_set].
    change ("mark" =? "encoding") with false.
    change ("encoding" =? "encoding") with true. reflexivity.
Qed.

Lemma forceNominal_flat (c : string) (e : object) :
  uniqueKeys e -> objectsOnly e ->
  exists e',
    forceNominal c (flatDraft m e) = Ok (flatDraft m e')
    /\ uniqueKeys e' /\ objectsOnly e'
    /\ forall k, k <> c -> obj_get e' k = obj_get e k.
Proof.
  intros Hu Ho. unfold forceNominal, flatDraft.
  cbn [get_prop key_toString obj_get].
  change ("mark" =? "encoding") with false.
  change ("encoding" =? "encoding") with true. cbv iota. cbn [rbind].
  cbn [get_prop key_toString rbind].
  destruct (Ho c) as [Hc|[xo Hc]]; rewrite Hc.
  - exists e. cbn [truthy andb]. repeat split; auto.
  - cbn [truthy andb].
    destruct (negb (strict_equal (get_prop_opt (VObj xo) (KStr "type"))
                      (VStr "nominal"))).
    + exists (obj_set e c (VObj (obj_set xo "type" (VStr "nominal")))).
      split.
      * unfold assign_path.
        cbn [removelast last at_path get_prop key_toString obj_get rbind].
        change ("mark" =? "encoding") with false.
        change ("encoding" =? "encoding") with true. cbv iota.
        cbn [get_prop key_toString].
        rewrite Hc. cbn [rbind set_prop key_toString obj_set].
        change ("mark" =? "encoding") with false.
        change ("encoding" =? "encoding") with true. reflexivity.
      * repeat split.
        -- now apply uniqueKeys_obj_set.
        -- now apply objectsOnly_set.
        -- intros k Hk. now apply obj_get_set_other.
    + exists e. repeat split; auto.
Qed.

Lemma attachData_flat (e : object) :
  attachData fields rows (flatDraft m e)
  = Ok (VObj [("mark", m); ("encoding", VObj e);
              ("data",
               VObj [("values", VArr (map VObj (prepareValues fields rows)))])]).
Proof. reflexivity. Qed.
End FlatLoop.

(* ================================================================== *)
(** * 31. Assembling from a template with a single [encoding] block *)
(* ================================================================== *)

Lemma facetEncoding_other (e : object) (k : string) :
  k <> "facet" -> k <> "column" ->
  obj_get (facetEncoding e) k = obj_get e k.
Proof.
  intros Hf Hc. unfold facetEncoding.
  destruct (obj_get e "column"); try reflexivity.
  destruct (negb (truthy (obj_get e "row"))); [|reflexivity].
  rewrite obj_get_delete_other by exact Hc.
  now apply obj_get_set_other.
Qed.

Lemma facetEncoding_collapse (e column : object) :
  uniqueKeys e ->
  obj_get e "column" = VObj column -> obj_get e "row" = VUndefined ->
  obj_get (facetEncoding e) "facet" = VObj (obj_set column "columns" (num 6))
  /\ obj_get (facetEncoding e) "column" = VUndefined.
Proof.
  intros Hu Hc Hr. unfold facetEncoding. rewrite Hc, Hr. cbn [truthy negb].
  split.
  - rewrite obj_get_delete_other by discriminate. apply obj_get_set_same.
  - apply obj_get_delete_same. now apply uniqueKeys_obj_set.
Qed.

Lemma facetEncoding_keep (e row : object) :
  obj_get e "row" = VObj row -> facetEncoding e = e.
Proof.
  intros Hr. unfold facetEncoding. rewrite Hr. cbn [truthy negb].
  now destruct (obj_get e "column").
Qed.

Lemma loopWrite_lookup_none {host : JSHost} T ct aggr fields rows em k cur :
  lookupPaths (ChartTemplate.paths T) k = None ->
  loopWrite T ct aggr fields rows em k cur = cur.
Proof.
  intros H. unfold loopWrite, channelWrite. rewrite H.
  now destruct (entryOf em k).
Qed.

Section FlatAssembly.
Context {host : JSHost}.

Lemma applyPostProcessor_flat (T : ChartTemplate.t) (rows : list object)
    (m : value) (e : object) :
  flatPost T -> uniqueKeys e -> objectsOnly e ->
  exists e',
    applyPostProcessor T rows (flatDraft m e) = Ok (flatDraft m e')
    /\ forall k, k <> "x" -> k <> "y" -> obj_get e' k = obj_get e k.
Proof.
  intros [Hp|[Hp|Hp]] Hu Ho; unfold applyPostProcessor; rewrite Hp.
  - exists e. split; auto.
  - unfold boxplotPostProcessor.
    destruct (forceNominal_flat m "x" e Hu Ho) as [e' [Hrun [_ [_ Hk]]]].
    exists e'. split; [exact Hrun|]. intros k Hx _. now apply Hk.
  - unfold heatMapPostProcessor.
    destruct (forceNominal_flat m "y" e Hu Ho) as [e1 [Hrun1 [Hu1 [Ho1 Hk1]]]].
    destruct (forceNominal_flat m "x" e1 Hu1 Ho1) as [e' [Hrun [_ [_ Hk]]]].
    exists e'. rewrite Hrun1. cbn [rbind]. split; [exact Hrun|].
    intros k Hx Hy. rewrite Hk by exact Hx. now apply Hk1.
Qed.

(** The specification assembled from [{ mark, encoding: {} }]: the
    [encoding] block holds, at each key but [order], [x] and [y], what
    faceting made of what the loop wrote. *)
Lemma assembleSpec_flat (T : ChartTemplate.t) (ct : string) (aggr : bool)
    (fields : list FieldItem.t) (rows : list object) (em : EncodingMap)
    (m : value) :
  flatPaths (ChartTemplate.paths T) = true -> flatPost T ->
  NoDup (map fst em) ->
  exists e ef,
    assembleSpec T ct aggr fields rows em (markTemplate m)
    = Ok (VObj [("mark", m); ("encoding", VObj ef);
                ("data",
                 VObj [("values",
                        VArr (map VObj (prepareValues fields rows)))])])
    /\ uniqueKeys e /\ objectsOnly e
    /\ (forall k, k <> "order" ->
        obj_get e k = loopWrite T ct aggr fields rows em k VUndefined)
    /\ (forall k, k <> "x" -> k <> "y" ->
        obj_get ef k = obj_get (facetEncoding e) k).
Proof.
  intros Hflat Hpost Hnd.
  destruct (encodeAll_flat T ct aggr fields rows m Hflat em []
              (NoDup_nil _) objectsOnly_nil)
    as [e [Hloop [Hu [Ho Hget]]]].
  assert (Huf : uniqueKeys (facetEncoding e)).
  { unfold facetEncoding. destruct (obj_get e "column"); auto.
    destruct (negb (truthy (obj_get e "row"))); auto.
    now apply uniqueKeys_obj_delete, uniqueKeys_obj_set. }
  assert (Hof : objectsOnly (facetEncoding e)).
  { unfold facetEncoding. destruct (obj_get e "column"); auto.
    destruct (negb (truthy (obj_get e "row"))); auto.
    apply objectsOnly_delete; [now apply uniqueKeys_obj_set|].
    now apply objectsOnly_set. }
  destruct (applyPostProcessor_flat T rows m (facetEncoding e) Hpost Huf Hof)
    as [ef [Hpp Hk]].
  exists e, ef. unfold assembleSpec, structuredClone.
  change (markTemplate m) with (flatDraft m []).
  rewrite Hloop. cbn [rbind]. rewrite (handleFaceting_flat m e Ho).
  cbn [rbind]. rewrite Hpp. cbn [rbind]. rewrite attachData_flat.
  repeat split; auto.
Qed.
End FlatAssembly.

(* ================================================================== *)
(** * 32. Facts about the catalogue *)
(* ================================================================== *)

Section CatalogueFacts.
Context {host : JSHost}.

Lemma findFrom_nth {A : Type} (test : A -> bool) (xs : list A) :
  forall i j x, findFrom test i xs = Some (j, x) ->
  nth_error xs (j - i) = Some x /\ test x = true.
Proof.
  induction xs as [|a xs IH]; intros i j x H; simpl in H; [discriminate|].
  destruct (test a) eqn:E.
  - inversion H; subst. rewrite Nat.sub_diag. now split.
  - pose proof (findFrom_bound _ _ _ _ _ H) as Hb.
    destruct (IH _ _ _ H) as [Hn Ht]. split; [|exact Ht].
    replace (j - i)%nat with (S (j - S i)) by lia. exact Hn.
Qed.

Lemma getChartTemplate_In (ct : string) (i : nat) (T : ChartTemplate.t) :
  getChartTemplate ct = Some (i, T) ->
  In T allTemplates /\ ChartTemplate.chart T = ct.
Proof.
  intros H. apply findFrom_nth in H. destruct H as [Hn Ht].
  split; [now apply nth_error_In in Hn | now apply String.eqb_eq].
Qed.

Lemma catalogueLoaded_template (h : heap) (ct : string) (i : nat)
    (T : ChartTemplate.t) :
  catalogueLoaded h -> getChartTemplate ct = Some (i, T) ->
  objAt h i = ChartTemplate.template T /\ (i < List.length h)%nat.
Proof.
  intros [rest ->] H. pose proof (getChartTemplate_bound _ _ _ H) as Hb.
  apply findFrom_nth in H. destruct H as [Hn _]. rewrite Nat.sub_0_r in Hn.
  split.
  - unfold objAt. rewrite nth_error_app1 by exact Hb. unfold catalogueHeap.
    rewrite nth_error_map, Hn. reflexivity.
  - rewrite length_app. lia.
Qed.

(** The templates with a path for [column]: they are [{ mark, encoding }]
    skeletons filled at [encoding.channel], with a path for [row] as well
    and none for [facet]. *)
Lemma catalogue_column (T : ChartTemplate.t) :
  In T allTemplates ->
  lookupPaths (ChartTemplate.paths T) "column" <> None ->
  (ChartTemplate.chart T =? "Table") = false
  /\ (exists m, ChartTemplate.template T = markTemplate m)
  /\ flatPaths (ChartTemplate.paths T) = true
  /\ flatPost T
  /\ lookupPaths (ChartTemplate.paths T) "facet" = None
  /\ lookupPaths (ChartTemplate.paths T) "row" <> None.
Proof.
  intros Hin Hcol. each_template Hin;
    try (exfalso; apply Hcol; reflexivity);
    (split; [reflexivity|]); (split; [eexists; reflexivity|]);
    (split; [reflexivity|]);
    (split; [first [left; reflexivity | right; left; reflexivity
                   | right; right; reflexivity]|]);
    (split; [reflexivity | discriminate]).
Qed.
End CatalogueFacts.

(* ================================================================== *)
(** * 33. Faceting *)
(* ================================================================== *)

Section Faceting.
Context {host : JSHost}.

Lemma loopWrite_resolved T ct aggr fields rows em k :
  lookupPaths (ChartTemplate.paths T) k <> None ->
  loopWrite T ct aggr fields rows em k VUndefined
  = match resolvedChannel ct aggr fields rows em k with
    | [] => VUndefined
    | eo => VObj eo
    end.
Proof.
  intros Hl. unfold loopWrite, resolvedChannel, channelWrite, written.
  destruct (entryOf em k) as [enc|]; [|reflexivity].
  destruct (lookupPaths (ChartTemplate.paths T) k); [|congruence].
  pose proof (uniqueKeys_encodingObjOf ct aggr fields rows k enc) as Hu.
  destruct (encodingObjOf ct aggr fields rows k enc) as [|kv eo];
    [reflexivity|].
  cbn [List.length Nat.eqb negb]. now apply fillValue_undefined.
Qed.

Lemma specOf_returned (ct : string) (h : heap) (spec : value) (c : cell) :
  specOf (Returned (ct, Some (List.length h)) (h ++ [ObjCell spec; c]))
  = Some spec.
Proof.
  unfold specOf. rewrite nth_error_app2 by lia. now rewrite Nat.sub_diag.
Qed.

(** The call on a heap that holds the catalogue, for a template of the
    [{ mark, encoding }] family. *)
Lemma assembleVegaChart_flat ct em fl rl mx aggr h i T m :
  getChartTemplate ct = Some (i, T) ->
  (ct =? "Table") = false ->
  ChartTemplate.template T = markTemplate m ->
  flatPaths (ChartTemplate.paths T) = true -> flatPost T ->
  catalogueLoaded h ->
  (fl < List.length h)%nat -> (rl < List.length h)%nat ->
  NoDup (map fst em) ->
  exists e ef,
    specOf (assembleVegaChart ct em fl rl mx aggr h)
    = Some (VObj [("mark", m); ("encoding", VObj ef);
                  ("data",
                   VObj [("values",
                          VArr (map VObj (prepareValues (fieldsAt h fl)
                                            (rowsAt h rl))))])])
    /\ uniqueKeys e /\ objectsOnly e
    /\ (forall k, k <> "order" ->
        obj_get e k
        = loopWrite T ct aggr (fieldsAt h fl) (rowsAt h rl) em k VUndefined)
    /\ (forall k, k <> "x" -> k <> "y" ->
        obj_get ef k = obj_get (facetEncoding e) k).
Proof.
  intros Hct Htable Htpl Hflat Hpost Hcat Hfl Hrl Hnd.
  destruct (catalogueLoaded_template h ct i T Hcat Hct) as [Hobj Hi].
  destruct (assembleVegaChart_run ct em fl rl mx aggr h i T Htable Hct Hi
              Hfl Hrl) as [ext Hrun].
  destruct (assembleSpec_flat T ct aggr (fieldsAt h fl) (rowsAt h rl) em m
              Hflat Hpost Hnd) as [e [ef [Hspec Hfacts]]].
  exists e, ef. rewrite Hrun, Hobj, Htpl, Hspec.
  split; [apply specOf_returned | exact Hfacts].
Qed.
End Faceting.

(** On a template with a path for both facet channels, such as Bar Chart,
    a row channel bound to Country and a column channel bound to Region
    both resolve, and the specification carries [encoding.row] and
    [encoding.column] as two separate directives and no [encoding.facet]. *)
Lemma row_and_column_are_both_emitted :
  @resolvedChannel sampleHost "Bar Chart" false
    (fieldsAt sampleHeap sampleFields) (rowsAt sampleHeap sampleTable)
    [("x", boundTo "f-population"); ("column", boundTo "f-region");
     ("row", boundTo "f-country")] "row" <> []
  /\ @resolvedChannel sampleHost "Bar Chart" false
       (fieldsAt sampleHeap sampleFields) (rowsAt sampleHeap sampleTable)
       [("x", boundTo "f-population"); ("column", boundTo "f-region");
        ("row", boundTo "f-country")] "column" <> []
  /\ exists spec,
       specOf (@assembleVegaChart sampleHost "Bar Chart"
                 [("x", boundTo "f-population"); ("column", boundTo "f-region");
                  ("row", boundTo "f-country")]
                 sampleFields sampleTable 68 false sampleHeap) = Some spec
       /\ get_path [KStr "encoding"; KStr "facet"] spec = Ok VUndefined
       /\ get_path [KStr "encoding"; KStr "column"] spec
          = Ok (VObj [("field", VStr "Region"); ("type", VStr "nominal")])
       /\ get_path [KStr "encoding"; KStr "row"] spec
          = Ok (VObj [("field", VStr "Country"); ("type", VStr "nominal")]).
Proof.
  split; [vm_compute; discriminate|]. split; [vm_compute; discriminate|].
  eexists. split; [vm_compute; reflexivity|].
  repeat split; vm_compute; reflexivity.
Qed.

(** The templates of the catalogue: one with a path for the column channel
    has one for the row channel too.  On a heap that holds the catalogue,
    an encoding map with distinct channels whose column channel resolves
    to a non-empty encoding object is assembled into a specification in
    which
    - if the row channel resolves to nothing, [encoding.facet] is the
      column's encoding object with [columns: 6] added, and neither
      [encoding.column] nor [encoding.row] is there;
    - if the row channel resolves too, [encoding.column] and
      [encoding.row] are both there with their own encoding objects, and
      there is no [encoding.facet]. *)
Lemma facet_only_when_row_is_unresolved {host : JSHost}
    (ct : string) (em : EncodingMap) (fl rl : loc) (mx : nat) (aggr : bool)
    (h : heap) (i : nat) (T : ChartTemplate.t) :
  getChartTemplate ct = Some (i, T) ->
  lookupPaths (ChartTemplate.paths T) "column" <> None ->
  catalogueLoaded h ->
  (fl < List.length h)%nat -> (rl < List.length h)%nat ->
  NoDup (map fst em) ->
  resolvedChannel ct aggr (fieldsAt h fl) (rowsAt h rl) em "column" <> [] ->
  lookupPaths (ChartTemplate.paths T) "row" <> None
  /\ exists spec,
       specOf (assembleVegaChart ct em fl rl mx aggr h) = Some spec
       /\ match resolvedChannel ct aggr (fieldsAt h fl) (rowsAt h rl) em "row"
          with
          | [] =>
              get_path [KStr "encoding"; KStr "facet"] spec
              = Ok (VObj (obj_set
                            (resolvedChannel ct aggr (fieldsAt h fl)
                               (rowsAt h rl) em "column")
                            "columns" (num 6)))
              /\ get_path [KStr "encoding"; KStr "column"] spec = Ok VUndefined
              /\ get_path [KStr "encoding"; KStr "row"] spec = Ok VUndefined
          | row =>
              get_path [KStr "encoding"; KStr "column"] spec
              = Ok (VObj (resolvedChannel ct aggr (fieldsAt h fl)
                            (rowsAt h rl) em "column"))
              /\ get_path [KStr "encoding"; KStr "row"] spec = Ok (VObj row)
              /\ get_path [KStr "encoding"; KStr "facet"] spec = Ok VUndefined
          end.
Proof.
  intros Hct Hcol Hcat Hfl Hrl Hnd Hres.
  destruct (getChartTemplate_In ct i T Hct) as [Hin Hname].
  destruct (catalogue_column T Hin Hcol)
    as [Htable [[m Htpl] [Hflat [Hpost [Hfacet Hrow]]]]].
  split; [exact Hrow|]. rewrite Hname in Htable.
  destruct (assembleVegaChart_flat ct em fl rl mx aggr h i T m Hct Htable Htpl
              Hflat Hpost Hcat Hfl Hrl Hnd)
    as [e [ef [Hspec [Hu [Ho [Hloop Hfinal]]]]]].
  eexists. split; [exact Hspec|].
  cbn [get_path get_prop key_toString obj_get rbind].
  change ("mark" =? "encoding") with false.
  change ("encoding" =? "encoding") with true. cbv iota.
  cbn [get_prop key_toString rbind].
  rewrite !Hfinal by discriminate.
  pose proof (Hloop "column" ltac:(discriminate)) as Hc.
  pose proof (Hloop "row" ltac:(discriminate)) as Hr.
  pose proof (Hloop "facet" ltac:(discriminate)) as Hf.
  rewrite loopWrite_resolved in Hc by exact Hcol.
  rewrite loopWrite_resolved in Hr by exact Hrow.
  rewrite loopWrite_lookup_none in Hf by exact Hfacet.
  destruct (resolvedChannel ct aggr (fieldsAt h fl) (rowsAt h rl) em "column")
    as [|kc column] eqn:Ec; [congruence|].
  destruct (resolvedChannel ct aggr (fieldsAt h fl) (rowsAt h rl) em "row")
    as [|kr row] eqn:Er.
  - destruct (facetEncoding_collapse e (kc :: column) Hu Hc Hr) as [H1 H2].
    rewrite H1, H2. rewrite facetEncoding_other by discriminate.
    rewrite Hr. auto.
  - rewrite (facetEncoding_keep e (kr :: row) Hr). rewrite Hc, Hr, Hf. auto.
Qed.

Lemma facet_only_when_row_is_unresolved_witness :
  exists spec,
    specOf (@assembleVegaChart sampleHost "Bar Chart"
              [("x", boundTo "f-population"); ("column", boundTo "f-region")]
              sampleFields sampleTable 68 false sampleHeap) = Some spec
    /\ get_path [KStr "encoding"; KStr "facet"] spec
       = Ok (VObj [("field", VStr "Region"); ("type", VStr "nominal");
                   ("columns", num 6)])
    /\ get_path [KStr "encoding"; KStr "column"] spec = Ok VUndefined
    /\ get_path [KStr "encoding"; KStr "row"] spec = Ok VUndefined.
Proof.
  destruct (@facet_only_when_row_is_unresolved sampleHost "Bar Chart"
              [("x", boundTo "f-population"); ("column", boundTo "f-region")]
              sampleFields sampleTable 68 false sampleHeap 6
              (nth 6 (@allTemplates sampleHost)
                 (ChartTemplate.mk "" "" VUndefined [] [] None)))
    as [_ [spec [Hspec Hshape]]].
  - reflexivity.
  - vm_compute. discriminate.
  - eexists. reflexivity.
  - vm_compute. lia.
  - vm_compute. lia.
  - vm_compute. repeat constructor; simpl; intuition discriminate.
  - vm_compute. discriminate.
  - exists spec. split; [exact Hspec|]. exact Hshape.
Defined.

(* ================================================================== *)
(** * 34. The layered and concatenated templates *)
(* ================================================================== *)

Lemma get_path_app (p q : path) (v : value) :
  get_path (p ++ q) v = (x <-- get_path p v ;; get_path q x).
Proof.
  revert v. induction p as [|k p IH]; intros v; simpl; [reflexivity|].
  destruct (get_prop v k); simpl; auto.
Qed.

Lemma fillValue_entries (eo : object) (cur : value) :
  cur = VUndefined \/ (exists o, cur = VObj o) ->
  exists pre, fillValue eo cur = VObj (Object_fromEntries (pre ++ eo)).
Proof.
  intros [->|[o ->]]; unfold fillValue; simpl; eauto.
  now exists [].
Qed.

Section Unmarked.
Context {host : JSHost}.

(** Where the draft has no [mark] of its own the sort block leaves it
    alone. *)
Lemma resolveEncoding_unmarked ct aggr fields rows channel encoding vg :
  (forall field, stackedOrder field vg = Ok vg) ->
  resolveEncoding ct aggr fields rows channel encoding vg
  = (encodingObjOf ct aggr fields rows channel encoding, vg).
Proof.
  intros Hst.
  pose proof (resolveEncoding_fst ct aggr fields rows channel encoding vg)
    as Hfst.
  assert (Hsnd : snd (resolveEncoding ct aggr fields rows channel encoding vg)
                 = vg).
  { unfold resolveEncoding.
    assert (Hs : snd (handleSorting channel encoding
                        (findField encoding fields)
                        (resolveField ct aggr fields rows channel encoding)
                        vg) = vg).
    { unfold handleSorting, sortByValues. rewrite Hst.
      repeat match goal with
             | |- snd (if ?c then _ else _) = _ => destruct c
             | |- snd (match ?c with _ => _ end) = _ => destruct c
             end; reflexivity. }
    destruct (handleSorting channel encoding (findField encoding fields)
                (resolveField ct aggr fields rows channel encoding) vg)
      as [eo1 vg1]. exact Hs. }
  destruct (resolveEncoding ct aggr fields rows channel encoding vg)
    as [eo vg']. simpl in *. congruence.
Qed.

Lemma encodeChannel_unmarked T ct aggr fields rows channel encoding vg :
  (forall field, stackedOrder field vg = Ok vg) ->
  encodeChannel T ct aggr fields rows channel encoding vg
  = match lookupPaths (ChartTemplate.paths T) channel with
    | Some pathObj =>
        if negb (List.length
                   (encodingObjOf ct aggr fields rows channel encoding) =? 0)%nat
        then fillPaths (encodingObjOf ct aggr fields rows channel encoding)
               (pathsOf pathObj) vg
        else Ok vg
    | None => Ok vg
    end.
Proof.
  intros Hst. unfold encodeChannel.
  now rewrite (resolveEncoding_unmarked ct aggr fields rows channel encoding
                 vg Hst).
Qed.
End Unmarked.

Section Regression.
Context {host : JSHost}.
Variables (T : ChartTemplate.t) (ct : string) (aggr : bool)
  (fields : list FieldItem.t) (rows : list object).

Hypothesis Hpaths :
  ChartTemplate.paths T
  = [ ("x", ManyPaths [
         [E "layer"; KNum 0; E "encoding"; E "x"];
         [E "layer"; KNum 1; E "encoding"; E "x"];
         [E "layer"; KNum 1; E "transform"; KNum 0; E "on"]]);
      ("y", ManyPaths [
         [E "layer"; KNum 0; E "encoding"; E "y"];
         [E "layer"; KNum 1; E "encoding"; E "y"];
         [E "layer"; KNum 1; E "transform"; KNum 0; E "regression"]]);
      ("color", OnePath [E "layer"; KNum 0; E "encoding"; E "color"]);
      ("size", OnePath [E "layer"; KNum 0; E "encoding"; E "size"]) ].
Hypothesis Hpost : ChartTemplate.postProcessor T = None.

Lemma encodeChannel_regression channel encoding (e0 tr e1 : object) :
  exists e0' tr' e1',
    encodeChannel T ct aggr fields rows channel encoding
      (regressionDraft e0 tr e1)
    = Ok (regressionDraft e0' tr' e1')
    /\ (channel <> "color" -> obj_get e0' "color" = obj_get e0 "color")
    /\ (channel = "color" ->
        obj_get e0' "color"
        = channelWrite T ct aggr fields rows "color" encoding
            (obj_get e0 "color")).
Proof.
  rewrite encodeChannel_unmarked by reflexivity.
  unfold channelWrite, written. rewrite Hpaths. cbn [lookupPaths].
  which_channel; try (exists e0, tr, e1; repeat split; congruence);
    (destruct (negb (List.length (encodingObjOf ct aggr fields rows _ encoding)
                     =? 0)%nat);
     [|exists e0, tr, e1; repeat split; congruence]).
  - do 3 eexists. split; [reflexivity|]. split; [|congruence]. intros _.
    rewrite !obj_get_set_other by discriminate. reflexivity.
  - do 3 eexists. split; [reflexivity|]. split; [|congruence]. intros _.
    rewrite !obj_get_set_other by discriminate. reflexivity.
  - do 3 eexists. split; [reflexivity|]. split; [congruence|]. intros _.
    apply obj_get_set_same.
  - do 3 eexists. split; [reflexivity|]. split; [|congruence]. intros _.
    rewrite !obj_get_set_other by discriminate. reflexivity.
Qed.

Lemma assembleSpec_regression (em : EncodingMap) (e0 tr e1 : object) :
  NoDup (map fst em) ->
  exists spec,
    assembleSpec T ct aggr fields rows em (regressionDraft e0 tr e1) = Ok spec
    /\ get_path [E "layer"; KNum 0; E "encoding"; E "color"] spec
       = Ok (loopWrite T ct aggr fields rows em "color" (obj_get e0 "color")).
Proof.
  intros Hnd.
  destruct (encodeAll_tracked T ct aggr fields rows (object * object * object)
              (fun s => regressionDraft (fst (fst s)) (snd (fst s)) (snd s))
              (fun _ => True) unit (fun _ => True) (fun _ => "color")
              (fun _ s => obj_get (fst (fst s)) "color"))
    with (em := em) (s := (e0, tr, e1))
    as [[[e0' tr'] e1'] [Hloop [_ Hcol]]].
  - intros channel enc [[a b] c] _. cbn [fst snd].
    destruct (encodeChannel_regression channel enc a b c)
      as [a' [b' [c' [Hrun [Hne Heq]]]]].
    exists (a', b', c'). cbn [fst snd]. auto.
  - exact I.
  - cbn [fst snd] in Hloop, Hcol. specialize (Hcol tt I Hnd).
    eexists. unfold assembleSpec, structuredClone. rewrite Hloop. cbn [rbind].
    unfold applyPostProcessor. rewrite Hpost. split; [reflexivity|].
    rewrite <- Hcol. reflexivity.
Qed.
End Regression.

Section RangedDotPlot.
Context {host : JSHost}.
Variables (T : ChartTemplate.t) (ct : string) (aggr : bool)
  (fields : list FieldItem.t) (rows : list object).

Hypothesis Hpaths :
  ChartTemplate.paths T
  = [ ("x", OnePath [E "encoding"; E "x"]);
      ("y", OnePath [E "encoding"; E "y"]);
      ("color", OnePath [E "layer"; KNum 1; E "encoding"; E "color"]) ].
Hypothesis Hpost :
  ChartTemplate.postProcessor T = Some rangedDotPlotPostProcessor.

Lemma encodeChannel_ranged channel encoding (sh e0 e1 : object) :
  exists sh' e0' e1',
    encodeChannel T ct aggr fields rows channel encoding
      (rangedDraft sh e0 e1)
    = Ok (rangedDraft sh' e0' e1')
    /\ obj_get sh' "column" = obj_get sh "column"
    /\ (channel <> "color" -> obj_get e1' "color" = obj_get e1 "color")
    /\ (channel = "color" ->
        obj_get e1' "color"
        = channelWrite T ct aggr fields rows "color" encoding
            (obj_get e1 "color")).
Proof.
  rewrite encodeChannel_unmarked by reflexivity.
  unfold channelWrite, written. rewrite Hpaths. cbn [lookupPaths].
  which_channel; try (exists sh, e0, e1; repeat split; congruence);
    (destruct (negb (List.length (encodingObjOf ct aggr fields rows _ encoding)
                     =? 0)%nat);
     [|exists sh, e0, e1; repeat split; congruence]).
  - do 3 eexists. split; [reflexivity|].
    split; [now apply obj_get_set_other|]. split; congruence.
  - do 3 eexists. split; [reflexivity|].
    split; [now apply obj_get_set_other|]. split; congruence.
  - do 3 eexists. split; [reflexivity|]. split; [reflexivity|].
    split; [congruence|]. intros _. apply obj_get_set_same.
Qed.

Lemma rangedDotPlotPostProcessor_draft (sh e0 e1 : object) :
  exists e0',
    rangedDotPlotPostProcessor (rangedDraft sh e0 e1) rows
    = Ok (rangedDraft sh e0' e1).
Proof.
  unfold rangedDotPlotPostProcessor, rangedDraft.
  cbn [get_prop key_toString obj_get rbind].
  change ("encoding" =? "encoding") with true. cbv iota.
  cbn [get_prop key_toString rbind].
  destruct (strict_equal (get_prop_opt (obj_get sh "y") (KStr "type"))
              (VStr "nominal")).
  - eexists. reflexivity.
  - destruct (strict_equal (get_prop_opt (obj_get sh "x") (KStr "type"))
                (VStr "nominal")); eexists; reflexivity.
Qed.

Lemma assembleSpec_ranged (em : EncodingMap) (sh e0 e1 : object) :
  NoDup (map fst em) -> obj_get sh "column" = VUndefined ->
  exists spec,
    assembleSpec T ct aggr fields rows em (rangedDraft sh e0 e1) = Ok spec
    /\ get_path [E "layer"; KNum 1; E "encoding"; E "color"] spec
       = Ok (loopWrite T ct aggr fields rows em "color" (obj_get e1 "color")).
Proof.
  intros Hnd Hsh.
  destruct (encodeAll_tracked T ct aggr fields rows (object * object * object)
              (fun s => rangedDraft (fst (fst s)) (snd (fst s)) (snd s))
              (fun s => obj_get (fst (fst s)) "column" = VUndefined)
              unit (fun _ => True) (fun _ => "color")
              (fun _ s => obj_get (snd s) "color"))
    with (em := em) (s := (sh, e0, e1))
    as [[[sh' e0'] e1'] [Hloop [Hcolumn Hcol]]].
  - intros channel enc [[a b] c] Ha. cbn [fst snd] in *.
    destruct (encodeChannel_ranged channel enc a b c)
      as [a' [b' [c' [Hrun [Hkeep [Hne Heq]]]]]].
    exists (a', b', c'). cbn [fst snd]. split; [exact Hrun|].
    split; [congruence | auto].
  - exact Hsh.
  - cbn [fst snd] in Hloop, Hcolumn, Hcol. specialize (Hcol tt I Hnd).
    destruct (rangedDotPlotPostProcessor_draft sh' e0' e1') as [e0'' Hpp].
    eexists. unfold assembleSpec, structuredClone. rewrite Hloop. cbn [rbind].
    assert (Hfacet : handleFaceting (rangedDraft sh' e0' e1')
                     = Ok (rangedDraft sh' e0' e1')).
    { unfold handleFaceting, rangedDraft.
      cbn [get_prop key_toString obj_get rbind].
      change ("encoding" =? "encoding") with true. cbv iota.
      unfold get_prop_opt. cbn [get_prop key_toString]. rewrite Hcolumn.
      reflexivity. }
    rewrite Hfacet. cbn [rbind].
    unfold applyPostProcessor. rewrite Hpost, Hpp. cbn [rbind].
    split; [reflexivity|]. rewrite <- Hcol. reflexivity.
Qed.
End RangedDotPlot.

Lemma tryAll_invariant (Q : value -> Prop) (steps : list (value -> result value)) :
  Forall (fun step => forall s s', Q s -> step s = Ok s' -> Q s') steps ->
  forall spec, Q spec -> Q (tryAll steps spec).
Proof.
  induction 1 as [|step steps Hstep _ IH]; intros spec Hq; simpl; [exact Hq|].
  destruct (step spec) as [spec'|] eqn:E; [|exact Hq].
  apply IH. now apply (Hstep spec).
Qed.

Section Pyramid.
Context {host : JSHost}.
Variables (T : ChartTemplate.t) (ct : string) (aggr : bool)
  (fields : list FieldItem.t) (rows : list object).

Hypothesis Hpaths :
  ChartTemplate.paths T
  = [ ("x", ManyPaths [[E "hconcat"; KNum 0; E "encoding"; E "x"];
                       [E "hconcat"; KNum 1; E "encoding"; E "x"]]);
      ("y", ManyPaths [[E "hconcat"; KNum 0; E "encoding"; E "y"];
                       [E "hconcat"; KNum 1; E "encoding"; E "y"]]);
      ("color", ManyPaths [[E "hconcat"; KNum 0; E "encoding"; E "color"];
                           [E "hconcat"; KNum 1; E "encoding"; E "color"]]) ].
Hypothesis Hpost :
  ChartTemplate.postProcessor T = Some pyramidPostProcessor.

Lemma encodeChannel_pyramid channel encoding (a0 e0 a1 e1 : object) :
  exists e0' e1',
    encodeChannel T ct aggr fields rows channel encoding
      (pyramidDraft a0 e0 a1 e1)
    = Ok (pyramidDraft a0 e0' a1 e1')
    /\ (channel <> "color" ->
        obj_get e0' "color" = obj_get e0 "color"
        /\ obj_get e1' "color" = obj_get e1 "color")
    /\ (channel = "color" ->
        obj_get e0' "color"
        = channelWrite T ct aggr fields rows "color" encoding
            (obj_get e0 "color")
        /\ obj_get e1' "color"
           = channelWrite T ct aggr fields rows "color" encoding
               (obj_get e1 "color")).
Proof.
  rewrite encodeChannel_unmarked by reflexivity.
  unfold channelWrite, written. rewrite Hpaths. cbn [lookupPaths].
  which_channel; try (exists e0, e1; repeat split; congruence);
    (destruct (negb (List.length (encodingObjOf ct aggr fields rows _ encoding)
                     =? 0)%nat);
     [|exists e0, e1; repeat split; congruence]).
  - do 2 eexists. split; [reflexivity|]. split; [|congruence]. intros _.
    split; now apply obj_get_set_other.
  - do 2 eexists. split; [reflexivity|]. split; [|congruence]. intros _.
    split; now apply obj_get_set_other.
  - do 2 eexists. split; [reflexivity|]. split; [congruence|]. intros _.
    split; apply obj_get_set_same.
Qed.

Lemma at_path_left (k : string) (rest : path) (f : value -> result value)
    (a0 e0 a1 e1 : object) :
  at_path (E "hconcat" :: KNum 0 :: E "encoding" :: KStr k :: rest) f
    (pyramidDraft a0 e0 a1 e1)
  = (child <-- at_path rest f (obj_get e0 k) ;;
     Ok (pyramidDraft a0 (obj_set e0 k child) a1 e1)).
Proof.
  unfold pyramidDraft, E. simpl.
  destruct (at_path rest f (obj_get e0 k)); reflexivity.
Qed.

Lemma at_path_right (k : string) (rest : path) (f : value -> result value)
    (a0 e0 a1 e1 : object) :
  at_path (E "hconcat" :: KNum 1 :: E "encoding" :: KStr k :: rest) f
    (pyramidDraft a0 e0 a1 e1)
  = (child <-- at_path rest f (obj_get e1 k) ;;
     Ok (pyramidDraft a0 e0 a1 (obj_set e1 k child))).
Proof.
  unfold pyramidDraft, E. simpl.
  destruct (at_path rest f (obj_get e1 k)); reflexivity.
Qed.

Lemma pyramidPostProcessor_colours (c0 c1 : value) (spec : value) :
  pyramidColours c0 c1 spec ->
  exists spec',
    pyramidPostProcessor spec rows = Ok spec' /\ pyramidColours c0 c1 spec'.
Proof.
  intros Hq. eexists. split; [reflexivity|].
  apply tryAll_invariant; [|exact Hq].
  clear Hq. generalize spec. intros vg.
  unfold pyramidSteps. cbv zeta.
  repeat apply Forall_cons; [..|apply Forall_nil];
    intros s s' [a0 [e0 [a1 [e1 [-> [H0 H1]]]]]] Hstep;
    destruct (get_path [KStr "hconcat"; KNum 0; KStr "encoding"; KStr "color";
                         KStr "field"] vg) as [cf|]; try discriminate;
    cbn [rbind] in Hstep.
  - inversion Hstep; subst. exists (obj_set a0 "transform"
      (pyramidFilter cf (nth 0 (Set_values (map (fun r => row_get r cf) rows))
                           VUndefined))), e0, a1, e1. auto.
  - inversion Hstep; subst. eexists (obj_set a0 "title" _), e0, a1, e1.
    split; [reflexivity | auto].
  - inversion Hstep; subst. eexists a0, e0, (obj_set a1 "transform" _), e1.
    split; [reflexivity | auto].
  - inversion Hstep; subst. eexists a0, e0, (obj_set a1 "title" _), e1.
    split; [reflexivity | auto].
  - destruct (get_path [KStr "hconcat"; KNum 0; KStr "encoding"; KStr "x";
                         KStr "field"] (pyramidDraft a0 e0 a1 e1)) as [xf|];
      [|discriminate].
    cbn [rbind] in Hstep.
    change [KStr "hconcat"; KNum 0; KStr "encoding"; KStr "x"; KStr "scale"]
      with (E "hconcat" :: KNum 0 :: E "encoding" :: KStr "x"
            :: [KStr "scale"]) in Hstep.
    rewrite at_path_left in Hstep.
    destruct (at_path [KStr "scale"] _ (obj_get e0 "x")) as [x0|];
      [|discriminate].
    cbn [rbind] in Hstep. unfold assign_path in Hstep.
    cbn [removelast last] in Hstep.
    change [KStr "hconcat"; KNum 1; KStr "encoding"; KStr "x"]
      with (E "hconcat" :: KNum 1 :: E "encoding" :: KStr "x" :: [])
      in Hstep.
    rewrite at_path_right in Hstep. cbn [at_path] in Hstep.
    destruct (set_prop (obj_get e1 "x") _ _) as [x1|]; [|discriminate].
    cbn [rbind] in Hstep. inversion Hstep; subst.
    exists a0, (obj_set e0 "x" x0), a1, (obj_set e1 "x" x1).
    split; [reflexivity|].
    now rewrite !obj_get_set_other by discriminate.
Qed.

Lemma assembleSpec_pyramid (em : EncodingMap) (a0 e0 a1 e1 : object) :
  NoDup (map fst em) ->
  exists spec,
    assembleSpec T ct aggr fields rows em (pyramidDraft a0 e0 a1 e1) = Ok spec
    /\ get_path [E "hconcat"; KNum 0; E "encoding"; E "color"] spec
       = Ok (loopWrite T ct aggr fields rows em "color" (obj_get e0 "color"))
    /\ get_path [E "hconcat"; KNum 1; E "encoding"; E "color"] spec
       = Ok (loopWrite T ct aggr fields rows em "color" (obj_get e1 "color")).
Proof.
  intros Hnd.
  destruct (encodeAll_tracked T ct aggr fields rows (object * object)
              (fun s => pyramidDraft a0 (fst s) a1 (snd s))
              (fun _ => True) bool (fun _ => True) (fun _ => "color")
              (fun (b : bool) s =>
                 obj_get (if b then snd s else fst s) "color"))
    with (em := em) (s := (e0, e1))
    as [[e0' e1'] [Hloop [_ Hcol]]].
  - intros channel enc [a b] _. cbn [fst snd].
    destruct (encodeChannel_pyramid channel enc a0 a a1 b)
      as [a' [b' [Hrun [Hne Heq]]]].
    exists (a', b'). cbn [fst snd]. split; [exact Hrun|]. split; [exact I|].
    intros [|] _; split; intros Hc;
      first [now destruct (Hne Hc) | now destruct (Heq Hc)].
  - exact I.
  - cbn [fst snd] in Hloop, Hcol.
    pose proof (Hcol false I Hnd) as Hleft.
    pose proof (Hcol true I Hnd) as Hright. cbn [fst snd] in Hleft, Hright.
    destruct (pyramidPostProcessor_colours (obj_get e0' "color")
                (obj_get e1' "color") (pyramidDraft a0 e0' a1 e1'))
      as [spec' [Hpp [b0 [f0 [b1 [f1 [-> [H0 H1]]]]]]]].
    { exists a0, e0', a1, e1'. auto. }
    eexists. unfold assembleSpec, structuredClone. rewrite Hloop. cbn [rbind].
    change (handleFaceting (pyramidDraft a0 e0' a1 e1'))
      with (Ok (pyramidDraft a0 e0' a1 e1')).
    cbn [rbind]. unfold applyPostProcessor. rewrite Hpost, Hpp. cbn [rbind].
    split; [reflexivity|]. rewrite <- Hleft, <- Hright, <- H0, <- H1.
    split; reflexivity.
Qed.
End Pyramid.

(* ================================================================== *)
(** * 35. Where the colour channel ends up *)
(* ================================================================== *)

Section ColourPlace.
Context {host : JSHost}.
Variables (T : ChartTemplate.t) (ct : string) (aggr : bool)
  (fields : list FieldItem.t) (rows : list object) (em : EncodingMap).
Hypothesis Hnd : NoDup (map fst em).

Lemma colour_flat (m : value) :
  ChartTemplate.template T = markTemplate m ->
  flatPaths (ChartTemplate.paths T) = true -> flatPost T ->
  exists spec,
    assembleSpec T ct aggr fields rows em (ChartTemplate.template T) = Ok spec
    /\ get_path [E "encoding"; E "color"] spec
       = Ok (loopWrite T ct aggr fields rows em "color" VUndefined).
Proof.
  intros Htpl Hflat Hpost.
  destruct (assembleSpec_flat T ct aggr fields rows em m Hflat Hpost Hnd)
    as [e [ef [Hspec [_ [_ [Hloop Hfinal]]]]]].
  eexists. rewrite Htpl. split; [exact Hspec|].
  cbn [get_path get_prop key_toString obj_get rbind E].
  change ("mark" =? "encoding") with false.
  change ("encoding" =? "encoding") with true. cbv iota.
  cbn [get_prop key_toString rbind].
  rewrite Hfinal by discriminate.
  rewrite facetEncoding_other by discriminate.
  now rewrite Hloop by discriminate.
Qed.

Lemma colour_regression (e0 tr e1 : object) :
  ChartTemplate.template T = regressionDraft e0 tr e1 ->
  ChartTemplate.paths T
  = [ ("x", ManyPaths [
         [E "layer"; KNum 0; E "encoding"; E "x"];
         [E "layer"; KNum 1; E "encoding"; E "x"];
         [E "layer"; KNum 1; E "transform"; KNum 0; E "on"]]);
      ("y", ManyPaths [
         [E "layer"; KNum 0; E "encoding"; E "y"];
         [E "layer"; KNum 1; E "encoding"; E "y"];
         [E "layer"; KNum 1; E "transform"; KNum 0; E "regression"]]);
      ("color", OnePath [E "layer"; KNum 0; E "encoding"; E "color"]);
      ("size", OnePath [E "layer"; KNum 0; E "encoding"; E "size"]) ] ->
  ChartTemplate.postProcessor T = None ->
  exists spec,
    assembleSpec T ct aggr fields rows em (ChartTemplate.template T) = Ok spec
    /\ get_path [E "layer"; KNum 0; E "encoding"; E "color"] spec
       = Ok (loopWrite T ct aggr fields rows em "color" (obj_get e0 "color")).
Proof.
  intros Htpl Hpaths Hpost. rewrite Htpl.
  now apply assembleSpec_regression.
Qed.

Lemma colour_ranged (sh e0 e1 : object) :
  ChartTemplate.template T = rangedDraft sh e0 e1 ->
  obj_get sh "column" = VUndefined ->
  ChartTemplate.paths T
  = [ ("x", OnePath [E "encoding"; E "x"]);
      ("y", OnePath [E "encoding"; E "y"]);
      ("color", OnePath [E "layer"; KNum 1; E "encoding"; E "color"]) ] ->
  ChartTemplate.postProcessor T = Some rangedDotPlotPostProcessor ->
  exists spec,
    assembleSpec T ct aggr fields rows em (ChartTemplate.template T) = Ok spec
    /\ get_path [E "layer"; KNum 1; E "encoding"; E "color"] spec
       = Ok (loopWrite T ct aggr fields rows em "color" (obj_get e1 "color")).
Proof.
  intros Htpl Hsh Hpaths Hpost. rewrite Htpl.
  now apply assembleSpec_ranged.
Qed.

Lemma colour_pyramid (a0 e0 a1 e1 : object) :
  ChartTemplate.template T = pyramidDraft a0 e0 a1 e1 ->
  ChartTemplate.paths T
  = [ ("x", ManyPaths [[E "hconcat"; KNum 0; E "encoding"; E "x"];
                       [E "hconcat"; KNum 1; E "encoding"; E "x"]]);
      ("y", ManyPaths [[E "hconcat"; KNum 0; E "encoding"; E "y"];
                       [E "hconcat"; KNum 1; E "encoding"; E "y"]]);
      ("color", ManyPaths [[E "hconcat"; KNum 0; E "encoding"; E "color"];
                           [E "hconcat"; KNum 1; E "encoding"; E "color"]]) ] ->
  ChartTemplate.postProcessor T = Some pyramidPostProcessor ->
  exists spec,
    assembleSpec T ct aggr fields rows em (ChartTemplate.template T) = Ok spec
    /\ get_path [E "hconcat"; KNum 0; E "encoding"; E "color"] spec
       = Ok (loopWrite T ct aggr fields rows em "color" (obj_get e0 "color"))
    /\ get_path [E "hconcat"; KNum 1; E "encoding"; E "color"] spec
       = Ok (loopWrite T ct aggr fields rows em "color" (obj_get e1 "color")).
Proof.
  intros Htpl Hpaths Hpost. rewrite Htpl.
  now apply assembleSpec_pyramid.
Qed.
End ColourPlace.

Section ColourCatalogue.
Context {host : JSHost}.

(** Every path for the colour channel in the catalogue leads to a place
    that holds, once the specification is assembled, what the loop wrote
    over the entry the skeleton had there. *)
Lemma catalogue_colour (T : ChartTemplate.t) (po : pathObj) (p : path)
    (aggr : bool) (fields : list FieldItem.t) (rows : list object)
    (em : EncodingMap) :
  In T allTemplates ->
  lookupPaths (ChartTemplate.paths T) "color" = Some po ->
  In p (pathsOf po) ->
  NoDup (map fst em) ->
  (ChartTemplate.chart T =? "Table") = false
  /\ exists spec cur,
       assembleSpec T (ChartTemplate.chart T) aggr fields rows em
         (ChartTemplate.template T) = Ok spec
       /\ (cur = VUndefined \/ exists o, cur = VObj o)
       /\ get_path p spec
          = Ok (loopWrite T (ChartTemplate.chart T) aggr fields rows em
                  "color" cur).
Proof.
  intros Hin Hl Hp Hnd. each_template Hin;
    vm_compute in Hl; try discriminate; inversion Hl; subst po; clear Hl;
    cbn [pathsOf In] in Hp; (split; [reflexivity|]).
  all: lazymatch goal with
       | |- exists spec cur, assembleSpec ?T ?ct _ _ _ _ _ = _ /\ _ =>
           try (destruct Hp as [<-|[]];
                destruct (colour_flat T ct aggr fields rows em Hnd _
                            eq_refl eq_refl ltac:(flat_post))
                  as [spec [Hspec Hcol]];
                exists spec, VUndefined; split; [exact Hspec|];
                split; [now left | exact Hcol])
       end.
  - destruct Hp as [<-|[]].
    lazymatch goal with
    | |- exists spec cur, assembleSpec ?T ?ct _ _ _ _ _ = _ /\ _ =>
        destruct (colour_regression T ct aggr fields rows em Hnd _ _ _
                    eq_refl eq_refl eq_refl) as [spec [Hspec Hcol]]
    end.
    exists spec. eexists. split; [exact Hspec|].
    split; [|exact Hcol]. right. eexists. reflexivity.
  - destruct Hp as [<-|[]].
    lazymatch goal with
    | |- exists spec cur, assembleSpec ?T ?ct _ _ _ _ _ = _ /\ _ =>
        destruct (colour_ranged T ct aggr fields rows em Hnd _ _ _
                    eq_refl eq_refl eq_refl eq_refl) as [spec [Hspec Hcol]]
    end.
    exists spec. eexists. split; [exact Hspec|].
    split; [|exact Hcol]. right. eexists. reflexivity.
  - lazymatch goal with
    | |- exists spec cur, assembleSpec ?T ?ct _ _ _ _ _ = _ /\ _ =>
        destruct (colour_pyramid T ct aggr fields rows em Hnd _ _ _ _
                    eq_refl eq_refl eq_refl)
          as [spec [Hspec [Hleft Hright]]]
    end.
    exists spec. eexists. split; [exact Hspec|].
    split; [right; eexists; reflexivity|].
    destruct Hp as [<-|[<-|[]]]; [exact Hleft | exact Hright].
Qed.
End ColourCatalogue.

Lemma get_sub (o : object) (k sub : string) (v : value) :
  sub_get o k sub = v -> v <> VUndefined ->
  get_path [KStr k; KStr sub] (VObj o) = Ok v.
Proof.
  unfold sub_get. intros H Hv. cbn [get_path get_prop key_toString rbind].
  destruct (obj_get o k); try congruence.
  cbn [get_prop key_toString rbind]. now rewrite H.
Qed.

(** C8: on a heap that holds the catalogue, for an encoding map with
    distinct channels that binds the colour channel to a field whose
    display type is nominal and whose domain holds every value present in
    the working rows and at least one more, the call returns a
    specification in which, at every place the template has for the colour
    channel, [scale.domain] is the field's domain without duplicates,
    sorted, and [legend.values] is the present values, sorted. *)
Theorem colour_domain_is_stable {host : JSHost}
    (ct : string) (em : EncodingMap) (fl rl : loc) (mx : nat) (aggr : bool)
    (h : heap) (i : nat) (T : ChartTemplate.t) (encoding : EncodingItem)
    (f : FieldItem.t) (po : pathObj) (p : path) :
  getChartTemplate ct = Some (i, T) ->
  catalogueLoaded h ->
  (fl < List.length h)%nat -> (rl < List.length h)%nat ->
  NoDup (map fst em) ->
  In ("color", encoding) em ->
  lookupPaths (ChartTemplate.paths T) "color" = Some po ->
  In p (pathsOf po) ->
  findField encoding (fieldsAt h fl) = Some f ->
  displayType aggr (rowsAt h rl) "color" encoding f = VStr "nominal" ->
  strictSuperset (FieldItem.domain f) (presentValues (rowsAt h rl) f) ->
  exists spec,
    specOf (assembleVegaChart ct em fl rl mx aggr h) = Some spec
    /\ get_path (p ++ [KStr "scale"; KStr "domain"]) spec
       = Ok (VArr (Array_sort (Set_values (FieldItem.domain f))))
    /\ get_path (p ++ [KStr "legend"; KStr "values"]) spec
       = Ok (VArr (Array_sort (presentValues (rowsAt h rl) f))).
Proof.
  intros Hct Hcat Hfl Hrl Hnd Hin Hl Hp Hfield Hty Hsup.
  destruct (getChartTemplate_In ct i T Hct) as [HT Hname].
  destruct (catalogue_colour T po p aggr (fieldsAt h fl) (rowsAt h rl) em
              HT Hl Hp Hnd) as [Htable [spec [cur [Hspec [Hcur Hget]]]]].
  rewrite Hname in Htable, Hspec, Hget.
  destruct (catalogueLoaded_template h ct i T Hcat Hct) as [Hobj Hi].
  destruct (assembleVegaChart_run ct em fl rl mx aggr h i T Htable Hct Hi
              Hfl Hrl) as [ext Hrun].
  exists spec. rewrite Hrun, Hobj, Hspec.
  split; [apply specOf_returned|].
  pose proof (colour_encoding_pinned ct aggr (fieldsAt h fl) (rowsAt h rl)
                encoding f Hfield Hty Hsup) as [Hs [Hg [Hdom Hleg]]].
  pose proof (uniqueKeys_encodingObjOf ct aggr (fieldsAt h fl) (rowsAt h rl)
                "color" encoding) as Hu.
  unfold loopWrite, entryOf in Hget.
  rewrite (find_key_NoDup em "color" encoding Hnd Hin) in Hget.
  cbn [option_map snd] in Hget. unfold channelWrite, written in Hget.
  rewrite Hl in Hget.
  destruct (encodingObjOf ct aggr (fieldsAt h fl) (rowsAt h rl) "color"
              encoding) as [|kv eo] eqn:Eeo; [discriminate|].
  cbn [List.length Nat.eqb negb] in Hget.
  destruct (fillValue_entries (kv :: eo) cur Hcur) as [pre Hfill].
  rewrite Hfill in Hget.
  rewrite !get_path_app, Hget. cbn [rbind].
  split; apply get_sub; try discriminate.
  - unfold sub_get. rewrite Object_fromEntries_get by assumption. exact Hdom.
  - unfold sub_get. rewrite Object_fromEntries_get by assumption. exact Hleg.
Qed.

Lemma colour_domain_is_stable_witness :
  exists spec,
    specOf (@assembleVegaChart sampleHost "Bar Chart"
              [("x", boundTo "f-region"); ("y", boundTo "f-population");
               ("color", boundTo "f-country")]
              sampleFields sampleTable 68 false sampleHeap) = Some spec
    /\ get_path [KStr "encoding"; KStr "color"; KStr "scale"; KStr "domain"]
         spec
       = Ok (VArr [VStr "A"; VStr "B"; VStr "C"; VStr "D"])
    /\ get_path [KStr "encoding"; KStr "color"; KStr "legend"; KStr "values"]
         spec
       = Ok (VArr [VStr "A"; VStr "C"]).
Proof.
  apply (@colour_domain_is_stable sampleHost "Bar Chart"
           [("x", boundTo "f-region"); ("y", boundTo "f-population");
            ("color", boundTo "f-country")]
           sampleFields sampleTable 68 false sampleHeap 6
           (nth 6 (@allTemplates sampleHost)
              (ChartTemplate.mk "" "" VUndefined [] [] None))
           (boundTo "f-country") countryField
           (OnePath [KStr "encoding"; KStr "color"])
           [KStr "encoding"; KStr "color"]).
  - reflexivity.
  - eexists. reflexivity.
  - vm_compute. lia.
  - vm_compute. lia.
  - vm_compute. repeat constructor; simpl; intuition discriminate.
  - simpl. auto.
  - reflexivity.
  - simpl. auto.
  - reflexivity.
  - vm_compute. reflexivity.
  - split.
    + intros v Hv. vm_compute in Hv.
      destruct Hv as [<-|[<-|[]]]; reflexivity.
    + exists (VStr "B"). split; [simpl; auto | reflexivity].
Defined.

(* ================================================================== *)
(** * 36. More properties of the store slice *)
(* ================================================================== *)

Lemma find_filter_keep {A : Type} (test keep : A -> bool) (l : list A) :
  (forall x, In x l -> test x = true -> keep x = true) ->
  find test (filter keep l) = find test l.
Proof.
  induction l as [|a l IH]; intros H; simpl; [reflexivity|].
  destruct (keep a) eqn:Ek; simpl.
  - destruct (test a); [reflexivity|]. apply IH. intros x Hx. apply H. now right.
  - destruct (test a) eqn:Et.
    + rewrite (H a (or_introl eq_refl) Et) in Ek. discriminate.
    + apply IH. intros x Hx. apply H. now right.
Qed.

(** [deleteTable] leaves nothing that refers to the deleted id: no table
    carries it and no chart is drawn from it. *)
Theorem deleteTable_leaves_no_reference
    (s : DataFormulatorState) (payload : string) :
  (forall t, In t (tables (deleteTable s payload)) ->
     DictTable.id t <> payload)
  /\ (forall c, In c (charts (deleteTable s payload)) ->
        Chart.tableRef c <> payload).
Proof.
  split.
  - intros t Hin. unfold deleteTable in Hin. cbn [tables] in Hin.
    apply In_tables_deleteChartsRoutine in Hin. destruct Hin as [Hin _].
    cbn [tables] in Hin. apply filter_In in Hin. destruct Hin as [_ Hne].
    apply negb_true_iff, String.eqb_neq in Hne. exact Hne.
  - intros c Hin. unfold deleteTable in Hin. cbn [charts] in Hin.
    rewrite charts_deleteChartsRoutine in Hin. unfold remainingCharts in Hin.
    cbn [charts] in Hin. apply filter_In in Hin. destruct Hin as [Hc Hout].
    apply negb_true_iff, str_includes_false in Hout.
    intros Href. apply Hout. apply in_map. apply filter_In.
    split; [exact Hc | now apply String.eqb_eq].
Qed.

(** [deleteChartsRoutine] forgets the deleted charts: none is left in
    [charts] or in [chartSynthesisInProgress], and a focused chart id that
    is not the empty string is never one of them.  When the focused chart
    id is not empty and among the deleted ones, the focus moves to the
    first remaining chart and to the table it is drawn from, or is cleared
    when no chart remains.  The empty string does not count as a focused
    chart: a focus on it is left as it is, with the focused table, even
    when the empty string is among the deleted ids. *)
Theorem deleteChartsRoutine_forgets_deleted_charts
    (s : DataFormulatorState) (chartIds : list string) :
  let s' := deleteChartsRoutine s chartIds in
  (forall c, In c (charts s') -> ~ In (Chart.id c) chartIds)
  /\ (forall id, In id (chartSynthesisInProgress s') -> ~ In id chartIds)
  /\ (forall f, focusedChartId s' = Some f -> f <> "" -> ~ In f chartIds)
  /\ (forall f, focusedChartId s = Some f -> f <> "" -> In f chartIds ->
        match charts s' with
        | c0 :: _ =>
            focusedChartId s' = Some (Chart.id c0)
            /\ focusedTableId s' = Some (Chart.tableRef c0)
        | [] => focusedChartId s' = None /\ focusedTableId s' = None
        end)
  /\ (focusedChartId s = Some "" ->
      focusedChartId s' = Some "" /\ focusedTableId s' = focusedTableId s).
Proof.
  cbv zeta.
  assert (Hcharts : forall c, In c (remainingCharts s chartIds) ->
                              ~ In (Chart.id c) chartIds).
  { intros c Hin. unfold remainingCharts in Hin. apply filter_In in Hin.
    destruct Hin as [_ Hout]. now apply negb_true_iff, str_includes_false in Hout. }
  split; [exact Hcharts|]. split.
  - intros id Hin. unfold deleteChartsRoutine in Hin.
    cbn [chartSynthesisInProgress] in Hin. apply filter_In in Hin.
    destruct Hin as [_ Hout]. now apply negb_true_iff, str_includes_false in Hout.
  - rewrite charts_deleteChartsRoutine. fold (remainingCharts s chartIds).
    unfold deleteChartsRoutine. cbn [focusedChartId focusedTableId].
    fold (remainingCharts s chartIds). split; [|split].
    + intros f Hf Hne.
      destruct (focusedChartId s) as [f0|] eqn:Ef0.
      * destruct (negb (f0 =? "") && str_includes chartIds f0) eqn:Eref.
        -- destruct (remainingCharts s chartIds) as [|c0 rest] eqn:Er;
             [discriminate|].
           inversion Hf; subst. apply Hcharts. now left.
        -- inversion Hf; subst. apply andb_false_iff in Eref.
           destruct Eref as [E|E].
           ++ apply negb_false_iff, String.eqb_eq in E. congruence.
           ++ now apply str_includes_false.
      * discriminate.
    + intros f Hf Hne Hin. rewrite Hf.
      assert (Eref : negb (f =? "") && str_includes chartIds f = true).
      { apply andb_true_iff. split.
        - now apply negb_true_iff, String.eqb_neq.
        - now apply str_includes_In. }
      rewrite Eref.
      destruct (remainingCharts s chartIds) as [|c0 rest]; [now split|].
      split; [reflexivity|]. cbn [find]. now rewrite String.eqb_refl.
    + intros Hf. rewrite Hf. cbn [String.eqb negb andb]. now split.
Qed.

(** [clearUnReferencedTables] keeps the anchored tables and those a chart
    names; a chart drawn from a table of the store is drawn from the same
    table afterwards; running it again, or running the cascade of
    [deleteChartsRoutine] after it, removes nothing more. *)
Theorem clearUnReferencedTables_keeps_what_is_used (s : DataFormulatorState) :
  let s' := clearUnReferencedTables s in
  (forall t, In t (tables s) ->
     DictTable.anchored t = true
     \/ (exists c, In c (charts s) /\ Chart.tableRef c = DictTable.id t) ->
     In t (tables s'))
  /\ (forall c t, In c (charts s) ->
        find (fun t => DictTable.id t =? Chart.tableRef c) (tables s) = Some t ->
        getDataTable c (tables s') (charts s') (conceptShelfItems s') = t)
  /\ clearUnReferencedTables s' = s'
  /\ tables (deleteChartsRoutine s' []) = tables s'.
Proof.
  cbv zeta.
  assert (Hkeep : forall t, In t (tables (clearUnReferencedTables s)) <->
            In t (tables s)
            /\ (DictTable.anchored t = true
                \/ exists c, In c (charts s)
                             /\ Chart.tableRef c = DictTable.id t)).
  { intros t. unfold clearUnReferencedTables. cbn [tables withTables].
    rewrite filter_In, orb_true_iff, str_includes_In, in_map_iff.
    split; intros [Hin H]; (split; [exact Hin|]).
    - destruct H as [[c [Href Hc]]|Ha]; [right; eauto | now left].
    - destruct H as [Ha|[c [Hc Href]]]; [now right | left; eauto]. }
  split; [|split; [|split]].
  - intros t Hin H. apply Hkeep. now split.
  - intros c t Hc Hf. unfold getDataTable, clearUnReferencedTables.
    cbn [tables withTables]. rewrite find_filter_keep.
    + now rewrite Hf.
    + intros x Hx Hid. apply String.eqb_eq in Hid.
      apply orb_true_iff. left. apply str_includes_In. rewrite Hid.
      now apply in_map.
  - unfold clearUnReferencedTables at 1. unfold withTables.
    cbn [charts tables clearUnReferencedTables withTables conceptShelfItems
         focusedTableId focusedChartId chartSynthesisInProgress].
    unfold clearUnReferencedTables, withTables. f_equal.
    apply forallb_filter_id. apply forallb_forall. intros t Hin.
    apply filter_In in Hin. tauto.
  - rewrite tables_deleteChartsRoutine.
    apply forallb_filter_id. apply forallb_forall. intros t Hin.
    apply negb_true_iff, str_includes_false. intros Hdel.
    apply In_idsToDelete in Hdel.
    destruct Hdel as [[ta [Hta [Hida Ha]]] [_ Hr]].
    apply Hkeep in Hta. destruct Hta as [Hta [Hanch|[c [Hc Href]]]];
      [congruence|].
    apply Hr. rewrite remainingCharts_nil. unfold chartRefedTableIds.
    rewrite map_map. apply in_map_iff. exists c. split; [|exact Hc].
    rewrite <- Hida.
    apply getDataTable_id_of_ref; [|exact Href].
    apply Hkeep. split; [exact Hta|]. right. eauto.
Qed.

(** [clearUnReferencedCustomConcepts] removes only custom fields, and never
    one an encoding of a chart is bound to: every encoding of every chart
    resolves to the same field as before. *)
Theorem clearUnReferencedCustomConcepts_keeps_bound_fields
    (s : DataFormulatorState) :
  let s' := clearUnReferencedCustomConcepts s in
  (forall f, In f (conceptShelfItems s) -> FieldItem.source f <> FS_custom ->
     In f (conceptShelfItems s'))
  /\ (forall f, In f (conceptShelfItems s') -> In f (conceptShelfItems s))
  /\ (forall c channel encoding,
        In c (charts s) -> In (channel, encoding) (Chart.encodingMap c) ->
        findField encoding (conceptShelfItems s')
        = findField encoding (conceptShelfItems s)).
Proof.
  cbv zeta. unfold clearUnReferencedCustomConcepts.
  cbn [conceptShelfItems withConceptShelfItems]. split; [|split].
  - intros f Hin Hsrc. apply filter_In. split; [exact Hin|].
    apply orb_true_iff. left. destruct (FieldItem.source f); simpl; congruence.
  - intros f Hin. apply filter_In in Hin. tauto.
  - intros c channel encoding Hc Henc. unfold findField.
    destruct (fieldID encoding) as [fid|] eqn:Efid; [|reflexivity].
    destruct (negb (fid =? "")) eqn:Ene; [|reflexivity]. cbn [negb].
    apply find_filter_keep. intros x Hx Hid. apply String.eqb_eq in Hid.
    apply orb_true_iff. right. apply str_includes_In.
    unfold referencedFields. apply in_flat_map. exists c. split; [exact Hc|].
    apply in_flat_map. exists (channel, encoding). split; [exact Henc|].
    cbn [snd]. rewrite Efid, Ene, Hid. now left.
Qed.

Lemma findIndex_find {A : Type} (test : A -> bool) (l : list A) :
  match findIndex test l with
  | Some i => exists x, find test l = Some x /\ nth_error l i = Some x
  | None => find test l = None
  end.
Proof.
  induction l as [|a l IH]; simpl; [reflexivity|].
  destruct (test a) eqn:E.
  - exists a. now split.
  - destruct (findIndex test l) as [i|].
    + destruct IH as [x [Hf Hn]]. exists x. now split.
    + exact IH.
Qed.

(** The ids [key] reads are kept by the replacement. *)
Lemma find_replaceFound {A : Type} (key : A -> string) (v : A) (l : list A)
    (k : string) :
  find (fun x => key x =? k)
    (snd (replaceFound (fun x => key x =? key v) v l))
  = if (key v =? k) && fst (replaceFound (fun x => key x =? key v) v l)
    then Some v
    else find (fun x => key x =? k) l.
Proof.
  unfold replaceFound.
  induction l as [|a l IH]; simpl.
  - now rewrite andb_false_r.
  - destruct (key a =? key v) eqn:Ea; simpl.
    + rewrite andb_true_r. apply String.eqb_eq in Ea. rewrite Ea.
      now destruct (key v =? k).
    + destruct (findIndex (fun x => key x =? key v) l) as [i|]; simpl in *.
      * rewrite andb_true_r in *. destruct (key v =? k) eqn:Ev.
        -- apply String.eqb_eq in Ev. subst k. rewrite Ea. exact IH.
        -- destruct (key a =? k); [reflexivity | exact IH].
      * rewrite andb_false_r in *. reflexivity.
Qed.

Lemma fst_replaceFound {A : Type} (test : A -> bool) (v : A) (l : list A) :
  fst (replaceFound test v l) = existsb test l.
Proof.
  unfold replaceFound. induction l as [|a l IH]; simpl; [reflexivity|].
  destruct (test a); [reflexivity|]. simpl.
  destruct (findIndex test l); simpl in *; exact IH.
Qed.

Lemma length_set_at {A : Type} (l : list A) (i : nat) (v : A) :
  List.length (set_at l i v) = List.length l.
Proof.
  revert i. induction l as [|a l IH]; intros [|i]; simpl; auto.
Qed.

Lemma length_replaceFound {A : Type} (test : A -> bool) (v : A) (l : list A) :
  List.length (snd (replaceFound test v l)) = List.length l.
Proof.
  unfold replaceFound. destruct (findIndex test l); simpl;
    [apply length_set_at | reflexivity].
Qed.

Lemma replaceFound_absent {A : Type} (test : A -> bool) (v : A) (l : list A) :
  existsb test l = false -> snd (replaceFound test v l) = l.
Proof.
  intros H. rewrite <- (fst_replaceFound test v l) in H. unfold replaceFound in *.
  destruct (findIndex test l); simpl in *; [discriminate | reflexivity].
Qed.

Lemma find_app_key {A : Type} (test : A -> bool) (l1 l2 : list A) :
  find test (l1 ++ l2)
  = match find test l1 with
    | Some x => Some x
    | None => find test l2
    end.
Proof.
  induction l1 as [|a l1 IH]; simpl; [reflexivity|].
  destruct (test a); [reflexivity | exact IH].
Qed.

Lemma find_none_existsb {A : Type} (test : A -> bool) (l : list A) :
  existsb test l = false -> find test l = None.
Proof.
  induction l as [|a l IH]; simpl; [reflexivity|].
  destruct (test a); [discriminate | exact IH].
Qed.

(** Looking an id up after an upsert: the new item under its own id, what
    was there under any other. *)
Lemma find_upsert {A : Type} (key : A -> string) (v : A) (l : list A)
    (k : string) :
  find (fun x => key x =? k)
    (let (found, l') := replaceFound (fun x => key x =? key v) v l in
     if found then l' else l' ++ [v])
  = if key v =? k then Some v else find (fun x => key x =? k) l.
Proof.
  pose proof (find_replaceFound key v l k) as Hf.
  pose proof (fst_replaceFound (fun x => key x =? key v) v l) as Hfst.
  destruct (replaceFound (fun x => key x =? key v) v l) as [found l'] eqn:E.
  cbn [fst snd] in *. destruct found.
  - rewrite Hf, andb_true_r. reflexivity.
  - rewrite find_app_key, Hf, andb_false_r. cbn [find].
    destruct (key v =? k) eqn:Ev.
    + apply String.eqb_eq in Ev. rewrite <- Ev.
      rewrite (find_none_existsb _ _ (eq_sym Hfst)). reflexivity.
    + now destruct (find (fun x => key x =? k) l).
Qed.

(** [updateTable] and [overrideDerivedTables]: when a table carries the
    payload's id both put the payload in the place of the first such table,
    and looking that id up returns the payload; when none does,
    [updateTable] changes nothing and [overrideDerivedTables] appends the
    payload.  Lookups of other ids are not affected. *)
Theorem table_upsert_lookup (s : DataFormulatorState) (payload : DictTable.t)
    (id : string) :
  let present :=
    existsb (fun t => DictTable.id t =? DictTable.id payload) (tables s) in
  find (fun t => DictTable.id t =? id) (tables (overrideDerivedTables s payload))
  = (if DictTable.id payload =? id then Some payload
     else find (fun t => DictTable.id t =? id) (tables s))
  /\ find (fun t => DictTable.id t =? id) (tables (updateTable s payload))
     = (if (DictTable.id payload =? id) && present then Some payload
        else find (fun t => DictTable.id t =? id) (tables s))
  /\ (present = true ->
      tables (overrideDerivedTables s payload) = tables (updateTable s payload))
  /\ (present = false ->
      tables (updateTable s payload) = tables s
      /\ tables (overrideDerivedTables s payload) = tables s ++ [payload])
  /\ List.length (tables (updateTable s payload)) = List.length (tables s).
Proof.
  cbv zeta.
  pose proof (fst_replaceFound
                (fun t => DictTable.id t =? DictTable.id payload) payload
                (tables s)) as Hfst.
  assert (Hover : tables (overrideDerivedTables s payload)
                  = let (found, l') :=
                      replaceFound
                        (fun t => DictTable.id t =? DictTable.id payload)
                        payload (tables s) in
                    if found then l' else l' ++ [payload]).
  { unfold overrideDerivedTables.
    destruct (replaceFound _ payload (tables s)) as [found l']. reflexivity. }
  split; [|split; [|split; [|split]]].
  - rewrite Hover. apply (find_upsert DictTable.id).
  - unfold updateTable. cbn [tables withTables].
    rewrite (find_replaceFound DictTable.id), Hfst. reflexivity.
  - intros Hp. rewrite Hover. unfold updateTable. cbn [tables withTables].
    destruct (replaceFound _ payload (tables s)) as [found l'].
    cbn [fst snd] in *. rewrite Hfst, Hp. reflexivity.
  - intros Hp. rewrite Hover. unfold updateTable. cbn [tables withTables].
    rewrite (replaceFound_absent _ payload (tables s) Hp).
    pose proof (replaceFound_absent _ payload (tables s) Hp) as Hsnd.
    destruct (replaceFound _ payload (tables s)) as [found l'].
    cbn [fst snd] in *. rewrite Hfst, Hp, Hsnd. auto.
  - unfold updateTable. cbn [tables withTables]. apply length_replaceFound.
Qed.

Lemma table_upsert_lookup_witness :
  tables (updateTable sampleState (derivedTable "t-9" "t-root"))
  = tables sampleState
  /\ tables (overrideDerivedTables sampleState (derivedTable "t-9" "t-root"))
     = tables sampleState ++ [derivedTable "t-9" "t-root"].
Proof.
  apply (table_upsert_lookup sampleState (derivedTable "t-9" "t-root") "t-9").
  reflexivity.
Defined.

Lemma find_fold_upsert (payload shelf : list FieldItem.t) (id : string) :
  find (fun f => FieldItem.id f =? id) (fold_left upsertConcept payload shelf)
  = match find (fun f => FieldItem.id f =? id) (rev payload) with
    | Some f => Some f
    | None => find (fun f => FieldItem.id f =? id) shelf
    end.
Proof.
  revert shelf. induction payload as [|x payload IH]; intros shelf.
  - reflexivity.
  - cbn [fold_left rev]. rewrite IH, find_app_key.
    destruct (find (fun f => FieldItem.id f =? id) (rev payload));
      [reflexivity|].
    unfold upsertConcept. rewrite (find_upsert FieldItem.id). cbn [find].
    now destruct (FieldItem.id x =? id).
Qed.

(** [updateConceptItems] is an upsert by id: afterwards, looking an id up
    returns the last item of the payload that carries it, and what the
    shelf held when the payload has none. *)
Theorem updateConceptItems_lookup (s : DataFormulatorState)
    (payload : list FieldItem.t) (id : string) :
  find (fun f => FieldItem.id f =? id)
    (conceptShelfItems (updateConceptItems s payload))
  = match find (fun f => FieldItem.id f =? id) (rev payload) with
    | Some f => Some f
    | None => find (fun f => FieldItem.id f =? id) (conceptShelfItems s)
    end.
Proof.
  unfold updateConceptItems. cbn [conceptShelfItems withConceptShelfItems].
  apply find_fold_upsert.
Qed.

(** [changeChartRunningStatus] treats [chartSynthesisInProgress] as a set:
    a list without duplicates stays without duplicates, switching a chart
    on makes it a member and keeps the others, switching it off removes it
    and only it. *)
Theorem changeChartRunningStatus_keeps_a_set (s : DataFormulatorState)
    (chartId : string) (status : bool) :
  NoDup (chartSynthesisInProgress s) ->
  NoDup (chartSynthesisInProgress (changeChartRunningStatus s chartId status))
  /\ forall id,
       In id (chartSynthesisInProgress
                (changeChartRunningStatus s chartId status))
       <-> if status then id = chartId \/ In id (chartSynthesisInProgress s)
           else In id (chartSynthesisInProgress s) /\ id <> chartId.
Proof.
  intros Hnd. unfold changeChartRunningStatus. cbn [chartSynthesisInProgress].
  destruct status.
  - destruct (str_includes (chartSynthesisInProgress s) chartId) eqn:E;
      cbn [negb].
    + apply str_includes_In in E. split; [exact Hnd|].
      intros id. split; [now right|]. intros [->|H]; assumption.
    + apply str_includes_false in E. split.
      * apply NoDup_app; [exact Hnd | repeat constructor; simpl; tauto|].
        intros x Hx [<-|[]]. contradiction.
      * intros id. rewrite in_app_iff. simpl. intuition.
  - split.
    + now apply NoDup_filter.
    + intros id. rewrite filter_In, negb_true_iff, String.eqb_neq. tauto.
Qed.

Lemma changeChartRunningStatus_keeps_a_set_witness :
  NoDup (chartSynthesisInProgress
           (changeChartRunningStatus
              (changeChartRunningStatus sampleState "c-1" true) "c-1" true))
  /\ forall id,
       In id (chartSynthesisInProgress
                (changeChartRunningStatus
                   (changeChartRunningStatus sampleState "c-1" true)
                   "c-1" true))
       <-> id = "c-1"
           \/ In id (chartSynthesisInProgress
                       (changeChartRunningStatus sampleState "c-1" true)).
Proof.
  apply (changeChartRunningStatus_keeps_a_set
           (changeChartRunningStatus sampleState "c-1" true) "c-1" true).
  vm_compute. repeat constructor. simpl. tauto.
Defined.

Lemma find_app_fresh {A : Type} (test : A -> bool) (l : list A) (x : A) :
  (forall y, In y l -> test y = false) -> test x = true ->
  find test (l ++ [x]) = Some x.
Proof.
  intros Hl Hx. induction l as [|a l IH]; simpl.
  - now rewrite Hx.
  - rewrite (Hl a (or_introl eq_refl)). apply IH. intros y Hy. apply Hl.
    now right.
Qed.

(** Focusing a chart focuses its table: after [setFocusedChart], after
    [setFocusedChartId] with a non-empty id, and after [addAndFocusChart]
    with a chart whose id no chart of the store carries yet, the focused
    table is the table of the chart [getFocusedChart] returns; the chart
    added and focused is then the one [getFocusedChart] returns. *)
Theorem focusing_a_chart_focuses_its_table (s : DataFormulatorState) :
  (forall id, focusFollowsChart (setFocusedChart s id))
  /\ (forall id, id <> "" -> focusFollowsChart (setFocusedChartId s (Some id)))
  /\ (forall c, (forall c', In c' (charts s) -> Chart.id c' <> Chart.id c) ->
        getFocusedChart (addAndFocusChart s c) = Some c
        /\ focusFollowsChart (addAndFocusChart s c)).
Proof.
  split; [|split].
  - intros id. unfold focusFollowsChart, getFocusedChart, setFocusedChart.
    cbn [charts withFocus focusedChartId focusedTableId].
    destruct (find (fun c => Chart.id c =? id) (charts s)) as [c|] eqn:E;
      cbn [charts withFocus focusedChartId focusedTableId]; rewrite E;
      [reflexivity | exact I].
  - intros id Hne. unfold focusFollowsChart, getFocusedChart, setFocusedChartId.
    apply String.eqb_neq in Hne. rewrite Hne. cbn [negb].
    cbn [charts withFocus focusedChartId focusedTableId].
    destruct (find (fun c => Chart.id c =? id) (charts s)) as [c|] eqn:E;
      cbn [charts withFocus focusedChartId focusedTableId]; rewrite E;
      [reflexivity | exact I].
  - intros c Hfresh.
    assert (Hf : getFocusedChart (addAndFocusChart s c) = Some c).
    { unfold getFocusedChart, addAndFocusChart.
      cbn [charts withFocus withCharts focusedChartId].
      apply find_app_fresh; [|apply String.eqb_refl].
      intros y Hy. apply String.eqb_neq. now apply Hfresh. }
    split; [exact Hf|]. unfold focusFollowsChart. rewrite Hf. reflexivity.
Qed.

(* ================================================================== *)
(** * 37. Validation and data requirements of a chart *)
(* ================================================================== *)

Lemma find_ext_bool {A : Type} (f g : A -> bool) (l : list A) :
  (forall x, f x = g x) -> find f l = find g l.
Proof.
  intros H. induction l as [|a l IH]; simpl; [reflexivity|].
  rewrite H, IH. reflexivity.
Qed.

Lemma requiredChannelsBound_spec (em : EncodingMap) (fields : list FieldItem.t)
    (channels : list string) :
  requiredChannelsBound em fields channels = true <->
  forall channel, In channel channels ->
    exists encoding f,
      EncodingMap_get em channel = Some encoding
      /\ findField encoding fields = Some f.
Proof.
  induction channels as [|c channels IH]; simpl.
  - split; [intros _ channel [] | reflexivity].
  - assert (Hfind : forall fid,
              find (fun f => fid =? FieldItem.id f) fields
              = find (fun f => FieldItem.id f =? fid) fields).
    { intros fid. apply find_ext_bool. intros x. apply String.eqb_sym. }
    split.
    + intros H channel [<-|Hin].
      * destruct (EncodingMap_get em c) as [encoding|]; [|discriminate].
        unfold findField. exists encoding.
        destruct (fieldID encoding) as [fid|] eqn:E; [|discriminate].
        cbn [nonempty option_eqb] in H.
        destruct (negb (fid =? "")); [|discriminate].
        rewrite (Hfind fid) in H.
        destruct (find (fun f => FieldItem.id f =? fid) fields) as [f|];
          [eauto | discriminate].
      * apply IH; [|exact Hin].
        destruct (EncodingMap_get em c) as [encoding|]; [|discriminate].
        destruct (nonempty (fieldID encoding)); [|discriminate].
        destruct (find _ fields); [exact H | discriminate].
    + intros H. destruct (H c (or_introl eq_refl)) as [encoding [f [Hg Hf]]].
      rewrite Hg. unfold findField in Hf.
      destruct (fieldID encoding) as [fid|] eqn:E; [|discriminate].
      cbn [nonempty option_eqb]. destruct (negb (fid =? "")); [|discriminate].
      rewrite (Hfind fid), Hf. apply IH.
      intros channel Hin. apply H. now right.
Qed.

(** [validateChart] and [getChartDataRequirements] agree: a chart is valid
    exactly when its type is in the catalogue and each required channel the
    requirements report has an encoding bound to a field of the list, the
    way the assembler resolves it.  The required and the optional channels
    are the channels of the type, in order, and [minFields] counts the
    required ones; an unknown type has no requirement and no valid
    chart. *)
Theorem validateChart_checks_the_required_channels {host : JSHost}
    (chart : Chart.t) (fields : list FieldItem.t) :
  let requirements := getChartDataRequirements (Chart.chartType chart) in
  (validateChart chart fields = true <->
   getChartTemplate (Chart.chartType chart) <> None
   /\ forall channel, In channel (requiredChannels requirements) ->
        exists encoding f,
          EncodingMap_get (Chart.encodingMap chart) channel = Some encoding
          /\ findField encoding fields = Some f)
  /\ requiredChannels requirements ++ optionalChannels requirements
     = getChartChannels (Chart.chartType chart)
  /\ minFields requirements = List.length (requiredChannels requirements)
  /\ (List.length (requiredChannels requirements) <= 2)%nat.
Proof.
  cbv zeta. unfold validateChart, getChartDataRequirements, getChartChannels.
  destruct (getChartTemplate (Chart.chartType chart)) as [[i T]|];
    cbn [requiredChannels optionalChannels minFields].
  - split; [|split; [|split]].
    + rewrite requiredChannelsBound_spec. split.
      * intros H. split; [discriminate | exact H].
      * tauto.
    + apply firstn_skipn.
    + rewrite length_firstn. reflexivity.
    + rewrite length_firstn. lia.
  - repeat split; simpl; try tauto; try lia; try discriminate.
Qed.

(* ================================================================== *)
(** * 38. Aggregating the table for a chart *)
(* ================================================================== *)

Lemma obj_get_set_in_other (o : object) (k k' s : string) (v : value) :
  k <> k' -> obj_get (obj_set_in o k' s v) k = obj_get o k.
Proof.
  intros H. unfold obj_set_in. destruct (obj_get o k'); try reflexivity.
  now apply obj_get_set_other.
Qed.

Lemma obj_has_spread (target source : object) (k : string) :
  obj_has (spread target source) k
  = obj_has target k || existsb (fun kv => fst kv =? k) source.
Proof.
  unfold spread. revert target.
  induction source as [|[k0 v0] source IH]; intros target; simpl.
  - now rewrite orb_false_r.
  - rewrite IH, obj_has_set. cbn [fst].
    destruct (k0 =? k), (obj_has target k); reflexivity.
Qed.

Lemma existsb_key_obj_has (o : object) (k : string) :
  existsb (fun kv => fst kv =? k) o = obj_has o k.
Proof.
  induction o as [|[k0 v0] o IH]; simpl; [reflexivity | now rewrite IH].
Qed.

Lemma obj_has_fromEntries (entries : list (string * value)) (k : string) :
  obj_has (Object_fromEntries entries) k
  = existsb (fun kv => fst kv =? k) entries.
Proof. apply (obj_has_spread [] entries k). Qed.

Lemma existsb_key_In {B : Type} (l : list (string * B)) (k : string) :
  existsb (fun kv => fst kv =? k) l = true <-> In k (map fst l).
Proof.
  rewrite existsb_exists, in_map_iff. split.
  - intros [x [Hin E]]. apply String.eqb_eq in E. eauto.
  - intros [x [E Hin]]. exists x. split; [exact Hin | now apply String.eqb_eq].
Qed.

Lemma map_fst_mapi {A B : Type} (f : A -> nat -> B) (g : A -> string)
    (l : list A) :
  map fst (mapi (fun x i => (g x, f x i)) l) = map g l.
Proof.
  unfold mapi. rewrite map_map. cbn [fst].
  generalize 0%nat. induction l as [|a l IH]; intros n; simpl;
    [reflexivity | now rewrite IH].
Qed.

(** What the two arrays of [extractFieldsFromEncodingMap] hold. *)
Lemma extractFields_spec (allFields : list FieldItem.t) (em : EncodingMap) :
  forall acc,
  fold_left (extractStep allFields) em acc
  = (fst acc
     ++ flat_map (fun entry =>
                    match aggregate (snd entry) with
                    | Some aggr =>
                        [(option_map FieldItem.name
                            (findField (snd entry) allFields), aggr)]
                    | None => []
                    end) em,
     snd acc
     ++ flat_map (fun entry =>
                    match aggregate (snd entry),
                          findField (snd entry) allFields with
                    | None, Some f => [FieldItem.name f]
                    | _, _ => []
                    end) em).
Proof.
  induction em as [|entry em IH]; intros [agg grp]; simpl.
  - now rewrite !app_nil_r.
  - rewrite IH. unfold extractStep.
    destruct (aggregate (snd entry)) as [aggr|]; cbn [fst snd].
    + now rewrite <- app_assoc.
    + destruct (findField (snd entry) allFields) as [f|]; cbn [fst snd];
        [now rewrite <- app_assoc | reflexivity].
Qed.

Section PreparedColumns.
Context {host : JSHost} {d3 : D3}.

Lemma findField_In (encoding : EncodingItem) (fields : list FieldItem.t)
    (f : FieldItem.t) :
  findField encoding fields = Some f -> In f fields.
Proof.
  unfold findField. destruct (fieldID encoding); [|discriminate].
  destruct (negb (s =? "")); [|discriminate].
  intros H. now apply find_some in H.
Qed.

(** The [field] of the encoding object the loop body resolves in
    preprocessed mode. *)
Lemma field_of_preprocessed ct fields rows channel encoding :
  obj_get (encodingObjOf ct true fields rows channel encoding) "field"
  = match findField encoding fields, aggregate encoding with
    | _, Some Aggr_count => VStr "_count"
    | Some f, Some aggr =>
        VStr (FieldItem.name f ++ "_" ++ AggrOp_toString aggr)
    | Some f, None => VStr (FieldItem.name f)
    | None, _ => VUndefined
    end.
Proof.
  unfold encodingObjOf, resolveEncoding.
  destruct (handleSorting channel encoding (findField encoding fields)
              (resolveField ct true fields rows channel encoding) VUndefined)
    as [eo1 vg1] eqn:Es.
  assert (H1 : obj_get eo1 "field"
               = obj_get (resolveField ct true fields rows channel encoding)
                   "field").
  { replace eo1 with (fst (handleSorting channel encoding
                             (findField encoding fields)
                             (resolveField ct true fields rows channel encoding)
                             VUndefined)) by now rewrite Es.
    unfold handleSorting, sortByValues.
    repeat match goal with
           | |- obj_get (fst (if ?c then _ else _)) _ = _ => destruct c
           | |- obj_get (fst (match ?c with _ => _ end)) _ = _ => destruct c
           end; cbn [fst]; try reflexivity;
      now rewrite obj_get_set_other by discriminate. }
  cbn [fst].
  assert (H2 : forall eo, obj_get (handleScheme encoding
                                     (handleStacking encoding eo)) "field"
                          = obj_get eo "field").
  { intros eo. unfold handleScheme, handleStacking.
    repeat match goal with
           | |- context [match ?c with _ => _ end] => destruct c
           end;
      repeat first [ rewrite obj_get_set_in_other by discriminate
                   | rewrite obj_get_set_other by discriminate ];
        reflexivity. }
  rewrite H2, H1. unfold resolveField.
  assert (H3 : forall f eo,
            obj_get (withField ct channel encoding true rows f eo) "field"
            = obj_get (handleAggregation encoding true f
                         (fieldAndType channel rows f eo)) "field").
  { intros f eo. unfold withField, colorDomain, lineChartScale.
    repeat match goal with
           | |- context [if ?c then _ else _] => destruct c
           end;
      repeat first [ rewrite obj_get_set_in_other by discriminate
                   | rewrite obj_get_set_other by discriminate ];
        reflexivity. }
  destruct (findField encoding fields) as [f|].
  - rewrite H3. unfold handleAggregation.
    destruct (aggregate encoding) as [aggr|].
    + destruct aggr; cbn [isCount];
        rewrite ?obj_get_set_other by discriminate;
        rewrite obj_get_set_same; reflexivity.
    + unfold fieldAndType.
      destruct (option_eqb (FieldItem.semanticType f) "Year");
        [destruct (str_includes _ channel)|];
        rewrite ?obj_get_set_other by discriminate;
        rewrite obj_get_set_same; reflexivity.
  - unfold countWithoutField, initialEncodingObj. cbn [isSome negb andb].
    destruct (aggregate encoding) as [[]|]; cbn [isCount andb];
      destruct (channel =? "radius"); cbn [andb];
      rewrite ?obj_get_set_other by discriminate;
      rewrite ?obj_get_set_same; reflexivity.
Qed.

(** [prepVisTable] and the assembler agree on column names: when the
    encoding map holds an aggregate, and no field has an empty name, the
    [field] the assembler writes for an entry in preprocessed mode is a
    column of every row [prepVisTable] returns for that encoding map. *)
Theorem prepVisTable_has_the_columns_assembly_names
    (ct : string) (table rows : list object) (allFields : list FieldItem.t)
    (em : EncodingMap) (channel : string) (encoding : EncodingItem)
    (name : string) (row : object) :
  (forall f, In f allFields -> FieldItem.name f <> "") ->
  (exists c e, In (c, e) em /\ aggregate e <> None) ->
  In (channel, encoding) em ->
  obj_get (encodingObjOf ct true allFields rows channel encoding) "field"
  = VStr name ->
  In row (prepVisTable table allFields em) ->
  obj_has row name = true.
Proof.
  intros Hnames [c0 [e0 [Hin0 Hagg0]]] Hin Hfield Hrow.
  rewrite field_of_preprocessed in Hfield.
  unfold prepVisTable, extractFieldsFromEncodingMap in Hrow.
  rewrite extractFields_spec in Hrow. cbn [fst snd app] in Hrow.
  set (agg := flat_map _ em) in Hrow.
  set (grp := flat_map _ em) in Hrow.
  assert (Hagg : forall entry aggr, In entry em ->
            aggregate (snd entry) = Some aggr ->
            In (option_map FieldItem.name (findField (snd entry) allFields),
                aggr) agg).
  { intros entry aggr He Ha. unfold agg. apply in_flat_map. exists entry.
    split; [exact He|]. rewrite Ha. now left. }
  assert (Hne : (0 <? List.length agg)%nat = true).
  { destruct (aggregate e0) as [a0|] eqn:E0; [|congruence].
    pose proof (Hagg (c0, e0) a0 Hin0 E0) as H.
    destruct agg; [destruct H | reflexivity]. }
  rewrite Hne in Hrow. apply in_map_iff in Hrow.
  destruct Hrow as [g [<- _]]. unfold groupRow.
  rewrite !obj_has_spread.
  rewrite !(existsb_key_obj_has (Object_fromEntries _)), !obj_has_fromEntries.
  cbn [obj_has orb].
  destruct (aggregate encoding) as [aggr|] eqn:Ea.
  - pose proof (Hagg (channel, encoding) aggr Hin Ea) as Hmem.
    cbn [snd] in Hmem.
    assert (Hcount : aggr = Aggr_count ->
              name = "_count" ->
              existsb (fun kv => fst kv =? name)
                (if existsb (fun af => isCount (Some (snd af))) agg
                 then [("_count", num (Z.of_nat (List.length (snd g))))]
                 else []) = true).
    { intros -> ->.
      replace (existsb (fun af => isCount (Some (snd af))) agg) with true;
        [reflexivity|].
      symmetry. apply existsb_exists. eexists. split; [exact Hmem|].
      reflexivity. }
    destruct (findField encoding allFields) as [f|] eqn:Ef.
    + assert (Hother : aggr <> Aggr_count ->
                name = (FieldItem.name f ++ "_" ++ AggrOp_toString aggr)%string ->
                existsb (fun kv => fst kv =? name)
                  (map (aggregateEntry (snd g)) (filter isOtherAggregate agg))
                = true).
      { intros Hnc ->. apply existsb_exists.
        exists (aggregateEntry (snd g) (Some (FieldItem.name f), aggr)).
        split.
        - apply in_map. apply filter_In. split; [exact Hmem|].
          unfold isOtherAggregate. cbn [fst snd nonempty].
          apply andb_true_iff. split.
          + destruct aggr; try reflexivity. congruence.
          + apply negb_true_iff, String.eqb_neq. apply Hnames.
            apply (findField_In _ _ _ Ef).
        - cbn [aggregateEntry fst snd]. apply String.eqb_refl. }
      destruct aggr; injection Hfield as Hname; apply orb_true_iff;
        first [ left; apply orb_true_iff; right;
                apply Hcount; [reflexivity | now symmetry]
              | right; apply Hother; [discriminate | now symmetry] ].
    + destruct aggr; try discriminate. injection Hfield as Hname.
      apply orb_true_iff. left. apply orb_true_iff. right.
      apply Hcount; [reflexivity | now symmetry].
  - destruct (findField encoding allFields) as [f|] eqn:Ef; [|discriminate].
    injection Hfield as Hname. subst name.
    apply orb_true_iff. left. apply orb_true_iff. left.
    apply existsb_key_In.
    rewrite (map_fst_mapi (fun field i => nth i (fst g) VUndefined)
               (fun field => field)), map_id.
    unfold grp. apply in_flat_map. exists (channel, encoding).
    split; [exact Hin|]. cbn [snd]. rewrite Ea, Ef. now left.
Qed.
End PreparedColumns.

Lemma prepVisTable_has_the_columns_assembly_names_witness :
  obj_has
    (nth 0 (@prepVisTable sampleD3 sampleRows
              [countryField; regionField; populationField]
              [("x", boundTo "f-country"); ("y", summed "f-population")]) [])
    "Population_sum" = true.
Proof.
  apply (@prepVisTable_has_the_columns_assembly_names sampleHost sampleD3
           "Bar Chart" sampleRows sampleRows
           [countryField; regionField; populationField]
           [("x", boundTo "f-country"); ("y", summed "f-population")]
           "y" (summed "f-population") "Population_sum").
  - intros f [<-|[<-|[<-|[]]]]; discriminate.
  - exists "y", (summed "f-population"). split; [simpl; auto | discriminate].
  - simpl. auto.
  - vm_compute. reflexivity.
  - vm_compute. left. reflexivity.
Defined.

Lemma obj_get_spread_other (target source : object) (k : string) :
  ~ In k (map fst source) ->
  obj_get (spread target source) k = obj_get target k.
Proof.
  unfold spread. revert target.
  induction source as [|[k0 v0] source IH]; intros target Hn; simpl;
    [reflexivity|].
  simpl in Hn. rewrite IH by tauto. cbn [fst snd].
  apply obj_get_set_other. intros ->. tauto.
Qed.

Lemma keys_fromEntries_subset (entries : list (string * value)) (k : string) :
  In k (map fst (Object_fromEntries entries)) -> In k (map fst entries).
Proof.
  intros H. apply obj_has_In in H. rewrite obj_has_fromEntries in H.
  now apply existsb_key_In.
Qed.

(** No aggregated column can be taken for the count column. *)
Lemma aggregate_name_is_not_count (n : string) (aggr : AggrOp) :
  n <> "" -> aggr <> Aggr_count ->
  (n ++ "_" ++ AggrOp_toString aggr)%string <> "_count".
Proof.
  intros Hn Ha.
  destruct aggr; try congruence;
    destruct n as [|c1 [|c2 [|c3 [|c4 [|c5 [|c6 n]]]]]]; try congruence;
    cbn; intros H; repeat (injection H as ? H); try discriminate;
    destruct n; discriminate.
Qed.

Section PreparedEdges.
Context {host : JSHost} {d3 : D3}.

(** [prepVisTable] at its edges: without an aggregate in the encoding map
    the table is returned as it is; with an aggregate and no field to group
    by, the result is one row, whatever the table holds (an empty table
    too), and when a count is asked for, its [_count] is the number of rows
    of the table. *)
Theorem prepVisTable_without_group_by (table : list object)
    (allFields : list FieldItem.t) (em : EncodingMap) :
  ((forall c e, In (c, e) em -> aggregate e = None) ->
   prepVisTable table allFields em = table)
  /\ ((exists c e, In (c, e) em /\ aggregate e <> None) ->
      (forall c e, In (c, e) em -> aggregate e = None ->
         findField e allFields = None) ->
      exists row,
        prepVisTable table allFields em = [row]
        /\ ((exists c e, In (c, e) em /\ aggregate e = Some Aggr_count) ->
            obj_get row "_count" = num (Z.of_nat (List.length table)))).
Proof.
  unfold prepVisTable, extractFieldsFromEncodingMap.
  rewrite extractFields_spec. cbn [fst snd app].
  set (agg := flat_map _ em). set (grp := flat_map _ em). split.
  - intros Hnone.
    assert (Hagg : agg = []).
    { unfold agg. clear grp agg. induction em as [|[c e] em IH];
        [reflexivity|].
      simpl. rewrite (Hnone c e (or_introl eq_refl)). simpl. apply IH.
      intros c' e' Hin. apply (Hnone c'). now right. }
    now rewrite Hagg.
  - intros [c0 [e0 [Hin0 Hagg0]]] Hnogroup.
    assert (Hgrp : grp = []).
    { unfold grp. clear grp agg Hin0. induction em as [|[c e] em IH];
        [reflexivity|].
      simpl. destruct (aggregate e) eqn:Ea.
      - simpl. apply IH. intros c' e' Hin. apply (Hnogroup c'). now right.
      - rewrite (Hnogroup c e (or_introl eq_refl) Ea). simpl. apply IH.
        intros c' e' Hin. apply (Hnogroup c'). now right. }
    assert (Hne : (0 <? List.length agg)%nat = true).
    { destruct (aggregate e0) as [a0|] eqn:E0; [|congruence].
      assert (H : In (option_map FieldItem.name (findField e0 allFields), a0)
                    agg).
      { unfold agg. apply in_flat_map. exists (c0, e0). split; [exact Hin0|].
        cbn [snd]. rewrite E0. now left. }
      destruct agg; [destruct H | reflexivity]. }
    rewrite Hne, Hgrp. cbn [List.length Nat.ltb Nat.leb map].
    eexists. split; [reflexivity|].
    intros [c1 [e1 [Hin1 Hcount1]]].
    unfold groupRow. cbn [fst snd].
    rewrite obj_get_spread_other.
    + replace (existsb (fun af => isCount (Some (snd af))) agg) with true.
      * reflexivity.
      * symmetry. apply existsb_exists.
        exists (option_map FieldItem.name (findField e1 allFields), Aggr_count).
        split; [|reflexivity].
        unfold agg. apply in_flat_map. exists (c1, e1). split; [exact Hin1|].
        cbn [snd]. rewrite Hcount1. now left.
    + intros Hk. apply keys_fromEntries_subset in Hk.
      rewrite map_map in Hk. apply in_map_iff in Hk.
      destruct Hk as [[n a] [Hkey Hmem]]. apply filter_In in Hmem.
      destruct Hmem as [_ Hother]. unfold isOtherAggregate in Hother.
      cbn [fst snd] in Hother. apply andb_true_iff in Hother.
      destruct Hother as [Hnc Hnn].
      destruct n as [n|]; [|discriminate]. cbn [nonempty] in Hnn.
      apply negb_true_iff, String.eqb_neq in Hnn.
      cbn [aggregateEntry fst snd] in Hkey.
      apply (aggregate_name_is_not_count n a Hnn); [|exact Hkey].
      intros ->. discriminate.
Qed.
End PreparedEdges.

(* ================================================================== *)
(** * 39. Created tables and prepared rows *)
(* ================================================================== *)

Section CreatedTables.
Context {host : JSHost}.

(** The display type of a column whose type was inferred from its values
    is the display type of the same values under ['auto']. *)
Lemma getDType_of_inferred (values : list value) :
  getDType (inferTypeFromValueArray values) values = getDType DT_auto values
  /\ getDType (inferDataType values) values = getDType DT_auto values.
Proof.
  unfold inferTypeFromValueArray, inferDataType, getDType.
  destruct (List.length values =? 0)%nat eqn:E0.
  - split; reflexivity.
  - destruct (List.length (filter nonNull values) =? 0)%nat;
      [split; reflexivity|].
    destruct (forallb isBooleanLike (filter nonNull values));
      [split; reflexivity|].
    destruct (forallb isNumberLike (filter nonNull values));
      [split; reflexivity|].
    destruct (forallb isDateLike (filter nonNull values)); split; reflexivity.
Qed.

(** [createDictTable] keeps [names] and [types] parallel: the names are the
    keys of the first row (no column when there is no row), there is one
    type per name, the type inferred from that column over all rows; and
    the display type [getDType] gives a column under its stored type is the
    one it would give it under ['auto']. *)
Theorem createDictTable_types_follow_names (id : string) (rows : list object)
    (derive : option Derive) (anchored : bool)
    (explorativeQuestions : list string) :
  let t := createDictTable id rows derive anchored explorativeQuestions in
  DictTable.names t = match rows with
                      | [] => []
                      | row0 :: _ => map fst row0
                      end
  /\ List.length (DictTable.types t) = List.length (DictTable.names t)
  /\ (forall i name,
        nth_error (DictTable.names t) i = Some name ->
        exists type,
          nth_error (DictTable.types t) i = Some type
          /\ type = inferTypeFromValueArray
                      (columnValues (DictTable.rows t) name)
          /\ getDType type (columnValues (DictTable.rows t) name)
             = getDType DT_auto (columnValues (DictTable.rows t) name))
  /\ DictTable.rows t = rows /\ DictTable.displayId t = DictTable.id t.
Proof.
  cbv zeta. unfold createDictTable. destruct rows as [|row0 rows];
    cbn [DictTable.names DictTable.types DictTable.rows DictTable.displayId
         DictTable.id].
  - repeat split. intros [|i] name H; discriminate.
  - split; [reflexivity|]. split; [now rewrite length_map|].
    split; [|split; reflexivity].
    intros i name Hn. eexists. split; [|split; [reflexivity|]].
    + rewrite nth_error_map, Hn. reflexivity.
    + apply getDType_of_inferred.
Qed.

Lemma ToString_VStr (s : string) : ToString (VStr s) = s.
Proof. reflexivity. Qed.

Lemma stringify_keys (keys : list string) (r : object) :
  (forall k, In k keys -> obj_has r k = true) ->
  map fst
    (fold_left (fun r k => obj_set r k (VStr (ToString (obj_get r k)))) keys r)
  = map fst r.
Proof.
  revert r. induction keys as [|k keys IH]; intros r H; cbn [fold_left];
    [reflexivity|].
  pose proof (H k (or_introl eq_refl)) as Hk.
  rewrite IH.
  - rewrite keys_obj_set, Hk. reflexivity.
  - intros k' Hin. rewrite obj_has_set, (H k' (or_intror Hin)).
    apply orb_true_r.
Qed.

Lemma stringify_get (keys : list string) (r : object) (k : string) :
  obj_get
    (fold_left (fun r k => obj_set r k (VStr (ToString (obj_get r k)))) keys r)
    k
  = if existsb (fun k' => k' =? k) keys then VStr (ToString (obj_get r k))
    else obj_get r k.
Proof.
  revert r. induction keys as [|k0 keys IH]; intros r; cbn [fold_left existsb];
    [reflexivity|].
  rewrite IH. destruct (k0 =? k) eqn:E; cbn [orb].
  - apply String.eqb_eq in E. subst k0. rewrite obj_get_set_same.
    now destruct (existsb (fun k' => k' =? k) keys).
  - apply String.eqb_neq in E.
    rewrite obj_get_set_other by congruence. reflexivity.
Qed.

(** The rows attached to a specification are the working rows with the
    columns of date and Year fields turned into strings: as many rows, each
    with the keys of the original in their order, the value of a key that
    names such a field replaced by its string, every other value as it
    was. *)
Theorem prepareValues_stringifies_only_temporal_columns
    (conceptShelfItems : list FieldItem.t) (values : list object) :
  List.length (prepareValues conceptShelfItems values) = List.length values
  /\ forall i r,
       nth_error values i = Some r ->
       exists r',
         nth_error (prepareValues conceptShelfItems values) i = Some r'
         /\ map fst r' = map fst r
         /\ forall k,
              obj_get r' k
              = if isTemporalKey conceptShelfItems k && obj_has r k
                then VStr (ToString (obj_get r k))
                else obj_get r k.
Proof.
  unfold prepareValues. split; [apply length_map|].
  intros i r Hr. exists (stringifyTemporal conceptShelfItems r).
  split; [now rewrite nth_error_map, Hr|]. unfold stringifyTemporal. split.
  - apply stringify_keys. intros k Hk. apply filter_In in Hk.
    now apply obj_has_In.
  - intros k. rewrite stringify_get.
    destruct (existsb (fun k' => k' =? k)
                (filter (isTemporalKey conceptShelfItems) (map fst r))) eqn:E.
    + apply existsb_exists in E. destruct E as [k' [Hin Heq]].
      apply String.eqb_eq in Heq. subst k'. apply filter_In in Hin.
      destruct Hin as [Hin Ht]. rewrite Ht.
      apply obj_has_In in Hin. now rewrite Hin.
    + destruct (isTemporalKey conceptShelfItems k) eqn:Ht; [|reflexivity].
      destruct (obj_has r k) eqn:Hh; [|reflexivity]. exfalso.
      assert (Hex : existsb (fun k' => k' =? k)
                      (filter (isTemporalKey conceptShelfItems) (map fst r))
                    = true).
      { apply existsb_exists. exists k. split; [|apply String.eqb_refl].
        apply filter_In. split; [now apply obj_has_In | exact Ht]. }
      congruence.
Qed.
End CreatedTables.

(* ================================================================== *)
(** * 40. Fresh charts *)
(* ================================================================== *)

Lemma EncodingMap_get_set (em : EncodingMap) (c c' : string)
    (e : EncodingItem) :
  EncodingMap_get (EncodingMap_set em c e) c'
  = if c =? c' then Some e else EncodingMap_get em c'.
Proof.
  unfold EncodingMap_get.
  induction em as [|[c0 e0] em IH]; simpl.
  - now destruct (c =? c').
  - destruct (c0 =? c) eqn:E0; simpl.
    + apply String.eqb_eq in E0. subst c0. now destruct (c =? c').
    + destruct (c0 =? c') eqn:E1; simpl; [|exact IH].
      destruct (c =? c') eqn:E2; [|reflexivity].
      apply String.eqb_eq in E1, E2. subst. now rewrite String.eqb_refl in E0.
Qed.

Lemma EncodingMap_get_fold (chs : list string) (e : EncodingItem) :
  forall acc c',
  EncodingMap_get
    (fold_left (fun acc channel => EncodingMap_set acc channel e) chs acc) c'
  = if existsb (fun c => c =? c') chs then Some e else EncodingMap_get acc c'.
Proof.
  induction chs as [|c chs IH]; intros acc c'; cbn [fold_left existsb];
    [reflexivity|].
  rewrite IH, EncodingMap_get_set.
  destruct (existsb (fun c0 => c0 =? c') chs); [now rewrite orb_true_r|].
  rewrite orb_false_r. reflexivity.
Qed.

Lemma In_EncodingMap_set (em : EncodingMap) (c : string) (e : EncodingItem)
    (entry : string * EncodingItem) :
  In entry (EncodingMap_set em c e) -> In entry em \/ entry = (c, e).
Proof.
  induction em as [|[c0 e0] em IH]; simpl.
  - intros [<-|[]]. now right.
  - destruct (c0 =? c) eqn:E; simpl.
    + apply String.eqb_eq in E. subst c0. intros [<-|H]; auto.
    + intros [<-|H]; auto. destruct (IH H); auto.
Qed.

Lemma In_EncodingMap_fold (chs : list string) (e : EncodingItem)
    (entry : string * EncodingItem) :
  forall acc,
  In entry
    (fold_left (fun acc channel => EncodingMap_set acc channel e) chs acc) ->
  In entry acc \/ (In (fst entry) chs /\ snd entry = e).
Proof.
  induction chs as [|c chs IH]; intros acc H; cbn [fold_left] in H;
    [now left|].
  destruct (IH _ H) as [Hin|[Hc He]].
  - destruct (In_EncodingMap_set _ _ _ _ Hin) as [H0| ->]; [now left|].
    right. simpl. auto.
  - right. simpl. auto.
Qed.

Section FreshCharts.
Context {host : JSHost}.

Lemma forEach_all_skipped {A : Type} (body : A -> M unit) (xs : list A) :
  (forall x, In x xs -> forall h, body x h = Returned tt h) ->
  forall h, forEach xs body h = Returned tt h.
Proof.
  induction xs as [|x xs IH]; intros H h; cbn [forEach]; [reflexivity|].
  unfold bind. rewrite (H x (or_introl eq_refl)). apply IH.
  intros y Hy. apply H. now right.
Qed.

(** An encoding map of blank encodings assembles as the empty one. *)
Lemma assembleVegaChart_all_blank ct em fl rl mx aggr h :
  (forall c e, In (c, e) em -> blankEncoding c e aggr = true) ->
  assembleVegaChart ct em fl rl mx aggr h
  = assembleVegaChart ct [] fl rl mx aggr h.
Proof.
  intros Hblank. unfold assembleVegaChart.
  destruct (ct =? "Table"); [reflexivity|].
  destruct (getChartTemplate ct) as [[i T]|]; [|reflexivity].
  unfold bind at 1. unfold bind at 1. symmetry.
  unfold bind at 1. unfold bind at 1. symmetry.
  destruct (readObj (templateLoc i) h) as [sk h1|e h1]; [|reflexivity].
  destruct (alloc (ObjCell (structuredClone sk)) h1) as [vgObj h2|e h2];
    [|reflexivity].
  unfold bind at 1. symmetry. unfold bind at 1. symmetry.
  rewrite forEach_all_skipped; [reflexivity|].
  intros [c e] Hin h'. apply loopBody_blank. now apply Hblank.
Qed.

(** No chart type of the catalogue has a [radius] channel. *)
Lemma no_radius_channel (ct : string) : ~ In "radius" (getChartChannels ct).
Proof.
  unfold getChartChannels.
  destruct (getChartTemplate ct) as [[i T]|] eqn:E; [|intros []].
  apply getChartTemplate_In in E. destruct E as [Hin _].
  each_template Hin; cbn [ChartTemplate.channels In];
    intuition discriminate.
Qed.

(** A chart as [generateFreshChart] or [createDefaultChart] builds it binds
    no field: assembling its encoding map gives what assembling the empty
    encoding map gives, whatever the chart type and the heap, and
    [validateChart] accepts it only when its type has no channel at all. *)
Theorem fresh_chart_assembles_as_the_bare_template
    (now : Z) (random : Q) (generatedId tableRef ct : string)
    (source : ChartSource) (fields : list FieldItem.t)
    (fl rl : loc) (mx : nat) (aggr : bool) (h : heap) :
  let fresh := generateFreshChart now random tableRef ct source in
  let default := createDefaultChart generatedId tableRef ct in
  assembleVegaChart ct (Chart.encodingMap fresh) fl rl mx aggr h
  = assembleVegaChart ct [] fl rl mx aggr h
  /\ assembleVegaChart ct (Chart.encodingMap default) fl rl mx aggr h
     = assembleVegaChart ct [] fl rl mx aggr h
  /\ (validateChart fresh fields = true <->
      getChartTemplate ct <> None /\ getChartChannels ct = [])
  /\ (validateChart default fields = true <->
      getChartTemplate ct <> None /\ getChartChannels ct = []).
Proof.
  cbv zeta. split; [|split; [|split]].
  - apply assembleVegaChart_all_blank. intros c e Hin.
    unfold generateFreshChart in Hin. cbn [Chart.encodingMap] in Hin.
    apply In_EncodingMap_fold in Hin. destruct Hin as [[]|[Hc He]].
    cbn [fst snd] in Hc, He. subst e. unfold blankEncoding.
    cbn [fieldID aggregate sortBy sortOrder stack scheme nonempty isSome
         isCount negb andb].
    rewrite !andb_true_r. apply negb_true_iff, String.eqb_neq.
    intros ->. exact (no_radius_channel ct Hc).
  - apply assembleVegaChart_all_blank. intros c e Hin.
    unfold createDefaultChart in Hin. cbn [Chart.encodingMap] in Hin.
    unfold createEmptyEncodingMap in Hin.
    apply In_EncodingMap_fold in Hin. destruct Hin as [[]|[Hc He]].
    cbn [fst snd] in Hc, He. subst e. unfold blankEncoding, emptyEncoding.
    cbn [fieldID aggregate sortBy sortOrder stack scheme nonempty isSome
         isCount negb andb].
    rewrite !andb_true_r. apply negb_true_iff, String.eqb_neq.
    intros ->. unfold CHANNEL_LIST in Hc. simpl in Hc. intuition discriminate.
  - unfold validateChart, generateFreshChart, getChartChannels.
    cbn [Chart.chartType Chart.encodingMap].
    destruct (getChartTemplate ct) as [[i T]|]; [|split; [discriminate|]].
    + destruct (ChartTemplate.channels T) as [|c chs] eqn:Ech.
      * simpl. split; [intros _; split; [discriminate | reflexivity] | auto].
      * split; [|intros [_ H]; discriminate].
        cbn [firstn requiredChannelsBound].
        rewrite EncodingMap_get_fold. cbn [existsb].
        rewrite String.eqb_refl. cbn [orb fieldID nonempty]. discriminate.
    + intros [H _]. now elim H.
  - unfold validateChart, createDefaultChart, getChartChannels.
    cbn [Chart.chartType Chart.encodingMap].
    destruct (getChartTemplate ct) as [[i T]|]; [|split; [discriminate|]].
    + destruct (ChartTemplate.channels T) as [|c chs] eqn:Ech.
      * simpl. split; [intros _; split; [discriminate | reflexivity] | auto].
      * split; [|intros [_ H]; discriminate].
        cbn [firstn requiredChannelsBound]. unfold createEmptyEncodingMap.
        rewrite EncodingMap_get_fold.
        destruct (existsb (fun c0 => c0 =? c) CHANNEL_LIST);
          cbn [EncodingMap_get find option_map emptyEncoding fieldID nonempty];
          discriminate.
    + intros [H _]. now elim H.
Qed.
End FreshCharts.

(* ================================================================== *)
(** * 41. Assembly never fails on a chart type of the catalogue *)
(* ================================================================== *)

Section ClosedLoop.
Context {host : JSHost}.
Variables (T : ChartTemplate.t) (ct : string) (aggr : bool)
  (fields : list FieldItem.t) (rows : list object).
Variables (S : Type) (rep : S -> value) (Inv : S -> Prop).
Hypothesis step : forall channel encoding s, Inv s ->
  exists s',
    encodeChannel T ct aggr fields rows channel encoding (rep s) = Ok (rep s')
    /\ Inv s'.

(** The loop stays among the drafts of a shape its body stays in. *)
Lemma encodeAll_closed (em : EncodingMap) :
  forall s, Inv s ->
  exists s', encodeAll T ct aggr fields rows em (rep s) = Ok (rep s') /\ Inv s'.
Proof.
  induction em as [|[c enc0] em IH]; intros s Hs.
  - exists s. now split.
  - destruct (step c enc0 s Hs) as [s1 [Hrun Hs1]].
    destruct (IH s1 Hs1) as [s' [Hrest Hs']].
    exists s'. cbn [encodeAll fst snd]. rewrite Hrun. cbn [rbind]. now split.
Qed.
End ClosedLoop.

Section TotalAssembly.
Context {host : JSHost}.
Variables (T : ChartTemplate.t) (ct : string) (aggr : bool)
  (fields : list FieldItem.t) (rows : list object) (em : EncodingMap).

Lemma fillPaths_block (eo : object) (m : value) (ps : list path) :
  forallb isBlockPath ps = true ->
  forall e, uniqueKeys e -> objectsOnly e ->
  exists e',
    fillPaths eo ps (flatDraft m e) = Ok (flatDraft m e')
    /\ uniqueKeys e' /\ objectsOnly e'.
Proof.
  induction ps as [|p ps IH]; intros Hps e Hu Ho.
  - exists e. repeat split; assumption.
  - cbn [forallb] in Hps. apply andb_true_iff in Hps. destruct Hps as [Hp Hps].
    destruct p as [|[block|] [|[k|] [|]]]; try discriminate.
    apply String.eqb_eq in Hp. subst block.
    cbn [fillPaths]. rewrite fillPath_flat. cbn [rbind].
    destruct (fillValue_object eo (obj_get e k) (Ho k)) as [o Hfill].
    rewrite Hfill. apply IH; [exact Hps | |].
    + now apply uniqueKeys_obj_set.
    + now apply objectsOnly_set.
Qed.

Lemma lookupPaths_block (paths : list (string * pathObj)) (c : string)
    (po : pathObj) :
  blockPaths paths = true -> lookupPaths paths c = Some po ->
  forallb isBlockPath (pathsOf po) = true.
Proof.
  unfold blockPaths. induction paths as [|[c0 po0] paths IH]; simpl;
    [discriminate|].
  intros H Hl. apply andb_true_iff in H. destruct H as [H0 H].
  destruct (c0 =? c); [inversion Hl; now subst | now apply IH].
Qed.

(** Templates [{ mark, encoding: {} }] whose paths all lead into the
    [encoding] block: the post-processor runs on a draft of that shape, and
    what it returns is the specification but for the data. *)
Lemma assembleSpec_block (m : value) :
  blockPaths (ChartTemplate.paths T) = true -> flatPost T ->
  exists e ef,
    uniqueKeys e /\ objectsOnly e
    /\ applyPostProcessor T rows (flatDraft m e) = Ok (flatDraft m ef)
    /\ assembleSpec T ct aggr fields rows em (markTemplate m)
       = Ok (VObj [("mark", m); ("encoding", VObj ef);
                   ("data", dataOf fields rows)]).
Proof.
  intros Hblock Hpost.
  destruct (encodeAll_closed T ct aggr fields rows object (flatDraft m)
              (fun e => uniqueKeys e /\ objectsOnly e)) with (em := em) (s := @nil (string * value))
    as [e [Hloop [Hu Ho]]].
  - intros channel encoding e [Hu Ho].
    destruct (resolveEncoding_flat ct aggr fields rows channel encoding m e)
      as [e1 [Hres Hord]].
    destruct (orderOnly_facts e e1 Hord Hu Ho) as [Hu1 [Ho1 _]].
    unfold encodeChannel. rewrite Hres.
    destruct (lookupPaths (ChartTemplate.paths T) channel) as [po|] eqn:Hl;
      [|exists e1; auto].
    destruct (negb (List.length (encodingObjOf ct aggr fields rows channel
                                   encoding) =? 0)%nat); [|exists e1; auto].
    destruct (fillPaths_block
                (encodingObjOf ct aggr fields rows channel encoding) m
                (pathsOf po) (lookupPaths_block _ _ _ Hblock Hl) e1 Hu1 Ho1)
      as [e2 [Hfill [Hu2 Ho2]]].
    exists e2. auto.
  - split; [apply NoDup_nil | apply objectsOnly_nil].
  - assert (Huf : uniqueKeys (facetEncoding e)).
    { unfold facetEncoding. destruct (obj_get e "column"); auto.
      destruct (negb (truthy (obj_get e "row"))); auto.
      now apply uniqueKeys_obj_delete, uniqueKeys_obj_set. }
    assert (Hof : objectsOnly (facetEncoding e)).
    { unfold facetEncoding. destruct (obj_get e "column"); auto.
      destruct (negb (truthy (obj_get e "row"))); auto.
      apply objectsOnly_delete; [now apply uniqueKeys_obj_set|].
      now apply objectsOnly_set. }
    destruct (applyPostProcessor_flat T rows m (facetEncoding e) Hpost Huf Hof)
      as [ef [Hpp _]].
    exists (facetEncoding e), ef. repeat split; auto.
    unfold assembleSpec, structuredClone.
    change (markTemplate m) with (flatDraft m []).
    rewrite Hloop. cbn [rbind]. rewrite (handleFaceting_flat m e Ho).
    cbn [rbind]. rewrite Hpp. cbn [rbind]. reflexivity.
Qed.

(** The template of the chart type Auto: [{}], no path. *)
Lemma assembleSpec_bare :
  ChartTemplate.paths T = [] -> ChartTemplate.postProcessor T = None ->
  exists o,
    assembleSpec T ct aggr fields rows em (VObj [])
    = Ok (VObj (obj_set o "data" (dataOf fields rows))).
Proof.
  intros Hpaths Hpost.
  destruct (encodeAll_closed T ct aggr fields rows unit (fun _ => VObj [])
              (fun _ => True)) with (em := em) (s := tt) as [[] [Hloop _]].
  - intros channel encoding [] _. exists tt.
    rewrite encodeChannel_unmarked by reflexivity.
    rewrite Hpaths. now split.
  - exact I.
  - exists []. unfold assembleSpec, structuredClone. rewrite Hloop.
    cbn [rbind]. unfold applyPostProcessor. rewrite Hpost. reflexivity.
Qed.

Lemma assembleSpec_regression_total (e0 tr e1 : object) :
  ChartTemplate.paths T
  = [ ("x", ManyPaths [
         [E "layer"; KNum 0; E "encoding"; E "x"];
         [E "layer"; KNum 1; E "encoding"; E "x"];
         [E "layer"; KNum 1; E "transform"; KNum 0; E "on"]]);
      ("y", ManyPaths [
         [E "layer"; KNum 0; E "encoding"; E "y"];
         [E "layer"; KNum 1; E "encoding"; E "y"];
         [E "layer"; KNum 1; E "transform"; KNum 0; E "regression"]]);
      ("color", OnePath [E "layer"; KNum 0; E "encoding"; E "color"]);
      ("size", OnePath [E "layer"; KNum 0; E "encoding"; E "size"]) ] ->
  ChartTemplate.postProcessor T = None ->
  exists o,
    assembleSpec T ct aggr fields rows em (regressionDraft e0 tr e1)
    = Ok (VObj (obj_set o "data" (dataOf fields rows))).
Proof.
  intros Hpaths Hpost.
  destruct (encodeAll_closed T ct aggr fields rows (object * object * object)
              (fun s => regressionDraft (fst (fst s)) (snd (fst s)) (snd s))
              (fun _ => True)) with (em := em) (s := (e0, tr, e1))
    as [[[e0' tr'] e1'] [Hloop _]].
  - intros channel enc [[a b] c] _. cbn [fst snd].
    destruct (encodeChannel_regression T ct aggr fields rows Hpaths channel
                enc a b c) as [a' [b' [c' [Hrun _]]]].
    exists (a', b', c'). now split.
  - exact I.
  - cbn [fst snd] in Hloop. eexists. unfold assembleSpec, structuredClone.
    rewrite Hloop. cbn [rbind]. unfold applyPostProcessor. rewrite Hpost.
    reflexivity.
Qed.

Lemma assembleSpec_ranged_total (sh e0 e1 : object) :
  obj_get sh "column" = VUndefined ->
  ChartTemplate.paths T
  = [ ("x", OnePath [E "encoding"; E "x"]);
      ("y", OnePath [E "encoding"; E "y"]);
      ("color", OnePath [E "layer"; KNum 1; E "encoding"; E "color"]) ] ->
  ChartTemplate.postProcessor T = Some rangedDotPlotPostProcessor ->
  exists o,
    assembleSpec T ct aggr fields rows em (rangedDraft sh e0 e1)
    = Ok (VObj (obj_set o "data" (dataOf fields rows))).
Proof.
  intros Hsh Hpaths Hpost.
  destruct (encodeAll_closed T ct aggr fields rows (object * object * object)
              (fun s => rangedDraft (fst (fst s)) (snd (fst s)) (snd s))
              (fun s => obj_get (fst (fst s)) "column" = VUndefined))
    with (em := em) (s := (sh, e0, e1))
    as [[[sh' e0'] e1'] [Hloop Hcolumn]].
  - intros channel enc [[a b] c] Ha. cbn [fst snd] in *.
    destruct (encodeChannel_ranged T ct aggr fields rows Hpaths channel enc
                a b c) as [a' [b' [c' [Hrun [Hkeep _]]]]].
    exists (a', b', c'). cbn [fst snd]. split; [exact Hrun | congruence].
  - exact Hsh.
  - cbn [fst snd] in Hloop, Hcolumn.
    destruct (rangedDotPlotPostProcessor_draft rows sh' e0' e1')
      as [e0'' Hpp].
    eexists. unfold assembleSpec, structuredClone. rewrite Hloop. cbn [rbind].
    assert (Hfacet : handleFaceting (rangedDraft sh' e0' e1')
                     = Ok (rangedDraft sh' e0' e1')).
    { unfold handleFaceting, rangedDraft.
      cbn [get_prop key_toString obj_get rbind].
      change ("encoding" =? "encoding") with true. cbv iota.
      unfold get_prop_opt. cbn [get_prop key_toString]. rewrite Hcolumn.
      reflexivity. }
    rewrite Hfacet. cbn [rbind].
    unfold applyPostProcessor. rewrite Hpost, Hpp. cbn [rbind]. reflexivity.
Qed.

Lemma assembleSpec_pyramid_total (a0 e0 a1 e1 : object) :
  ChartTemplate.paths T
  = [ ("x", ManyPaths [[E "hconcat"; KNum 0; E "encoding"; E "x"];
                       [E "hconcat"; KNum 1; E "encoding"; E "x"]]);
      ("y", ManyPaths [[E "hconcat"; KNum 0; E "encoding"; E "y"];
                       [E "hconcat"; KNum 1; E "encoding"; E "y"]]);
      ("color", ManyPaths [[E "hconcat"; KNum 0; E "encoding"; E "color"];
                           [E "hconcat"; KNum 1; E "encoding"; E "color"]]) ] ->
  ChartTemplate.postProcessor T = Some pyramidPostProcessor ->
  exists o,
    assembleSpec T ct aggr fields rows em (pyramidDraft a0 e0 a1 e1)
    = Ok (VObj (obj_set o "data" (dataOf fields rows))).
Proof.
  intros Hpaths Hpost.
  destruct (encodeAll_closed T ct aggr fields rows (object * object)
              (fun s => pyramidDraft a0 (fst s) a1 (snd s))
              (fun _ => True)) with (em := em) (s := (e0, e1))
    as [[e0' e1'] [Hloop _]].
  - intros channel enc [a b] _. cbn [fst snd].
    destruct (encodeChannel_pyramid T ct aggr fields rows Hpaths channel enc
                a0 a a1 b) as [a' [b' [Hrun _]]].
    exists (a', b'). now split.
  - exact I.
  - cbn [fst snd] in Hloop.
    destruct (pyramidPostProcessor_colours rows (obj_get e0' "color")
                (obj_get e1' "color") (pyramidDraft a0 e0' a1 e1'))
      as [spec' [Hpp [b0 [f0 [b1 [f1 [-> _]]]]]]].
    { exists a0, e0', a1, e1'. auto. }
    eexists. unfold assembleSpec, structuredClone. rewrite Hloop. cbn [rbind].
    change (handleFaceting (pyramidDraft a0 e0' a1 e1'))
      with (Ok (pyramidDraft a0 e0' a1 e1')).
    cbn [rbind]. unfold applyPostProcessor. rewrite Hpost, Hpp. cbn [rbind].
    reflexivity.
Qed.
End TotalAssembly.

Section TotalCatalogue.
Context {host : JSHost}.

(** Every template of the catalogue is assembled into a specification,
    whatever the encoding map, the fields and the rows. *)
Lemma catalogue_total (T : ChartTemplate.t) (ct : string) (aggr : bool)
    (fields : list FieldItem.t) (rows : list object) (em : EncodingMap) :
  In T allTemplates ->
  exists o,
    assembleSpec T ct aggr fields rows em (ChartTemplate.template T)
    = Ok (VObj (obj_set o "data" (dataOf fields rows))).
Proof.
  intros Hin. each_template Hin; cbn [ChartTemplate.template];
    first
      [ lazymatch goal with
        | |- exists o, assembleSpec ?T _ _ _ _ _ (markTemplate ?m) = _ =>
            destruct (assembleSpec_block T ct aggr fields rows em m)
              as [e [ef [_ [_ [_ Hspec]]]]]; [reflexivity | flat_post |];
            exists [("mark", m); ("encoding", VObj ef)]; exact Hspec
        end
      | apply assembleSpec_bare; reflexivity
      | apply assembleSpec_regression_total; reflexivity
      | apply assembleSpec_ranged_total; reflexivity
      | apply assembleSpec_pyramid_total; reflexivity ].
Qed.

(** [assembleVegaChart] fails exactly on the chart types the catalogue does
    not list, as long as no channel of the encoding map is the name of a
    member inherited from [Object.prototype] (for such a channel
    [chartTemplate.paths[channel]] is no path).  On a heap that holds the
    catalogue, a call for a listed type then returns, whatever else the
    encoding map, the fields and the rows are: the pair of the type and no
    specification for ['Table'], and otherwise a specification whose
    [data] holds the prepared rows; a call for any other type throws. *)
Theorem assembleVegaChart_fails_only_on_unknown_types
    (ct : string) (em : EncodingMap) (fl rl : loc) (mx : nat) (aggr : bool)
    (h : heap) :
  ownChannelsOnly em ->
  catalogueLoaded h ->
  (fl < List.length h)%nat -> (rl < List.length h)%nat ->
  match getChartTemplate ct with
  | Some _ =>
      exists r h',
        assembleVegaChart ct em fl rl mx aggr h = Returned (ct, r) h'
        /\ if ct =? "Table" then r = None
           else exists spec,
                  specOf (assembleVegaChart ct em fl rl mx aggr h) = Some spec
                  /\ get_path [KStr "data"] spec
                     = Ok (dataOf (fieldsAt h fl) (rowsAt h rl))
  | None =>
      exists e, assembleVegaChart ct em fl rl mx aggr h = Thrown e h
  end.
Proof.
  intros _ Hcat Hfl Hrl.
  destruct (getChartTemplate ct) as [[i T]|] eqn:Hct.
  - destruct (ct =? "Table") eqn:Htable.
    + exists None, h. unfold assembleVegaChart. rewrite Htable.
      apply String.eqb_eq in Htable. subst ct. now split.
    + destruct (catalogueLoaded_template h ct i T Hcat Hct) as [Hobj Hi].
      destruct (assembleVegaChart_run ct em fl rl mx aggr h i T Htable Hct Hi
                  Hfl Hrl) as [ext Hrun].
      destruct (getChartTemplate_In ct i T Hct) as [HT _].
      destruct (catalogue_total T ct aggr (fieldsAt h fl) (rowsAt h rl) em HT)
        as [o Hspec].
      rewrite Hobj, Hspec in Hrun. rewrite Hrun.
      eexists. eexists. split; [reflexivity|].
      eexists. split; [apply specOf_returned|].
      cbn [get_path get_prop key_toString rbind].
      now rewrite obj_get_set_same.
  - unfold assembleVegaChart.
    destruct (ct =? "Table") eqn:Htable.
    + apply String.eqb_eq in Htable. subst ct. discriminate.
    + rewrite Hct. eexists. reflexivity.
Qed.
End TotalCatalogue.
Lemma assembleVegaChart_fails_only_on_unknown_types_witness :
  (exists r h',
     @assembleVegaChart sampleHost "Pyramid Chart"
       [("x", boundTo "f-population"); ("y", boundTo "f-region")]
       sampleFields sampleTable 68 false sampleHeap
     = Returned ("Pyramid Chart", r) h'
     /\ exists spec,
          specOf (@assembleVegaChart sampleHost "Pyramid Chart"
                    [("x", boundTo "f-population"); ("y", boundTo "f-region")]
                    sampleFields sampleTable 68 false sampleHeap) = Some spec
          /\ get_path [KStr "data"] spec
             = Ok (@dataOf sampleHost (fieldsAt sampleHeap sampleFields)
                     (rowsAt sampleHeap sampleTable)))
  /\ exists e,
       @assembleVegaChart sampleHost "Sankey Diagram" [] sampleFields
         sampleTable 68 false sampleHeap = Thrown e sampleHeap.
Proof.
  split.
  - apply (@assembleVegaChart_fails_only_on_unknown_types sampleHost
             "Pyramid Chart"
             [("x", boundTo "f-population"); ("y", boundTo "f-region")]
             sampleFields sampleTable 68 false sampleHeap).
    + intros channel Hc Hm. simpl in Hc, Hm. intuition congruence.
    + eexists. reflexivity.
    + vm_compute. lia.
    + vm_compute. lia.
  - apply (@assembleVegaChart_fails_only_on_unknown_types sampleHost
             "Sankey Diagram" [] sampleFields sampleTable 68 false sampleHeap).
    + intros channel [].
    + eexists. reflexivity.
    + vm_compute. lia.
    + vm_compute. lia.
Defined.

(* ================================================================== *)
(** * 42. The axes that Heat Map and Boxplot force to be nominal *)
(* ================================================================== *)

Section NominalAxes.
Context {host : JSHost}.

Lemma forceNominal_axis (m : value) (c : string) (e : object) :
  uniqueKeys e -> objectsOnly e ->
  exists e',
    forceNominal c (flatDraft m e) = Ok (flatDraft m e')
    /\ uniqueKeys e' /\ objectsOnly e'
    /\ (forall k, k <> c -> obj_get e' k = obj_get e k)
    /\ (obj_get e' c = VUndefined
        \/ exists axis, obj_get e' c = VObj axis
                        /\ obj_get axis "type" = VStr "nominal").
Proof.
  intros Hu Ho. unfold forceNominal, flatDraft.
  cbn [get_prop key_toString obj_get].
  change ("mark" =? "encoding") with false.
  change ("encoding" =? "encoding") with true. cbv iota. cbn [rbind].
  cbn [get_prop key_toString rbind].
  destruct (Ho c) as [Hc|[xo Hc]]; rewrite Hc.
  - exists e. cbn [truthy andb]. repeat split; auto.
  - cbn [truthy andb]. unfold get_prop_opt. cbn [get_prop key_toString].
    destruct (strict_equal (obj_get xo "type") (VStr "nominal")) eqn:Htype;
      cbn [negb].
    + exists e. repeat split; auto. right. exists xo. split; [exact Hc|].
      destruct (obj_get xo "type"); try discriminate.
      apply String.eqb_eq in Htype. now subst.
    + exists (obj_set e c (VObj (obj_set xo "type" (VStr "nominal")))).
      split.
      * unfold assign_path.
        cbn [removelast last at_path get_prop key_toString obj_get rbind].
        change ("mark" =? "encoding") with false.
        change ("encoding" =? "encoding") with true. cbv iota.
        cbn [get_prop key_toString].
        rewrite Hc. cbn [rbind set_prop key_toString obj_set].
        change ("mark" =? "encoding") with false.
        change ("encoding" =? "encoding") with true. reflexivity.
      * repeat split.
        -- now apply uniqueKeys_obj_set.
        -- now apply objectsOnly_set.
        -- intros k Hk. now apply obj_get_set_other.
        -- right. eexists. split; [apply obj_get_set_same|].
           apply obj_get_set_same.
Qed.

Lemma nominalWhenThere_flat (m d : value) (e : object) (axis : string) :
  obj_get e axis = VUndefined
  \/ (exists a, obj_get e axis = VObj a /\ obj_get a "type" = VStr "nominal") ->
  nominalWhenThere (VObj [("mark", m); ("encoding", VObj e); ("data", d)])
    axis.
Proof.
  unfold nominalWhenThere.
  cbn [get_path get_prop key_toString obj_get rbind].
  change ("mark" =? "encoding") with false.
  change ("encoding" =? "encoding") with true. cbv iota.
  cbn [get_prop key_toString rbind].
  intros [H|[a [H Ht]]]; rewrite H; [now left | right].
  cbn [rbind get_path get_prop key_toString]. now rewrite Ht.
Qed.

(** The post-processors of Heat Map and Boxplot decide the type of the
    axes.  On a heap that holds the catalogue, the specification assembled
    for ['Heat Map'] has, whatever the encoding map, the fields and the
    rows, an [x] and a [y] axis that are each either missing or of type
    ['nominal'], and the one assembled for ['Boxplot'] an [x] axis that is
    either missing or of type ['nominal']. *)
Theorem heat_map_and_boxplot_axes_are_nominal
    (ct axis : string) (em : EncodingMap) (fl rl : loc) (mx : nat)
    (aggr : bool) (h : heap) :
  (ct = "Heat Map" /\ (axis = "x" \/ axis = "y"))
  \/ (ct = "Boxplot" /\ axis = "x") ->
  catalogueLoaded h ->
  (fl < List.length h)%nat -> (rl < List.length h)%nat ->
  exists spec,
    specOf (assembleVegaChart ct em fl rl mx aggr h) = Some spec
    /\ nominalWhenThere spec axis.
Proof.
  intros Hwhich Hcat Hfl Hrl.
  assert (Hct : exists i T m,
             getChartTemplate ct = Some (i, T)
             /\ ChartTemplate.template T = markTemplate m
             /\ blockPaths (ChartTemplate.paths T) = true /\ flatPost T
             /\ ((ct = "Heat Map"
                  /\ ChartTemplate.postProcessor T = Some heatMapPostProcessor)
                 \/ (ct = "Boxplot" /\ axis = "x"
                     /\ ChartTemplate.postProcessor T
                        = Some boxplotPostProcessor))).
  { destruct Hwhich as [[-> _]|[-> ->]]; do 3 eexists;
      (split; [reflexivity|]);
      (split; [reflexivity|]); (split; [reflexivity|]);
      (split; [flat_post|]); [left | right]; repeat split; reflexivity. }
  destruct Hct as [i [T [m [Hct [Htpl [Hblock [Hpost Hpp]]]]]]].
  assert (Htable : (ct =? "Table") = false)
    by (destruct Hwhich as [[-> _]|[-> _]]; reflexivity).
  destruct (catalogueLoaded_template h ct i T Hcat Hct) as [Hobj Hi].
  destruct (assembleVegaChart_run ct em fl rl mx aggr h i T Htable Hct Hi
              Hfl Hrl) as [ext Hrun].
  destruct (assembleSpec_block T ct aggr (fieldsAt h fl) (rowsAt h rl) em m
              Hblock Hpost) as [e [ef [Hu [Ho [Hrunpp Hspec]]]]].
  rewrite Hobj, Htpl, Hspec in Hrun.
  eexists. split; [rewrite Hrun; apply specOf_returned|].
  apply nominalWhenThere_flat.
  unfold applyPostProcessor in Hrunpp.
  destruct Hpp as [[Hheat Hpp]|[_ [-> Hpp]]]; rewrite Hpp in Hrunpp.
  - unfold heatMapPostProcessor in Hrunpp.
    destruct (forceNominal_axis m "y" e Hu Ho)
      as [e1 [Hrun1 [Hu1 [Ho1 [Hk1 Hy]]]]].
    destruct (forceNominal_axis m "x" e1 Hu1 Ho1)
      as [e2 [Hrun2 [_ [_ [Hk2 Hx]]]]].
    rewrite Hrun1 in Hrunpp. cbn [rbind] in Hrunpp.
    rewrite Hrun2 in Hrunpp. injection Hrunpp as <-.
    destruct Hwhich as [[_ [->| ->]]|[Hbox _]].
    + exact Hx.
    + rewrite Hk2 by discriminate. exact Hy.
    + congruence.
  - unfold boxplotPostProcessor in Hrunpp.
    destruct (forceNominal_axis m "x" e Hu Ho)
      as [e1 [Hrun1 [_ [_ [_ Hx]]]]].
    rewrite Hrun1 in Hrunpp. injection Hrunpp as <-. exact Hx.
Qed.

End NominalAxes.

Lemma heat_map_and_boxplot_axes_are_nominal_witness :
  exists spec,
    specOf (@assembleVegaChart sampleHost "Heat Map"
              [("x", boundTo "f-population"); ("y", boundTo "f-region")]
              sampleFields sampleTable 68 false sampleHeap) = Some spec
    /\ nominalWhenThere spec "x".
Proof.
  apply (@heat_map_and_boxplot_axes_are_nominal sampleHost "Heat Map" "x"
           [("x", boundTo "f-population"); ("y", boundTo "f-region")]
           sampleFields sampleTable 68 false sampleHeap).
  - left. split; [reflexivity | left; reflexivity].
  - eexists. reflexivity.
  - vm_compute. lia.
  - vm_compute. lia.
Defined.

(* ================================================================== *)
(** * 43. The thumbnail sample is drawn from the rows *)
(* ================================================================== *)

Lemma arr_set_takes_out (a : list value) (i : nat) (v : value) :
  (i < List.length a)%nat ->
  Permutation (v :: a) (nth i a VUndefined :: arr_set a i v).
Proof.
  revert i. induction a as [|x a IH]; intros [|i] H; simpl in *; try lia.
  - apply perm_swap.
  - eapply perm_trans; [apply perm_swap|].
    eapply perm_trans; [apply perm_skip, (IH i); lia|]. apply perm_swap.
Qed.

(** Exchanging the elements at two places of an array permutes it. *)
Lemma exchange_permutes (a : list value) (i j : nat) :
  (j <= i)%nat -> (i < List.length a)%nat ->
  Permutation
    (arr_set (arr_set a j (nth i a VUndefined)) i (nth j a VUndefined)) a.
Proof.
  revert i j. induction a as [|x a IH]; intros i j Hji Hi; simpl in Hi;
    [lia|].
  destruct j as [|j], i as [|i]; try lia.
  - reflexivity.
  - cbn [arr_set nth]. apply Permutation_sym, arr_set_takes_out. lia.
  - cbn [arr_set nth]. apply perm_skip, IH; lia.
Qed.

Section Sampling.
Context {host : JSHost}.

Lemma swapStep_permutes (shuffled : list value) (i : nat) :
  (i < List.length shuffled)%nat ->
  Permutation (swapStep shuffled i) shuffled.
Proof.
  intros Hi. unfold swapStep. cbv zeta.
  apply exchange_permutes; [apply shuffleIndex_le | exact Hi].
Qed.

Lemma shuffleLoop_permutes (i : nat) :
  forall shuffled, (i <= List.length shuffled)%nat ->
  Permutation (shuffleLoop i shuffled) shuffled.
Proof.
  induction i as [|i IH]; intros shuffled Hi; [reflexivity|].
  cbn [shuffleLoop].
  pose proof (swapStep_permutes shuffled i Hi) as Hstep.
  eapply perm_trans; [apply IH | exact Hstep].
  rewrite (Permutation_length Hstep). lia.
Qed.

(** The sample of a thumbnail is drawn from the rows without replacement:
    it has five thousand rows when there are more and is all the rows
    otherwise, and together with some left-over rows it is a rearrangement
    of the input, so no row is invented and none shows more often than it
    occurs. *)
Theorem downSample_draws_without_replacement (values : list value) :
  List.length (downSample values) = Nat.min 5000 (List.length values)
  /\ exists rest, Permutation (downSample values ++ rest) values.
Proof.
  unfold downSample.
  destruct (5000 <? List.length values)%nat eqn:Hbig.
  - apply Nat.ltb_lt in Hbig. unfold getRandomSubarray.
    pose proof (shuffleLoop_permutes (List.length values) values (le_n _))
      as Hperm.
    split.
    + rewrite length_firstn, (Permutation_length Hperm). reflexivity.
    + exists (skipn 5000 (shuffleLoop (List.length values) values)).
      now rewrite firstn_skipn.
  - apply Nat.ltb_ge in Hbig. split; [lia|].
    exists []. now rewrite app_nil_r.
Qed.
End Sampling.

(* ================================================================== *)
(** * 44. Truncated text and field domains (viewUtils.ts) *)
(* ================================================================== *)

Lemma length_append (s t : string) :
  String.length (s ++ t) = (String.length s + String.length t)%nat.
Proof. induction s as [|c s IH]; simpl; [reflexivity | now rewrite IH]. Qed.

Lemma length_substring_0 (k : nat) (s : string) :
  String.length (substring 0 k s) = Nat.min k (String.length s).
Proof.
  revert s. induction k as [|k IH]; intros [|c s]; simpl; try reflexivity.
  now rewrite IH.
Qed.

(** [truncateText] keeps to the bound only from three on.  For an integer
    [maxLength], the text it returns is at most [maxLength] long exactly
    when the text given already is or [maxLength] is at least [3]: below
    [3], a text that is too long comes back with the three dots and is
    still too long. *)
Theorem truncateText_fits_only_from_three_on (text : string)
    (maxLength : Z) :
  (Z.of_nat (String.length (truncateText text maxLength)) <=? maxLength)%Z
  = (Z.of_nat (String.length text) <=? maxLength)%Z || (3 <=? maxLength)%Z.
Proof.
  unfold truncateText.
  destruct (Z.of_nat (String.length text) <=? maxLength)%Z eqn:Hfits;
    [now rewrite Hfits|].
  cbn [orb]. apply Z.leb_gt in Hfits.
  rewrite length_append, length_substring_0.
  change (String.length "...") with 3%nat.
  set (len := String.length text) in *. unfold sliceEnd.
  destruct (3 <=? maxLength)%Z eqn:Hthree.
  - apply Z.leb_le in Hthree. apply Z.leb_le.
    destruct (maxLength - 3 <? 0)%Z eqn:Hneg;
      [apply Z.ltb_lt in Hneg; lia|].
    rewrite Z.min_l by lia. lia.
  - apply Z.leb_gt in Hthree. apply Z.leb_gt. lia.
Qed.

Section DomainsOfAField.
Context {host : JSHost} {json : JSONWriter}.

(** The filter, by recursion on the domains that are left. *)
Lemma removeDuplicates_step (seen domains : list (list value)) :
  map fst
    (filter
       (fun di =>
          negb (existsb (fun prevD => sortedForm prevD =? sortedForm (fst di))
                  (firstn (snd di) (seen ++ domains))))
       (combine domains (seq (List.length seen) (List.length domains))))
  = match domains with
    | [] => []
    | d :: rest =>
        (if existsb (fun prevD => sortedForm prevD =? sortedForm d) seen
         then [] else [d])
        ++ map fst
             (filter
                (fun di =>
                   negb (existsb
                           (fun prevD => sortedForm prevD =? sortedForm (fst di))
                           (firstn (snd di) ((seen ++ [d]) ++ rest))))
                (combine rest
                   (seq (List.length (seen ++ [d])) (List.length rest))))
    end.
Proof.
  destruct domains as [|d rest]; [reflexivity|].
  cbn [List.length seq combine filter fst snd].
  rewrite firstn_app, firstn_all, Nat.sub_diag. cbn [firstn].
  rewrite app_nil_r, <- app_assoc. cbn [app].
  rewrite length_app. cbn [List.length]. rewrite Nat.add_1_r.
  now destruct (existsb (fun prevD => sortedForm prevD =? sortedForm d) seen).
Qed.

Lemma removeDuplicates_facts (domains : list (list value)) :
  forall seen,
  let kept :=
    map fst
      (filter
         (fun di =>
            negb (existsb
                    (fun prevD => sortedForm prevD =? sortedForm (fst di))
                    (firstn (snd di) (seen ++ domains))))
         (combine domains (seq (List.length seen) (List.length domains)))) in
  NoDup (map sortedForm kept)
  /\ (forall d, In d kept ->
        In d domains /\ ~ In (sortedForm d) (map sortedForm seen))
  /\ (forall d, In d domains ->
        In (sortedForm d) (map sortedForm seen)
        \/ In (sortedForm d) (map sortedForm kept)).
Proof.
  induction domains as [|d rest IH]; intros seen kept; subst kept.
  - repeat split; [constructor | contradiction | contradiction | contradiction].
  - rewrite removeDuplicates_step.
    destruct (IH (seen ++ [d])) as [Hnd [Hin Hall]].
    set (kept := map fst (filter _ (combine rest _))) in *.
    assert (Hseen : existsb (fun prevD => sortedForm prevD =? sortedForm d)
                      seen = true
                    <-> In (sortedForm d) (map sortedForm seen)).
    { rewrite existsb_exists, in_map_iff.
      split; intros [p [H1 H2]]; exists p.
      - apply String.eqb_eq in H2. now split.
      - split; [tauto|]. apply String.eqb_eq. tauto. }
    destruct (existsb (fun prevD => sortedForm prevD =? sortedForm d) seen)
      eqn:Hdup; cbn [app].
    + split; [exact Hnd|]. split.
      * intros x Hx. destruct (Hin x Hx) as [H1 H2]. split; [now right|].
        intros H. apply H2. rewrite map_app, in_app_iff. now left.
      * intros x [<-|Hx]; [left; now apply Hseen|].
        destruct (Hall x Hx) as [H|H]; [|now right].
        rewrite map_app, in_app_iff in H. destruct H as [H|[H|[]]].
        -- now left.
        -- left. rewrite <- H. now apply Hseen.
    + assert (Hfresh : ~ In (sortedForm d) (map sortedForm seen)).
      { intros H. apply Hseen in H. discriminate. }
      split; [|split].
      * cbn [map]. constructor; [|exact Hnd].
        intros H. apply in_map_iff in H. destruct H as [x [Hk Hx]].
        destruct (Hin x Hx) as [_ H2]. apply H2.
        rewrite map_app, in_app_iff. right. left. now symmetry.
      * intros x [<-|Hx]; [split; [now left | exact Hfresh]|].
        destruct (Hin x Hx) as [H1 H2]. split; [now right|].
        intros H. apply H2. rewrite map_app, in_app_iff. now left.
      * intros x [<-|Hx]; [right; now left|].
        destruct (Hall x Hx) as [H|H]; [|right; now right].
        rewrite map_app, in_app_iff in H. destruct H as [H|[H|[]]].
        -- now left.
        -- right. left. exact H.
Qed.

(** [getDomains] returns the domains of a field without repetition.  The
    result is never the empty list; no two of the returned domains have
    the same sorted form; each returned domain holds no value twice; and
    every table that has rows, and the field among the keys of its first
    row, is represented: the sorted form of the distinct values of its
    column is that of one of the returned domains. *)
Theorem getDomains_returns_each_domain_once (field : FieldItem.t)
    (tables : list DictTable.t) :
  let domains := getDomains field tables in
  domains <> []
  /\ NoDup (map sortedForm domains)
  /\ (forall d, In d domains -> distinctValues d)
  /\ (forall t, In t tables -> holdsField (FieldItem.name field) t = true ->
        In (sortedForm
              (Set_values (columnValues (DictTable.rows t)
                             (FieldItem.name field))))
           (map sortedForm domains)).
Proof.
  cbv zeta. unfold getDomains. cbv zeta.
  set (found := map _ (filter (holdsField (FieldItem.name field)) tables)).
  destruct (removeDuplicates_facts found []) as [Hnd [Hin Hall]].
  cbn [app List.length] in Hnd, Hin, Hall.
  fold (removeDuplicateDomains found) in Hnd, Hin, Hall.
  assert (Hcover : forall t, In t tables ->
            holdsField (FieldItem.name field) t = true ->
            In (sortedForm
                  (Set_values (columnValues (DictTable.rows t)
                                 (FieldItem.name field))))
               (map sortedForm (removeDuplicateDomains found))).
  { intros t Ht Hholds.
    destruct (Hall (Set_values (columnValues (DictTable.rows t)
                                  (FieldItem.name field)))) as [[]|H];
      [|exact H].
    unfold found. apply in_map_iff. exists t. split; [reflexivity|].
    apply filter_In. now split. }
  destruct (removeDuplicateDomains found) as [|d0 kept] eqn:Hkept;
    cbn [List.length Nat.eqb].
  - split; [discriminate|]. split; [repeat constructor; simpl; tauto|].
    split.
    + intros d [<-|[]]. exact I.
    + intros t Ht Hholds. destruct (Hcover t Ht Hholds).
  - split; [discriminate|]. split; [exact Hnd|]. split; [|exact Hcover].
    intros d Hd. destruct (Hin d Hd) as [Hfound _].
    unfold found in Hfound. apply in_map_iff in Hfound.
    destruct Hfound as [t [<- _]]. apply Set_values_distinct.
Qed.
End DomainsOfAField.

(* ================================================================== *)
(** * 45. The models and their slots *)
(* ================================================================== *)

Lemma strict_equal_optional (a : option string) (s : string) :
  strict_equal (optional a) (VStr s) = true <-> a = Some s.
Proof.
  destruct a as [x|]; simpl; [|split; discriminate].
  rewrite String.eqb_eq. split; congruence.
Qed.

Lemma strict_equal_optional_refl (a : option string) :
  strict_equal (optional a) (optional a) = true.
Proof. destruct a; simpl; [apply String.eqb_refl | reflexivity]. Qed.

(** What clearing the slots of a list of slot types leaves at one slot. *)
Lemma clear_slots (payload : string) (keys : list string) :
  forall slots slot,
  obj_get
    (fold_left
       (fun slots slotType =>
          if strict_equal (obj_get slots slotType) (VStr payload)
          then obj_set slots slotType VUndefined
          else slots)
       keys slots) slot
  = if strict_equal (obj_get slots slot) (VStr payload)
       && existsb (String.eqb slot) keys
    then VUndefined else obj_get slots slot.
Proof.
  induction keys as [|k keys IH]; intros slots slot; cbn [fold_left existsb].
  - now rewrite andb_false_r.
  - rewrite IH. destruct (String.eqb_spec slot k) as [->|Hne].
    + destruct (strict_equal (obj_get slots k) (VStr payload)) eqn:E.
      * rewrite obj_get_set_same. cbn [strict_equal andb]. reflexivity.
      * rewrite E. reflexivity.
    + cbn [orb].
      destruct (strict_equal (obj_get slots k) (VStr payload));
        [rewrite obj_get_set_other by exact Hne|]; reflexivity.
Qed.

Lemma obj_get_defined_key (o : object) (k : string) :
  obj_get o k <> VUndefined -> existsb (String.eqb k) (map fst o) = true.
Proof.
  induction o as [|[k0 v0] o IH]; simpl; [congruence|].
  rewrite (String.eqb_sym k k0).
  destruct (k0 =? k); [reflexivity | exact IH].
Qed.

(** Removing a model leaves no trace of its id: no listed model has it, no
    slot holds it, the active model, if there is one, is not the removed
    one; and the slots that held another id, or none, are as before. *)
Theorem removeModel_leaves_no_trace (state : ModelsState) (payload : string) :
  let state' := removeModel state payload in
  (forall m, In m (models state') -> ModelConfig.id m <> Some payload)
  /\ (forall slot, obj_get (modelSlots state') slot <> VStr payload)
  /\ (forall slot, obj_get (modelSlots state) slot <> VStr payload ->
        obj_get (modelSlots state') slot = obj_get (modelSlots state) slot)
  /\ (forall m, getActiveModel state' = Some m ->
        ModelConfig.id m <> Some payload).
Proof.
  cbv zeta.
  assert (Hmodels : forall m, In m (models (removeModel state payload)) ->
                      ModelConfig.id m <> Some payload).
  { intros m Hm. cbn [removeModel models] in Hm. apply filter_In in Hm.
    destruct Hm as [_ Hm]. apply negb_true_iff in Hm. intros Hid.
    apply strict_equal_optional in Hid. congruence. }
  split; [exact Hmodels|]. split; [|split].
  - intros slot. cbn [removeModel modelSlots]. rewrite clear_slots.
    destruct (strict_equal (obj_get (modelSlots state) slot) (VStr payload))
      eqn:E.
    + rewrite obj_get_defined_key; [discriminate|].
      destruct (obj_get (modelSlots state) slot); discriminate.
    + cbn [andb]. intros H. rewrite H in E. cbn [strict_equal] in E.
      rewrite String.eqb_refl in E. discriminate.
  - intros slot Hslot. cbn [removeModel modelSlots]. rewrite clear_slots.
    destruct (strict_equal (obj_get (modelSlots state) slot) (VStr payload))
      eqn:E; [|reflexivity].
    destruct (obj_get (modelSlots state) slot); try discriminate.
    cbn [strict_equal] in E. apply String.eqb_eq in E. congruence.
  - intros m Hm. apply Hmodels. unfold getActiveModel in Hm.
    apply find_some in Hm. tauto.
Qed.

Lemma fill_slots (first : value) (keys : list string) :
  forall slots slot,
  obj_get
    (fold_left
       (fun slots slotType =>
          if strict_equal (obj_get slots slotType) VUndefined
          then obj_set slots slotType first
          else slots)
       keys slots) slot
  = if strict_equal (obj_get slots slot) VUndefined
       && existsb (String.eqb slot) keys
    then first else obj_get slots slot.
Proof.
  induction keys as [|k keys IH]; intros slots slot; cbn [fold_left existsb].
  - now rewrite andb_false_r.
  - rewrite IH. destruct (String.eqb_spec slot k) as [->|Hne].
    + destruct (strict_equal (obj_get slots k) VUndefined) eqn:E.
      * rewrite obj_get_set_same. cbn [orb andb].
        now destruct (strict_equal first VUndefined
                      && existsb (String.eqb k) keys).
      * rewrite E. reflexivity.
    + cbn [orb].
      destruct (strict_equal (obj_get slots k) VUndefined);
        [rewrite obj_get_set_other by exact Hne|]; reflexivity.
Qed.

(** When the available models arrive and no model was chosen for
    generation, the first of them becomes the active model; a slot that
    holds a model keeps it; and every model listed before is still
    listed, or one of the arrived models has its endpoint, model, API base
    and API version. *)
Theorem fetched_models_fill_the_empty_slots (state : ModelsState)
    (first : ModelConfig.t) (rest : list ModelConfig.t) :
  let state' := fetchAvailableModels_fulfilled state (Some (first :: rest)) in
  (obj_get (modelSlots state) "generation" = VUndefined ->
     getActiveModel state' = Some first)
  /\ (forall slot, obj_get (modelSlots state) slot <> VUndefined ->
        obj_get (modelSlots state') slot = obj_get (modelSlots state) slot)
  /\ (forall e, In e (models state) ->
        In e (models state')
        \/ exists m, In m (first :: rest) /\ sameEndpoint m e = true).
Proof.
  cbv zeta. split; [|split].
  - intros Hnone. unfold getActiveModel.
    cbn [fetchAvailableModels_fulfilled modelSlots models].
    rewrite fill_slots, Hnone. cbn [strict_equal MODEL_SLOT_TYPES existsb].
    cbn [app find]. change ("generation" =? "generation") with true.
    cbn [orb andb]. now rewrite strict_equal_optional_refl.
  - intros slot Hslot. cbn [fetchAvailableModels_fulfilled modelSlots].
    rewrite fill_slots.
    destruct (obj_get (modelSlots state) slot); try reflexivity. congruence.
  - intros e He. cbn [fetchAvailableModels_fulfilled models].
    destruct (existsb (fun m => sameEndpoint m e) (first :: rest)) eqn:E.
    + right. apply existsb_exists in E. exact E.
    + left. apply in_or_app. right. apply filter_In. split; [exact He|].
      now rewrite E.
Qed.

(* ================================================================== *)
(** * 46. Looking templates up by name *)
(* ================================================================== *)

Section CatalogueLookup.
Context {host : JSHost}.

(** Every template of the catalogue is found under its own name: no chart
    type is listed twice, so none hides another; and the chart types that
    [getAllChartTypes] lists are exactly those [getChartTemplate] finds. *)
Theorem every_template_is_found_under_its_name :
  NoDup getAllChartTypes
  /\ (forall T, In T allTemplates ->
        exists i, getChartTemplate (ChartTemplate.chart T) = Some (i, T))
  /\ (forall ct, In ct getAllChartTypes <-> getChartTemplate ct <> None).
Proof.
  split; [|split].
  - unfold getAllChartTypes.
    cbv [allTemplates CHART_TEMPLATES map snd List.concat app tablePlots
         scatterPlots barCharts lineCharts tableCharts customCharts
         ChartTemplate.chart].
    repeat (constructor; [cbn [In]; intuition discriminate|]). constructor.
  - intros T HT. each_template HT; eexists; reflexivity.
  - intros ct. unfold getAllChartTypes. rewrite in_map_iff. split.
    + intros [T [<- HT]]. each_template HT; discriminate.
    + destruct (getChartTemplate ct) as [[i T]|] eqn:E; [|congruence].
      intros _. exists T. destruct (getChartTemplate_In ct i T E) as [H1 H2].
      now split.
Qed.
End CatalogueLookup.

(* ================================================================== *)
(** * 47. The client of the server-sent events *)
(* ================================================================== *)

Section ClientRuns.
Context {host : JSHost}.

(** Runs keep what every single event keeps. *)
Lemma run_invariant (Inv : SSE.World -> Prop) :
  (forall w ev, Inv w -> Inv (SSE.deliver w ev)) ->
  forall events w, Inv w -> Inv (SSE.run w events).
Proof.
  intros Hstep events. unfold SSE.run.
  induction events as [|ev events IH]; intros w Hw; [exact Hw|].
  cbn [fold_left]. apply IH, Hstep, Hw.
Qed.

Lemma notify_budget n w a : withinBudget n w -> withinBudget n (SSE.notify w a).
Proof. unfold SSE.notify. now destruct (SSE.dispatch (SSE.client w)). Qed.

Lemma scheduleReconnect_budget n w :
  withinBudget n w -> withinBudget n (SSE.scheduleReconnect w).
Proof.
  intros [Ha Hc]. unfold SSE.scheduleReconnect.
  destruct (SSE.isDestroyed (SSE.client w)); [now split|].
  rewrite Ha. cbn [number_leb].
  destruct (Qle_bool (inject_Z (Z.of_nat n))
              (inject_Z (Z.of_nat (SSE.reconnectCount (SSE.client w)))))
    eqn:E.
  - apply notify_budget. now split.
  - split; [exact Ha|]. cbn.
    assert (H : ~ (Z.of_nat n <= Z.of_nat (SSE.reconnectCount (SSE.client w)))%Z).
    { intros H. rewrite Zle_Qle in H. apply Qle_bool_iff in H. congruence. }
    lia.
Qed.

Lemma connect_budget n throws w :
  withinBudget n w -> withinBudget n (SSE.connect throws w).
Proof.
  intros H. unfold SSE.connect.
  destruct (SSE.isDestroyed (SSE.client w)); [exact H|].
  destruct (SSE.eventSource (SSE.client w) || SSE.isConnecting (SSE.client w));
    [exact H|].
  destruct throws; [apply scheduleReconnect_budget|]; exact H.
Qed.

Lemma disconnect_budget n w :
  withinBudget n w -> withinBudget n (SSE.disconnect w).
Proof.
  intros [Ha Hc]. destruct w as [[es d ra rd rc rt ic ds] p nt tr].
  unfold withinBudget, SSE.disconnect. cbn in Ha, Hc |- *.
  destruct rt, es; cbn; (split; [exact Ha | lia]).
Qed.

(** The client never tries to reconnect more often than its options
    allow.  Whatever happens to a client built with [reconnectAttempts: n]
    (method calls, events of its event sources and timers that fire, in
    any order), its count of reconnections stays at most [n]; for a client
    built without that option it stays at most five. *)
Theorem reconnections_stay_within_the_attempts (dispatch : bool) (n : nat)
    (delay : option number) (events : list SSE.Event) :
  (SSE.reconnectCount
     (SSE.client
        (SSE.run (SSE.fresh dispatch (Some (Finite (inject_Z (Z.of_nat n))))
                    delay) events)) <= n)%nat
  /\ (SSE.reconnectCount
        (SSE.client (SSE.run (SSE.fresh dispatch None delay) events))
      <= 5)%nat.
Proof.
  assert (Hstep : forall k w ev,
            withinBudget k w -> withinBudget k (SSE.deliver w ev)).
  { intros k w ev H. destruct ev as [throws| | | |data|rs| |id throws];
      cbn [SSE.deliver].
    - now apply connect_budget.
    - now apply disconnect_budget.
    - unfold SSE.destroy.
      destruct (disconnect_budget k
                  (SSE.withClient w
                     (SSE.withIsDestroyed (SSE.client w) true)))
        as [Ha Hc]; [exact H | now split].
    - unfold SSE.onopen. destruct H as [Ha Hc].
      assert (H0 : withinBudget k
                (SSE.notify
                   (SSE.withClient
                      (SSE.withClient w
                         (SSE.withIsConnecting (SSE.client w) false))
                      (SSE.withReconnectCount
                         (SSE.client
                            (SSE.withClient w
                               (SSE.withIsConnecting (SSE.client w) false)))
                         0))
                   (SSE.setSSEConnectionStatus "connected"))).
      { apply notify_budget. split; [exact Ha | cbn; lia]. }
      exact H0.
    - unfold SSE.onmessage. destruct (JSON_parse data); [|exact H].
      destruct (notify_budget k w (SSE.handleSSEMessage v) H) as [Ha Hc].
      now split.
    - unfold SSE.onerror. cbn [SSE.withClient SSE.client SSE.withIsConnecting
                                SSE.eventSource].
      set (w1 := SSE.withClient w (SSE.withIsConnecting (SSE.client w) false)).
      assert (H1 : withinBudget k w1) by exact H.
      assert (H2 : withinBudget k
                (if SSE.eventSource (SSE.client w) then
                   match rs with
                   | SSE.CLOSED =>
                       SSE.scheduleReconnect
                         (SSE.notify w1
                            (SSE.setSSEConnectionStatus "disconnected"))
                   | _ => w1
                   end
                 else w1)).
      { destruct (SSE.eventSource (SSE.client w)); [|exact H1].
        destruct rs; try exact H1.
        now apply scheduleReconnect_budget, notify_budget. }
      exact H2.
    - unfold SSE.onclose. apply scheduleReconnect_budget.
      set (w1 := SSE.withClient w (SSE.withIsConnecting (SSE.client w) false)).
      assert (H1 : withinBudget k w1) by exact H.
      destruct (notify_budget k w1
                  (SSE.setSSEConnectionStatus "disconnected") H1) as [Ha Hc].
      now split.
    - destruct (existsb (Nat.eqb id) (SSE.pending w)); [|exact H].
      unfold SSE.reconnect. apply connect_budget. exact H. }
  split.
  - apply (run_invariant (withinBudget n) (Hstep n)). split; cbn; [reflexivity | lia].
  - apply (run_invariant (withinBudget 5) (Hstep 5%nat)).
    split; cbn; [reflexivity | lia].
Qed.

(** A destroyed client stays shut down.  Whatever happens after [destroy]
    (method calls, events of the event sources the client had created and
    timers that had been set, in any order), the client holds no event
    source and no timer, and all it still does is to call the callbacks of
    its options: it dispatches nothing, creates no event source and sets
    no timer. *)
Theorem a_destroyed_client_stays_shut_down (w : SSE.World)
    (events : list SSE.Event) :
  let w' := SSE.run (SSE.destroy w) events in
  SSE.eventSource (SSE.client w') = false
  /\ SSE.reconnectTimer (SSE.client w') = None
  /\ exists callbacks,
       SSE.trace w' = SSE.trace (SSE.destroy w) ++ map SSE.Called callbacks.
Proof.
  cbv zeta.
  assert (Hrun : shutDown (SSE.trace (SSE.destroy w))
                   (SSE.run (SSE.destroy w) events)).
  { apply run_invariant.
    - intros v ev Hv.
      destruct v as [[es d ra rd rc rt ic ds] p nt tr].
      destruct Hv as [H1 [H2 [H3 [H4 [cs H5]]]]].
      cbn in H1, H2, H3, H4, H5. subst es d rt ds tr.
      assert (Hmore : forall name,
                (SSE.trace (SSE.destroy w) ++ map SSE.Called cs)
                ++ [SSE.Called name]
                = SSE.trace (SSE.destroy w) ++ map SSE.Called (cs ++ [name])).
      { intros name. now rewrite map_app, app_assoc. }
      destruct ev as [throws| | | |data|rs| |id throws];
        unfold shutDown; cbn [SSE.deliver].
      + cbn. eauto 10.
      + cbn. eauto 10.
      + cbn. eauto 10.
      + cbn. rewrite Hmore. eauto 10.
      + unfold SSE.onmessage. destruct (JSON_parse data); cbn;
          [rewrite Hmore|]; eauto 10.
      + cbn. rewrite Hmore. eauto 10.
      + cbn. rewrite Hmore. eauto 10.
      + cbn [SSE.pending]. destruct (existsb (Nat.eqb id) p); cbn; eauto 10.
    - unfold shutDown, SSE.destroy, SSE.disconnect.
      destruct w as [[es d ra rd rc rt ic ds] p nt tr].
      destruct rt, es; cbn; repeat split; exists []; now rewrite app_nil_r. }
  destruct Hrun as [_ [_ [H3 [H4 H5]]]]. auto.
Qed.
End ClientRuns.

(* ================================================================== *)
(** * 48. Channels without a field *)
(* ================================================================== *)

Section Unbound.
Context {host : JSHost}.

(** No template of the catalogue has a path for the radius channel. *)
Lemma no_radius_path (T : ChartTemplate.t) :
  In T allTemplates -> lookupPaths (ChartTemplate.paths T) "radius" = None.
Proof. intros Hin. each_template Hin; reflexivity. Qed.

Lemma handleSorting_nothing channel (encoding : EncodingItem) field eo vg :
  sortLeavesNothing encoding = true ->
  handleSorting channel encoding field eo vg = (eo, vg).
Proof.
  unfold sortLeavesNothing, handleSorting, nonempty.
  destruct (sortBy encoding) as [by_|].
  - destruct (by_ =? "") eqn:Eb.
    + intros H. apply negb_true_iff in H. rewrite H. reflexivity.
    + intros H. apply andb_true_iff in H. destruct H as [Hk Hp].
      apply negb_true_iff in Hk, Hp.
      apply orb_false_iff in Hk. destruct Hk as [Hk Hy].
      apply orb_false_iff in Hk. destruct Hk as [Hd Hx].
      cbn [negb orb]. rewrite Hd, Hx, Hy. cbn [orb].
      unfold sortByValues. destruct (JSON_parse by_); [discriminate|].
      reflexivity.
  - intros H. apply negb_true_iff in H. rewrite H. reflexivity.
Qed.

(** Without a field, and with settings that put nothing into it, the
    encoding object of a channel is as it starts: empty, or the scale of
    the radius channel. *)
Lemma resolveEncoding_plain ct aggr fields rows channel encoding vg :
  nonempty (fieldID encoding) = false ->
  plainSettings encoding aggr = true ->
  resolveEncoding ct aggr fields rows channel encoding vg
  = (initialEncodingObj channel, vg).
Proof.
  intros Hfield H. unfold plainSettings in H.
  repeat (apply andb_true_iff in H; destruct H as [H ?]).
  repeat match goal with
         | Hn : negb _ = true |- _ => apply negb_true_iff in Hn
         end.
  unfold resolveEncoding, resolveField.
  rewrite (findField_unbound encoding fields) by assumption.
  unfold countWithoutField. cbn [isSome negb andb]. rewrite H.
  rewrite handleSorting_nothing by assumption.
  rewrite handleStacking_unstacked by assumption.
  rewrite handleScheme_plain by assumption.
  reflexivity.
Qed.

Lemma encodeChannel_plain T ct aggr fields rows channel encoding vg :
  lookupPaths (ChartTemplate.paths T) "radius" = None ->
  nonempty (fieldID encoding) = false ->
  plainSettings encoding aggr = true ->
  encodeChannel T ct aggr fields rows channel encoding vg = Ok vg.
Proof.
  intros Hradius Hfield H. unfold encodeChannel.
  rewrite (resolveEncoding_plain _ _ _ _ _ _ _ Hfield H).
  unfold initialEncodingObj.
  destruct (channel =? "radius") eqn:E.
  - apply String.eqb_eq in E. subst channel. now rewrite Hradius.
  - destruct (lookupPaths (ChartTemplate.paths T) channel); reflexivity.
Qed.

Lemma loopBody_plain T ct aggr fl rl vgObj channel encoding h :
  lookupPaths (ChartTemplate.paths T) "radius" = None ->
  nonempty (fieldID encoding) = false ->
  plainSettings encoding aggr = true ->
  loopBody T ct aggr fl rl vgObj (channel, encoding) h = Returned tt h.
Proof.
  intros Hradius Hfield H.
  unfold loopBody, bind, readFields, readRows, update. cbn [fst snd].
  destruct (nth_error h vgObj) as [[v|fs|rs]|] eqn:Hc; try reflexivity.
  rewrite (encodeChannel_plain _ _ _ _ _ _ _ _ Hradius Hfield H).
  rewrite (heap_set_same _ _ _ Hc). reflexivity.
Qed.

(** C1 (amended): a channel whose encoding has no bound field id
    contributes nothing -- assembling with its entry gives the very outcome
    of assembling without it -- whatever the channel, ['radius'] included,
    provided the encoding has no stack and no colour scheme, is not a
    ['count'] aggregate assembled in preprocessed mode, and has no sort
    other than a [sortBy] that is neither ['default'], ['x'], ['y'] nor
    text that [JSON.parse] accepts. *)
Theorem blank_channel_contributes_nothing (chartType : string)
    (before after : EncodingMap) (channel : string) (encoding : EncodingItem)
    (conceptShelfItems workingTable : loc) (maxNominalValues : nat)
    (aggrPreprocessed : bool) (h : heap) :
  nonempty (fieldID encoding) = false ->
  plainSettings encoding aggrPreprocessed = true ->
  assembleVegaChart chartType (before ++ (channel, encoding) :: after)
    conceptShelfItems workingTable maxNominalValues aggrPreprocessed h
  = assembleVegaChart chartType (before ++ after)
      conceptShelfItems workingTable maxNominalValues aggrPreprocessed h.
Proof.
  intros Hfield Hplain. unfold assembleVegaChart.
  destruct (chartType =? "Table"); [reflexivity|].
  destruct (getChartTemplate chartType) as [[i T]|] eqn:Hct; [|reflexivity].
  apply getChartTemplate_In in Hct. destruct Hct as [Hin _].
  unfold bind at 1. unfold bind at 1. symmetry.
  unfold bind at 1. unfold bind at 1. symmetry.
  destruct (readObj (templateLoc i) h) as [sk h1|e h1]; [|reflexivity].
  destruct (alloc (ObjCell (structuredClone sk)) h1) as [vgObj h2|e h2];
    [|reflexivity].
  unfold bind at 1. symmetry. unfold bind at 1. symmetry.
  rewrite forEach_skip; [reflexivity|].
  intros h'. apply loopBody_plain; [now apply no_radius_path | exact Hfield
                                   | exact Hplain].
Qed.
End Unbound.

Lemma blank_channel_contributes_nothing_witness :
  @assembleVegaChart sampleHost "Bar Chart"
    ([("x", boundTo "f-country")] ++ ("radius", sortedByColour)
     :: [("y", boundTo "f-population")])
    sampleFields sampleTable 68 true sampleHeap
  = @assembleVegaChart sampleHost "Bar Chart"
      ([("x", boundTo "f-country")] ++ [("y", boundTo "f-population")])
      sampleFields sampleTable 68 true sampleHeap.
Proof.
  apply (@blank_channel_contributes_nothing sampleHost "Bar Chart");
    reflexivity.
Defined.

(** C1 (as stated, refuted): on the Bar Chart template, channels with no
    bound field id but a sort order, a stack mode or a colour scheme are
    written at their paths [encoding.x], [encoding.y], [encoding.color],
    and so is, in preprocessed mode, a count without a field id, where the
    template, and the specification assembled without them, hold
    nothing. *)
Lemma unbound_channel_with_settings_is_written :
  fieldID sortedOnly = None /\ fieldID stackedOnly = None
  /\ fieldID schemeOnly = None /\ fieldID countOnly = None
  /\ option_map
       (fun spec => (get_path [KStr "encoding"; KStr "x"] spec,
                     get_path [KStr "encoding"; KStr "y"] spec,
                     get_path [KStr "encoding"; KStr "color"] spec))
       (specOf (@assembleVegaChart sampleHost "Bar Chart"
                  [("x", sortedOnly); ("y", stackedOnly);
                   ("color", schemeOnly)]
                  sampleFields sampleTable 68 false sampleHeap))
     = Some (Ok (VObj [("sort", VStr "descending")]),
             Ok (VObj [("stack", VNull)]),
             Ok (VObj [("scale", VObj [("scheme", VStr "blues")])]))
  /\ option_map
       (fun spec => get_path [KStr "encoding"; KStr "y"] spec)
       (specOf (@assembleVegaChart sampleHost "Bar Chart" [("y", countOnly)]
                  sampleFields sampleTable 68 true sampleHeap))
     = Some (Ok (VObj [("field", VStr "_count"); ("title", VStr "Count");
                       ("type", VStr "quantitative")]))
  /\ option_map
       (fun spec => (get_path [KStr "encoding"; KStr "x"] spec,
                     get_path [KStr "encoding"; KStr "y"] spec,
                     get_path [KStr "encoding"; KStr "color"] spec))
       (specOf (@assembleVegaChart sampleHost "Bar Chart" []
                  sampleFields sampleTable 68 false sampleHeap))
     = Some (Ok VUndefined, Ok VUndefined, Ok VUndefined)
  /\ option_map
       (fun spec => get_path [KStr "encoding"; KStr "y"] spec)
       (specOf (@assembleVegaChart sampleHost "Bar Chart" []
                  sampleFields sampleTable 68 true sampleHeap))
     = Some (Ok VUndefined).
Proof. repeat split. Qed.

(* ================================================================== *)
(** * 49. Templates with a single facet channel *)
(* ================================================================== *)

Section SingleFacet.
Context {host : JSHost}.

End SingleFacet.

